(** * Conversation state and response normalization of the React code assistant

    A shallow embedding of the core of the backend: the per-session
    conversation buffers ([ClaudeConversationBuffer] of [latest/claude.py] and
    [OpenAIConversationBuffer] of [openai_backend.py]), the line-based
    modification normalizer ([sort_modifications], [remove_old_content]) and
    the request handler ([process_chat_request] of [latest/app.py]).

    Python values are modelled as follows.
    - [str] is [string] (the UTF-8 bytes of the text); [int] is [Z].
    - A [list] is a [list]; the slices [l[i:]] and [l[:j]] are [py_slice_from]
      and [py_slice_to], with Python's treatment of negative and out-of-range
      bounds.
    - A message dictionary is the record [Message]; its content is either a
      plain text or a list of content blocks, as the Bedrock API has them.
    - A dictionary read with [.get(key, default)] is a record of optional
      fields, or a [gmap] when the keys are data (sessions, usage counters).
    - The [defaultdict] of [sort_modifications], whose iteration order is the
      insertion order of its keys, is an association list.
    - The remote provider call, the [json] module and the Unicode case
      tables behind [str.lower] are functions given to the handler: they are
      the environment of the program. *)

From Stdlib Require Import ZArith Lia Sorted.
From Stdlib Require Ascii String.
From stdpp Require Import base list strings gmap.

(** ** Text helpers *)

(** The one-character strings that a string literal cannot hold. *)
Definition dq : string := String (Ascii.ascii_of_nat 34) EmptyString.
Definition nl : string := String (Ascii.ascii_of_nat 10) EmptyString.

(** ** Prompt templates ([latest/claude.py], [openai_backend.py])

    The texts are those of the source; a double quote inside a text is the
    separator [dq] of [String.concat]. *)

Definition CLAUDE_SYSTEM_PROMPT : string :=
  "You are an expert React developer assistant specializing in modern React development with hooks, TypeScript, and best practices.

<react_expertise>
- Modern React with functional components and hooks (useState, useEffect, useContext, useReducer, useMemo, useCallback)
- TypeScript for type safety and better developer experience
- Component composition and prop drilling avoidance
- Custom hooks for reusable logic
- State management: Context API, Redux, Zustand
- Routing: React Router v6
- Styling: CSS Modules, Styled Components, Tailwind CSS
- API integration: fetch, axios, React Query, SWR
- Form handling: React Hook Form, Formik
- Performance optimization: memo, lazy loading, code splitting
- Testing: Jest, React Testing Library
- Build tools: Vite, Create React App, Next.js
</react_expertise>

<core_responsibilities>
- Generate well-structured, production-ready React components
- Modify existing React code accurately using line-based changes
- Follow React best practices and modern patterns
- Provide TypeScript types when appropriate
- Respond naturally to casual conversation
- Maintain context throughout conversations
</core_responsibilities>

<interaction_style>
- For code requests: Provide structured JSON responses as instructed
- For casual chat: Respond conversationally without JSON
- Ask clarifying questions when requirements are ambiguous
- Be precise and detail-oriented in code generation
</interaction_style>

You will receive task-specific instructions and examples in the conversation. Follow them carefully.".

Definition CLAUDE_GENERATION_PROMPT : string :=
  String.concat dq
    ["<mode>REACT CODE GENERATION</mode>

<instructions>
You are now in React code generation mode. Follow this process:

1. ANALYZE: Understand the React requirements and plan your component structure
2. STRUCTURE: Determine the file organization (components, hooks, utils, styles)
3. GENERATE: Create complete React code in JSON format

CRITICAL OUTPUT FORMAT:
- Start with brief analysis (2-3 sentences explaining your approach)
- Then output ONLY valid JSON (no markdown, no code blocks, no extra text)
- Format: [Brief reasoning] + JSON structure
</instructions>

<json_structure>
{
  "; "type"; ": "; "code_generation"; ",
  "; "changes"; ": [
    {
      "; "file"; ": "; "src/components/ComponentName.jsx"; ",
      "; "content"; ": "; "complete file content as a string with escaped newlines"; "
    }
  ],
  "; "summary"; ": "; "Brief description of what was generated"; "
}
</json_structure>

<react_best_practices>
1. Use functional components with hooks (not class components)
2. Destructure props for cleaner code
3. Use proper TypeScript types when applicable (.tsx extension)
4. Follow naming conventions: PascalCase for components, camelCase for functions
5. Keep components focused and single-responsibility
6. Extract reusable logic into custom hooks
7. Use proper key props in lists
8. Handle loading and error states
9. Add PropTypes or TypeScript interfaces
10. Include necessary imports (React, hooks, libraries)
</react_best_practices>

<critical_reminders>
- Output brief analysis (2-3 sentences) then ONLY the JSON structure
- No markdown code blocks (```)
- Use proper React patterns and hooks
- Include all necessary imports
- Properly escape all special characters in content strings
- Ensure JSON is valid and parseable
</critical_reminders>"].

Definition CLAUDE_MODIFICATION_PROMPT : string :=
  String.concat dq
    ["<mode>REACT CODE MODIFICATION</mode>

<instructions>
You are now in React code modification mode. Follow this process:

1. ANALYZE: Understand what React code needs to be changed and why
2. LOCATE: Identify exact line numbers and content to modify
3. MODIFY: Provide precise line-based changes in JSON format

CRITICAL OUTPUT FORMAT:
- Start with brief analysis (2-3 sentences explaining your changes)
- Then output ONLY valid JSON (no markdown, no code blocks, no extra text)
- Format: [Brief reasoning] + JSON structure
- NOTE: Do NOT include "; "old_content"; " field - only provide line numbers and new content
</instructions>

<json_structure>
{
  "; "type"; ": "; "code_changes"; ",
  "; "changes"; ": [
    {
      "; "file"; ": "; "path/to/Component.jsx"; ",
      "; "modifications"; ": [
        {
          "; "operation"; ": "; "replace"; " | "; "insert"; " | "; "delete"; " | "; "insert_before"; ",
          "; "start_line"; ": <number>,
          "; "end_line"; ": <number>,
          "; "new_content"; ": "; "new content to insert or replace with"; "
        }
      ]
    }
  ],
  "; "summary"; ": "; "Brief description of changes made"; "
}
</json_structure>

<operations>
<operation name="; "replace"; ">
- start_line: First line number to replace (1-indexed)
- end_line: Last line number to replace (inclusive, 1-indexed)
- new_content: New content to insert (NO old_content field needed)
</operation>

<operation name="; "insert"; ">
- start_line: Line number after which to insert (1-indexed)
- new_content: Content to insert
</operation>

<operation name="; "insert_before"; ">
- start_line: Line number before which to insert (1-indexed)
- new_content: Content to insert
</operation>

<operation name="; "delete"; ">
- start_line: First line number to delete (1-indexed)
- end_line: Last line number to delete (inclusive, 1-indexed)
</operation>
</operations>

<critical_reminders>
- Output brief analysis (2-3 sentences) then ONLY the JSON structure
- NO "; "old_content"; " field - not needed for frontend
- No markdown code blocks (```)
- Use \n for newlines in strings
- Ensure JSON is valid and parseable
- List modifications in top-to-bottom order per file
</critical_reminders>"].

Definition OPENAI_SYSTEM_PROMPT : string :=
  "You are an expert React developer assistant specializing in modern React development with hooks, TypeScript, and best practices.

## React Expertise

You are proficient in:
- **Modern React**: Functional components with hooks (useState, useEffect, useContext, useReducer, useMemo, useCallback)
- **TypeScript**: Type safety and better developer experience
- **Component Patterns**: Composition, avoiding prop drilling, custom hooks
- **State Management**: Context API, Redux, Zustand
- **Routing**: React Router v6
- **Styling**: CSS Modules, Styled Components, Tailwind CSS
- **API Integration**: fetch, axios, React Query, SWR
- **Forms**: React Hook Form, Formik
- **Performance**: memo, lazy loading, code splitting
- **Testing**: Jest, React Testing Library
- **Build Tools**: Vite, Create React App, Next.js

## Core Responsibilities

You MUST:
1. Generate well-structured, production-ready React components
2. Modify existing React code accurately using line-based changes
3. Follow React best practices and modern patterns
4. Provide TypeScript types when appropriate
5. Respond naturally to casual conversation
6. Maintain context throughout conversations
7. Be EXTREMELY PRECISE with line numbers in modifications
8. ALWAYS output valid JSON for code requests (no markdown code blocks around JSON)

## Interaction Style

**For code requests:**
- Provide structured JSON responses as shown in examples
- Start with brief analysis (2-3 sentences)
- Then output ONLY raw JSON (no ```json wrapper)

**For casual chat:**
- Respond conversationally without JSON

**Important:**
- Ask clarifying questions when requirements are ambiguous
- Be precise and detail-oriented
- NEVER wrap JSON output in markdown code blocks

You will receive task-specific instructions and examples in the conversation. Follow them EXACTLY.".

Definition OPENAI_GENERATION_PROMPT : string :=
  String.concat dq
    ["# React Code Generation Mode

## Instructions

You are now in React code generation mode. Follow this process EXACTLY:

### Step 1: ANALYZE
Understand the React requirements and plan your component structure.

### Step 2: STRUCTURE
Determine the file organization (components, hooks, utils, styles).

### Step 3: GENERATE
Create complete React code in JSON format.

## Output Format (CRITICAL)

**Format:** [Brief analysis] + JSON structure

1. Start with brief analysis (2-3 sentences explaining your approach)
2. Then output ONLY valid JSON
3. **DO NOT** wrap JSON in ```json or ``` blocks
4. Output raw JSON only

### Example Flow:
```
I'll create a Counter component using useState hook with increment/decrement functionality.

{
  "; "type"; ": "; "code_generation"; ",
  "; "changes"; ": [...]
}
```

## Expected JSON Structure

```json
{
  "; "type"; ": "; "code_generation"; ",
  "; "changes"; ": [
    {
      "; "file"; ": "; "src/components/ComponentName.jsx"; ",
      "; "content"; ": "; "complete file content as string with escaped newlines"; "
    }
  ],
  "; "summary"; ": "; "Brief description of what was generated"; "
}
```

## React Best Practices

Follow these rules:
1. ✅ Use functional components with hooks (NO class components)
2. ✅ Destructure props for cleaner code
3. ✅ Use TypeScript types when applicable (.tsx extension)
4. ✅ Follow naming: PascalCase for components, camelCase for functions
5. ✅ Keep components focused (single responsibility)
6. ✅ Extract reusable logic into custom hooks
7. ✅ Use proper key props in lists
8. ✅ Handle loading and error states
9. ✅ Add PropTypes or TypeScript interfaces
10. ✅ Include all necessary imports

## File Structure Patterns

Use these paths:
- **Components**: `src/components/ComponentName.jsx` or `.tsx`
- **Hooks**: `src/hooks/useHookName.js`
- **Utils**: `src/utils/utilName.js`
- **Styles**: `src/components/ComponentName.module.css`
- **Types**: `src/types/types.ts`
- **API**: `src/api/apiName.js`

## Critical Reminders

- ⚠️ Output brief analysis FIRST (2-3 sentences)
- ⚠️ Then output ONLY the JSON (no markdown blocks)
- ⚠️ Properly escape special characters (\n for newlines, \"; " for quotes)
- ⚠️ Ensure JSON is valid and parseable
- ⚠️ Include all necessary imports
- ⚠️ Use proper React patterns"].

Definition OPENAI_MODIFICATION_PROMPT : string :=
  String.concat dq
    ["# React Code Modification Mode

## Instructions

You are now in React code modification mode. Follow this process EXACTLY:

### Step 1: ANALYZE
Understand what React code needs to be changed and why.

### Step 2: LOCATE
Identify EXACT line numbers (1-indexed) and content to modify.

### Step 3: MODIFY
Provide precise line-based changes in JSON format.

## Output Format (CRITICAL)

**Format:** [Brief analysis] + JSON structure

1. Start with brief analysis (2-3 sentences explaining changes)
2. Then output ONLY valid JSON
3. **DO NOT** wrap JSON in ```json or ``` blocks
4. Output raw JSON only
5. **DO NOT** include "; "old_content"; " field

### Example Flow:
```
I'll add a loading state using useState and display a loading message.

{
  "; "type"; ": "; "code_changes"; ",
  "; "changes"; ": [...]
}
```

## Expected JSON Structure

```json
{
  "; "type"; ": "; "code_changes"; ",
  "; "changes"; ": [
    {
      "; "file"; ": "; "path/to/Component.jsx"; ",
      "; "modifications"; ": [
        {
          "; "operation"; ": "; "replace"; ",
          "; "start_line"; ": 5,
          "; "end_line"; ": 7,
          "; "new_content"; ": "; "new code here"; "
        }
      ]
    }
  ],
  "; "summary"; ": "; "Brief description of changes"; "
}
```

## Operations

### 1. **replace**
Change existing lines in the component.

**Fields:**
- `start_line`: First line to replace (1-indexed, must be EXACT)
- `end_line`: Last line to replace (inclusive, 1-indexed, must be EXACT)
- `new_content`: New content (NO old_content field)

**Use when:** Modifying code, fixing bugs, updating values

### 2. **insert**
Add new lines AFTER a specified line.

**Fields:**
- `start_line`: Line after which to insert (1-indexed)
- `new_content`: Content to insert

**Use when:** Adding new hooks, state, functions

### 3. **insert_before**
Add new lines BEFORE a specified line.

**Fields:**
- `start_line`: Line before which to insert (1-indexed)
- `new_content`: Content to insert

**Use when:** Adding imports, code before existing logic

### 4. **delete**
Remove lines from the file.

**Fields:**
- `start_line`: First line to delete (1-indexed)
- `end_line`: Last line to delete (inclusive, 1-indexed)

**Use when:** Removing unnecessary code

## Modification Patterns

Common React modification patterns:
1. **Adding state**: Insert useState after existing hooks
2. **Adding props**: Modify component function signature
3. **Event handlers**: Insert new function before return
4. **JSX changes**: Replace specific lines in return
5. **Imports**: Insert at top of file
6. **Hooks**: Replace hook definition lines
7. **Effects**: Insert useEffect after state

## Critical Rules

- ⚠️ Line numbers are 1-indexed (first line = 1)
- ⚠️ **NO** "; "old_content"; " field
- ⚠️ Count line numbers EXACTLY (include blank lines)
- ⚠️ Preserve proper indentation
- ⚠️ Use \n for line breaks
- ⚠️ Escape quotes properly
- ⚠️ Order modifications top to bottom
- ⚠️ Ensure valid JSON

## Critical Reminders

- ⚠️ Output brief analysis FIRST (2-3 sentences)
- ⚠️ Then output ONLY the JSON (no markdown blocks)
- ⚠️ **NO** "; "old_content"; " field
- ⚠️ Be EXTREMELY PRECISE with line numbers
- ⚠️ Count ALL lines including blanks"].

(** ** Messages *)

Record CacheControl := { cc_type : string }.

(** The content of a message: a plain text, or a list of content blocks, each
    a text with an optional cache-control entry. The text of a block is
    whatever the wrapped message held. *)
Inductive Content :=
| Text (s : string)
| Blocks (bs : list ContentBlock)
with ContentBlock :=
| Block (block_type : string) (block_text : Content)
        (cache_control : option CacheControl).

Record Message := { role : string; content : Content }.

Definition ephemeral : CacheControl := {| cc_type := "ephemeral" |}.

(** [CLAUDE_EXAMPLES]: the priming pair of the Claude buffer. The user half is
    stored as a content block carrying [cache_control]. *)
Definition claude_priming_user : Message :=
  {| role := "user";
     content :=
       Blocks
         [ Block "text"
             (Text (CLAUDE_GENERATION_PROMPT +:+ nl +:+ nl +:+ "---" +:+ nl
                    +:+ nl +:+ CLAUDE_MODIFICATION_PROMPT))
             (Some ephemeral) ] |}.

Definition claude_priming_assistant : Message :=
  {| role := "assistant";
     content :=
       Text "I understand both React code generation and modification formats. For generation requests, I will create complete React components in JSON format. For modification requests, I will provide precise line-based changes WITHOUT old_content field. I will always start with brief analysis, then output only valid JSON without markdown." |}.

Definition CLAUDE_EXAMPLES : list Message :=
  [claude_priming_user; claude_priming_assistant].

(** [OPENAI_EXAMPLES]: the priming pair of the OpenAI buffer, both plain. *)
Definition openai_priming_user : Message :=
  {| role := "user";
     content :=
       Text (OPENAI_GENERATION_PROMPT +:+ nl +:+ nl +:+ "---" +:+ nl +:+ nl
             +:+ OPENAI_MODIFICATION_PROMPT) |}.

Definition openai_priming_assistant : Message :=
  {| role := "assistant";
     content :=
       Text "I understand both React code generation and modification formats EXACTLY. For generation, I create complete React components in JSON format. For modifications, I provide precise line-based changes WITHOUT old_content field. I ALWAYS start with brief analysis, then output ONLY valid JSON without markdown code blocks. I am EXTREMELY PRECISE with line numbers and count them EXACTLY." |}.

Definition OPENAI_EXAMPLES : list Message :=
  [openai_priming_user; openai_priming_assistant].

Inductive Provider := Claude | OpenAI.

Definition EXAMPLES (p : Provider) : list Message :=
  match p with Claude => CLAUDE_EXAMPLES | OpenAI => OPENAI_EXAMPLES end.

(** ** Python slices *)

(** The position a slice bound [i] denotes in a list of length [n]: a negative
    bound counts from the end, and every bound is clamped to [0..n]. *)
Definition py_bound (i : Z) (n : nat) : nat :=
  Z.to_nat (if (i <? 0)%Z then Z.max 0 (i + Z.of_nat n) else Z.min i (Z.of_nat n)).

(** [l[i:]] *)
Definition py_slice_from {A} (i : Z) (l : list A) : list A :=
  drop (py_bound i (length l)) l.

(** [l[:j]] *)
Definition py_slice_to {A} (j : Z) (l : list A) : list A :=
  take (py_bound j (length l)) l.

(** The last [n] entries of a list. *)
Definition last_entries {A} (n : nat) (l : list A) : list A :=
  drop (length l - n) l.

(** ** Conversation buffers *)

Record ConversationBuffer := {
  messages : list Message;
  max_messages : Z;
  examples_injected : bool
}.

Definition default_max_messages : Z := 20.

(** [__init__(self, max_messages=20)] *)
Definition new_buffer (cap : Z) : ConversationBuffer :=
  {| messages := []; max_messages := cap; examples_injected := false |}.

Definition set_messages (b : ConversationBuffer) (ms : list Message)
  : ConversationBuffer :=
  {| messages := ms;
     max_messages := max_messages b;
     examples_injected := examples_injected b |}.

Definition is_nil {A} (l : list A) : bool :=
  match l with [] => true | _ => false end.

(** [inject_examples]: only on a buffer that is empty and was never primed. *)
Definition inject_examples (p : Provider) (b : ConversationBuffer)
  : ConversationBuffer :=
  if negb (examples_injected b) && is_nil (messages b)
  then {| messages := EXAMPLES p;
          max_messages := max_messages b;
          examples_injected := true |}
  else b.

Definition role_is_user (m : Message) : bool := String.eqb (role m) "user".

(** The last statement of [_trim_if_needed]:
    [if len(messages) > 2 and messages[2]["role"] != "user":
         messages = messages[:2] + messages[3:]]. *)
Definition drop_third_unless_user (ms : list Message) : list Message :=
  match ms !! 2%nat with
  | Some m =>
      if negb (role_is_user m)
      then py_slice_to 2 ms ++ py_slice_from 3 ms
      else ms
  | None => ms
  end.

(** [_trim_if_needed] *)
Definition _trim_if_needed (b : ConversationBuffer) : ConversationBuffer :=
  if (max_messages b <? Z.of_nat (length (messages b)))%Z then
    let kept :=
      if examples_injected b then
        let examples := py_slice_to 2 (messages b) in
        let recent := py_slice_from (- (max_messages b - 2)) (messages b) in
        examples ++ recent
      else py_slice_from (- max_messages b) (messages b) in
    set_messages b (drop_third_unless_user kept)
  else b.

(** [add_message] *)
Definition add_message (r c : string) (b : ConversationBuffer)
  : ConversationBuffer :=
  _trim_if_needed
    (set_messages b (messages b ++ [ {| role := r; content := Text c |} ])).

(** [clear] *)
Definition clear (b : ConversationBuffer) : ConversationBuffer :=
  {| messages := []; max_messages := max_messages b; examples_injected := false |}.

(** The block that marks a message as the end of the cacheable prefix. *)
Definition with_cache_control (msg : Message) : Message :=
  {| role := role msg;
     content := Blocks [ Block "text" (content msg) (Some ephemeral) ] |}.

(** The loop of [get_messages_for_api] over the older messages: each is
    copied, and the last one gets its content wrapped in a cache-control
    block. *)
Definition format_cacheable (older : list Message) : list Message :=
  imap (fun i msg =>
          let formatted_msg := {| role := role msg; content := content msg |} in
          if Nat.eqb i (length older - 1) then with_cache_control msg
          else formatted_msg)
       older.

(** [ClaudeConversationBuffer.get_messages_for_api] *)
Definition claude_get_messages_for_api (b : ConversationBuffer) : list Message :=
  if (length (messages b) <=? 3)%nat then messages b
  else if examples_injected b then
    let examples := py_slice_to 2 (messages b) in
    let conversation := py_slice_from 2 (messages b) in
    if (length conversation <=? 3)%nat then messages b
    else
      let cacheable_conversation := py_slice_to (-3) conversation in
      let recent_conversation := py_slice_from (-3) conversation in
      examples ++ format_cacheable cacheable_conversation ++ recent_conversation
  else
    let messages_to_cache := py_slice_to (-3) (messages b) in
    let recent_messages := py_slice_from (-3) (messages b) in
    format_cacheable messages_to_cache ++ recent_messages.

(** [get_messages_for_api] of either buffer class; the OpenAI buffer hands
    its messages out as they are. *)
Definition get_messages_for_api (p : Provider) (b : ConversationBuffer)
  : list Message :=
  match p with
  | Claude => claude_get_messages_for_api b
  | OpenAI => messages b
  end.

(** A call on a buffer, and the buffer after a sequence of calls. *)
Inductive BufferCall :=
| InjectExamples
| AddMessage (r c : string)
| Clear.

Definition run_call (p : Provider) (b : ConversationBuffer) (c : BufferCall)
  : ConversationBuffer :=
  match c with
  | InjectExamples => inject_examples p b
  | AddMessage r c => add_message r c b
  | Clear => clear b
  end.

Definition run_calls (p : Provider) (calls : list BufferCall)
    (b : ConversationBuffer) : ConversationBuffer :=
  foldl (run_call p) b calls.

(** Whether a message carries a cache-control entry in one of its blocks. *)
Definition block_is_marked (blk : ContentBlock) : bool :=
  match blk with Block _ _ cc => bool_decide (is_Some cc) end.

Definition carries_cache_marker (m : Message) : bool :=
  match content m with
  | Text _ => false
  | Blocks bs => existsb block_is_marked bs
  end.

Definition is_plain_text (m : Message) : bool :=
  match content m with Text _ => true | Blocks _ => false end.

(** The positions of the marked messages of a sequence, counted from [i]. *)
Fixpoint marked_from (i : nat) (ms : list Message) : list nat :=
  match ms with
  | [] => []
  | m :: ms' =>
      if carries_cache_marker m then i :: marked_from (S i) ms'
      else marked_from (S i) ms'
  end.

Definition marked_positions (ms : list Message) : list nat := marked_from 0 ms.

(** ** Line-based modifications ([sort_modifications], [remove_old_content]) *)

(** One edit of the [modifications] list of a changed file. Every key is
    optional: the code reads them with [.get]. *)
Record Modification := {
  operation : option string;
  start_line : option Z;
  end_line : option Z;
  new_content : option string;
  old_content : option string
}.

(** One entry of the [changes] list: a file with its full content (code
    generation) or with its modifications (code changes). *)
Record Change := {
  file : option string;
  file_content : option string;
  modifications : option (list Modification)
}.

(** [change.get('file', '')] and [change.get('modifications', [])] *)
Definition change_file (c : Change) : string := default "" (file c).
Definition change_modifications (c : Change) : list Modification :=
  default [] (modifications c).

(** The sort key [lambda x: x.get('start_line', 0)]; a [start_line] that is
    present is an integer, as the prompts ask for. *)
Definition sort_key (m : Modification) : Z := default 0%Z (start_line m).

(** [sorted(l, key=key, reverse=True)]: a stable sort into descending key
    order. Each element is put before the first element of the sorted rest
    whose key is not greater, so it stays before the later elements of
    equal key. *)
Fixpoint insert_desc {A} (key : A -> Z) (x : A) (l : list A) : list A :=
  match l with
  | [] => [x]
  | y :: l' =>
      if (key y <=? key x)%Z then x :: y :: l' else y :: insert_desc key x l'
  end.

Definition sorted_reverse {A} (key : A -> Z) (l : list A) : list A :=
  foldr (insert_desc key) [] l.

(** [file_modifications[file_path].append(mod)] on a [defaultdict(list)]: a
    new key goes last. *)
Fixpoint dict_append (file_path : string) (m : Modification)
    (d : list (string * list Modification)) : list (string * list Modification) :=
  match d with
  | [] => [(file_path, [m])]
  | (k, ms) :: d' =>
      if String.eqb k file_path then (k, ms ++ [m]) :: d'
      else (k, ms) :: dict_append file_path m d'
  end.

(** The first loop of [sort_modifications]. *)
Definition group_by_file (changes : list Change)
  : list (string * list Modification) :=
  foldl (fun d change =>
           let file_path := change_file change in
           foldl (fun d m => dict_append file_path m d) d
                 (change_modifications change))
        [] changes.

(** [sort_modifications] *)
Definition sort_modifications (changes : list Change) : list Change :=
  map (fun entry =>
         {| file := Some entry.1;
            file_content := None;
            modifications := Some (sorted_reverse sort_key entry.2) |})
      (group_by_file changes).

(** The decoded JSON object of a reply, in the shape the prompts ask for: a
    [type] tag (a string when present), the [changes] list and a summary.
    On such a payload nothing in the [try] block of the handler raises once
    the candidate is decoded. *)
Record Payload := {
  payload_type : option string;
  payload_changes : option (list Change);
  payload_summary : option string
}.

Definition pop_old_content (m : Modification) : Modification :=
  {| operation := operation m;
     start_line := start_line m;
     end_line := end_line m;
     new_content := new_content m;
     old_content := None |}.

(** [remove_old_content] *)
Definition remove_old_content (parsed : Payload) : Payload :=
  match payload_type parsed, payload_changes parsed with
  | Some "code_changes", Some changes =>
      {| payload_type := payload_type parsed;
         payload_changes :=
           Some (map (fun change =>
                        {| file := file change;
                           file_content := file_content change;
                           modifications :=
                             map pop_old_content <$> modifications change |})
                     changes);
         payload_summary := payload_summary parsed |}
  | _, _ => parsed
  end.

(** What the statements about [sort_modifications] speak of: the
    modifications an input lists for a path, in input order, and the distinct
    elements of a list in order of first appearance. *)
Definition modifications_for (path : string) (changes : list Change)
  : list Modification :=
  flat_map (fun c => if String.eqb (change_file c) path
                     then change_modifications c else [])
           changes.

Definition first_appearances (l : list string) : list string :=
  foldl (fun seen x => if bool_decide (x ∈ seen) then seen else seen ++ [x]) [] l.

(** The paths of the input entries that list at least one modification. *)
Definition modified_paths (changes : list Change) : list string :=
  flat_map (fun c => map (fun _ => change_file c) (change_modifications c))
           changes.

(** ** String functions of the Python library used by the handler

    A text is the UTF-8 encoding of a [str]: a character below 128 is one
    byte, any other character is a sequence of bytes from 128 up, and
    positions count bytes. *)

Definition ascii_lower (c : Ascii.ascii) : Ascii.ascii :=
  let n := Ascii.nat_of_ascii c in
  if (65 <=? n)%nat && (n <=? 90)%nat then Ascii.ascii_of_nat (n + 32) else c.

(** [s.isascii()]: every character is below 128. *)
Fixpoint is_ascii (s : string) : bool :=
  match s with
  | EmptyString => true
  | String c s' => (Ascii.nat_of_ascii c <? 128)%nat && is_ascii s'
  end.

(** [s.lower()] of an ASCII text: the letters A to Z are lower-cased. *)
Fixpoint lower_ascii (s : string) : string :=
  match s with
  | EmptyString => EmptyString
  | String c s' => String (ascii_lower c) (lower_ascii s')
  end.

(** [s.lower()]. The lower case of a text with a character outside ASCII
    comes from the Unicode case tables of the interpreter, which are not
    modelled: [unicode_lower] stands for [str.lower] on such a text. *)
Definition lower (unicode_lower : string -> string) (s : string) : string :=
  if is_ascii s then lower_ascii s else unicode_lower s.

(** [sub in s] *)
Fixpoint contains (sub s : string) : bool :=
  String.prefix sub s
  || match s with
     | EmptyString => false
     | String _ s' => contains sub s'
     end.

(** [any(keyword in s for keyword in keywords)] *)
Definition any_keyword_in (keywords : list string) (s : string) : bool :=
  existsb (fun keyword => contains keyword s) keywords.

Fixpoint find_from (c : Ascii.ascii) (s : string) (i : Z) : Z :=
  match s with
  | EmptyString => (-1)%Z
  | String a s' => if Ascii.eqb a c then i else find_from c s' (i + 1)%Z
  end.

(** [s.find(c)]: the first position of [c], or -1. *)
Definition find (c : Ascii.ascii) (s : string) : Z := find_from c s 0.

Fixpoint rfind_from (c : Ascii.ascii) (s : string) (i found : Z) : Z :=
  match s with
  | EmptyString => found
  | String a s' => rfind_from c s' (i + 1)%Z (if Ascii.eqb a c then i else found)
  end.

(** [s.rfind(c)]: the last position of [c], or -1. *)
Definition rfind (c : Ascii.ascii) (s : string) : Z := rfind_from c s 0 (-1).

(** The text of a list of bytes. *)
Definition string_of_bytes (l : list nat) : string :=
  foldr (fun n s => String (Ascii.ascii_of_nat n) s) EmptyString l.

(** The characters [str.strip()] removes, each as its UTF-8 bytes: the
    ASCII white space (tab to carriage return, the separators 28 to 31 and
    the space), U+0085, U+00A0, U+1680, U+2000 to U+200A, U+2028, U+2029,
    U+202F, U+205F and U+3000. *)
Definition whitespace : list string :=
  map string_of_bytes
      [ [9]; [10]; [11]; [12]; [13]; [28]; [29]; [30]; [31]; [32];
        [194; 133]; [194; 160]; [225; 154; 128];
        [226; 128; 128]; [226; 128; 129]; [226; 128; 130]; [226; 128; 131];
        [226; 128; 132]; [226; 128; 133]; [226; 128; 134]; [226; 128; 135];
        [226; 128; 136]; [226; 128; 137]; [226; 128; 138];
        [226; 128; 168]; [226; 128; 169]; [226; 128; 175]; [226; 129; 159];
        [227; 128; 128] ].

(** [s] without the prefix [p], when [s] starts with [p]. *)
Fixpoint without_prefix (p s : string) : option string :=
  match p with
  | EmptyString => Some s
  | String a p' =>
      match s with
      | EmptyString => None
      | String b s' => if Ascii.eqb a b then without_prefix p' s' else None
      end
  end.

(** [s] without its first character, when that is one of [chars]. *)
Definition drop_char (chars : list string) (s : string) : option string :=
  head (omap (fun p => without_prefix p s) chars).

(** Characters of [chars] are dropped from the front as long as there is
    one; each is a byte at least, so the length of the text is fuel
    enough. *)
Fixpoint lstrip_chars (chars : list string) (fuel : nat) (s : string) : string :=
  match fuel with
  | 0 => s
  | S fuel' =>
      match drop_char chars s with
      | Some rest => lstrip_chars chars fuel' rest
      | None => s
      end
  end.

(** [s.lstrip()] *)
Definition lstrip (s : string) : string :=
  lstrip_chars whitespace (String.length s) s.

(** [s.rstrip()]: the same from the end, on the reversed bytes. *)
Definition rstrip (s : string) : string :=
  String.rev (lstrip_chars (map String.rev whitespace) (String.length s)
                           (String.rev s)).

(** [s.strip()] *)
Definition strip (s : string) : string := rstrip (lstrip s).

(** ** Requests, responses and sessions ([latest/app.py]) *)

Record FileContext := { fc_path : string; fc_content : string }.

#[warnings="-register-all"]
Inductive WorkspaceNode :=
| Node (node_name node_type : string) (node_children : option (list WorkspaceNode)).

Record WorkspaceTree := { tree_root : string; tree_children : list WorkspaceNode }.

Record ChatContext := {
  open_files : option (list FileContext);
  workspace_tree : option WorkspaceTree
}.

Record ChatRequest := {
  query : string;
  context : option ChatContext;
  session_id : string;
  model_name : option string
}.

(** [TokenUsage]: the unified usage record of both providers. *)
Record TokenUsage := {
  input_tokens : Z;
  output_tokens : Z;
  cache_creation_input_tokens : Z;
  cache_read_input_tokens : Z;
  cached_tokens : Z
}.

(** The [parsed] dictionary of a response: the decoded payload, or one of the
    two dictionaries built when no payload could be decoded. *)
Inductive ParsedDict :=
| ParsedPayload (p : Payload)
| ParsedConversation (summary : string)
| ParsedError (error summary : string).

Record ChatResponse := {
  resp_type : string;
  resp_parsed : ParsedDict;
  resp_session_id : string;
  resp_is_code_change : bool;
  resp_request_type : string;
  resp_workspace_tree : option WorkspaceTree;
  resp_usage : TokenUsage;
  resp_model_name : string;
  resp_provider : Provider
}.

(** What a call of the handler ends in: a response, or the [HTTPException] it
    raises. *)
Inductive Outcome :=
| Returned (r : ChatResponse)
| Raised (status_code : Z) (detail : string).

(** The module-level dictionaries [conversations] and [generated_code]. *)
Record AppState := {
  claude_conversations : gmap string ConversationBuffer;
  openai_conversations : gmap string ConversationBuffer;
  generated_code : gmap string (option string)
}.

Definition initial_state : AppState :=
  {| claude_conversations := ∅; openai_conversations := ∅; generated_code := ∅ |}.

(** [conversations[provider]] *)
Definition conversations (st : AppState) (p : Provider)
  : gmap string ConversationBuffer :=
  match p with
  | Claude => claude_conversations st
  | OpenAI => openai_conversations st
  end.

(** [conversations[provider][session_id] = b] *)
Definition set_conversation (st : AppState) (p : Provider) (sid : string)
    (b : ConversationBuffer) : AppState :=
  match p with
  | Claude =>
      {| claude_conversations := <[sid := b]> (claude_conversations st);
         openai_conversations := openai_conversations st;
         generated_code := generated_code st |}
  | OpenAI =>
      {| claude_conversations := claude_conversations st;
         openai_conversations := <[sid := b]> (openai_conversations st);
         generated_code := generated_code st |}
  end.

(** [generated_code[session_id] = v] *)
Definition set_generated_code (st : AppState) (sid : string) (v : option string)
  : AppState :=
  {| claude_conversations := claude_conversations st;
     openai_conversations := openai_conversations st;
     generated_code := <[sid := v]> (generated_code st) |}.

(** The keys of [model_mapping] of the two clients. *)
Definition claude_models : list string :=
  ["claude-3-5-sonnet"; "claude-3-7-sonnet"; "claude-sonnet-4"; "claude-sonnet-4-5"].

Definition openai_models : list string :=
  ["gpt-4o"; "gpt-4o-mini"; "o1"; "o1-mini"].

Definition is_claude_model (name : string) : bool :=
  bool_decide (name ∈ claude_models).

Definition is_openai_model (name : string) : bool :=
  bool_decide (name ∈ openai_models).

(** [determine_provider] *)
Definition determine_provider (name : string) : Provider :=
  if is_claude_model name then Claude
  else if is_openai_model name then OpenAI
  else Claude.

Definition is_empty_string (s : string) : bool :=
  match s with EmptyString => true | _ => false end.

(** [build_context_string]; [dumps_tree] is
    [json.dumps(context.workspace_tree.dict(), indent=2)]. *)
Definition build_context_string (dumps_tree : WorkspaceTree -> string)
    (ctx : option ChatContext) : string :=
  match ctx with
  | None => ""
  | Some ctx =>
      let files_part :=
        match open_files ctx with
        | Some (f :: fs) =>
            ["<open_files>"]
            ++ flat_map (fun f => ["<file path='" +:+ fc_path f +:+ "'>";
                                   fc_content f;
                                   "</file>"])
                        (f :: fs)
            ++ ["</open_files>"]
        | _ => []
        end in
      let tree_part :=
        match workspace_tree ctx with
        | Some t =>
            ["<workspace_structure>";
             "<root>" +:+ tree_root t +:+ "</root>";
             dumps_tree t;
             "</workspace_structure>"]
        | None => []
        end in
      String.concat nl (files_part ++ tree_part)
  end.

(** [is_modification_request] *)
Definition is_modification_request (unicode_lower : string -> string)
    (q : string) (has_context has_previous_code : bool) : bool :=
  let modification_keywords :=
    ["change"; "modify"; "update"; "fix"; "add"; "remove"; "delete";
     "edit"; "refactor"; "improve"; "adjust"; "alter"; "correct";
     "replace"; "swap"; "rename"; "move"; "convert"] in
  let reference_keywords :=
    ["the code"; "above"; "previous"; "existing"; "current";
     "this code"; "that function"; "the function"; "this component"] in
  let query_lower := lower unicode_lower q in
  let has_modification_keyword := any_keyword_in modification_keywords query_lower in
  let has_reference := any_keyword_in reference_keywords query_lower in
  (has_modification_keyword || has_reference) && (has_context || has_previous_code).

(** [is_likely_code_request] *)
Definition is_likely_code_request (unicode_lower : string -> string)
    (q : string) : bool :=
  let code_keywords :=
    ["create"; "generate"; "build"; "make"; "add"; "modify";
     "change"; "update"; "fix"; "remove"; "delete"; "refactor";
     "component"; "hook"; "function"; "app"; "page"; "form"] in
  any_keyword_in code_keywords (lower unicode_lower q).

Definition system_prompt_of (p : Provider) : string :=
  match p with
  | Claude => CLAUDE_SYSTEM_PROMPT
  | OpenAI => OPENAI_SYSTEM_PROMPT
  end.

(** [context.workspace_tree.dict() if context and context.workspace_tree else None] *)
Definition response_tree (ctx : option ChatContext) : option WorkspaceTree :=
  ctx ≫= workspace_tree.

(** The usage record built from the dictionary a provider call returns. *)
Definition normalize_usage (p : Provider) (usage : gmap string Z) : TokenUsage :=
  match p with
  | Claude =>
      {| input_tokens := default 0%Z (usage !! "input_tokens");
         output_tokens := default 0%Z (usage !! "output_tokens");
         cache_creation_input_tokens :=
           default 0%Z (usage !! "cache_creation_input_tokens");
         cache_read_input_tokens := default 0%Z (usage !! "cache_read_input_tokens");
         cached_tokens := 0 |}
  | OpenAI =>
      {| input_tokens := default 0%Z (usage !! "prompt_tokens");
         output_tokens := default 0%Z (usage !! "completion_tokens");
         cache_creation_input_tokens := 0;
         cache_read_input_tokens := 0;
         cached_tokens := default 0%Z (usage !! "cached_tokens") |}
  end.

Definition open_brace : Ascii.ascii := Ascii.ascii_of_nat 123.
Definition close_brace : Ascii.ascii := Ascii.ascii_of_nat 125.

(** [request.model_name or "claude-sonnet-4-5"] *)
Definition effective_model_name (req : ChatRequest) : string :=
  match model_name req with
  | Some name => if is_empty_string name then "claude-sonnet-4-5" else name
  | None => "claude-sonnet-4-5"
  end.

(** The session's buffer for a provider, created with the default capacity
    (together with an empty [generated_code] entry) when the provider has
    none for the session. *)
Definition ensure_session (st : AppState) (p : Provider) (sid : string)
  : AppState * ConversationBuffer :=
  match conversations st p !! sid with
  | Some b => (st, b)
  | None =>
      let b := new_buffer default_max_messages in
      (set_generated_code (set_conversation st p sid b) sid None, b)
  end.

(** [generated_code.get(session_id)], [None] also when the key is absent. *)
Definition previous_code (st : AppState) (sid : string) : option string :=
  mjoin (generated_code st !! sid).

(** [context is not None and (context.open_files or context.workspace_tree)] *)
Definition request_has_context (ctx : option ChatContext) : bool :=
  match ctx with
  | None => false
  | Some c =>
      match open_files c with
      | Some (_ :: _) => true
      | _ => bool_decide (is_Some (workspace_tree c))
      end
  end.

(** The text of the user turn: the context block, or else the previous code
    of a modification request, then the request itself. *)
Definition build_current_message (context_string q : string)
    (previous : option string) (is_modification has_context : bool) : string :=
  let first_part :=
    if negb (is_empty_string context_string) then
      ["<workspace_context>" +:+ nl +:+ context_string +:+ nl
       +:+ "</workspace_context>" +:+ nl]
    else
      match previous with
      | Some code =>
          if is_modification && negb has_context then
            ["<previous_code>" +:+ nl +:+ code +:+ nl +:+ "</previous_code>" +:+ nl]
          else []
      | None => []
      end in
  String.concat nl
    (first_part ++ ["<user_request>" +:+ nl +:+ q +:+ nl +:+ "</user_request>"]).

(** What [process_chat_request] has computed when it reaches the provider
    call: the state with the user turn appended to the session's buffer, and
    the arguments of the call. *)
Record Turn := {
  turn_state : AppState;
  turn_provider : Provider;
  turn_model_name : string;
  turn_buffer : ConversationBuffer;
  turn_message : string;
  turn_api_messages : list Message;
  turn_system_prompt : string
}.

Section Handler.

(** The environment of the handler: [str.lower] on a text that is not
    ASCII; [call_api] of the provider's client, which gives the reply text
    with the usage dictionary or raises; [json.loads] on the JSON candidate,
    which gives the decoded object or raises; [json.dumps] on the payload
    and on the workspace tree. A raised exception is given by its text. *)
Context (unicode_lower : string -> string).
Context (call_api : Provider -> list Message -> string -> string
                    -> string + (string * gmap string Z)).
Context (json_loads : string -> string + Payload).
Context (json_dumps : Payload -> string).
Context (dumps_tree : WorkspaceTree -> string).

(** [process_chat_request] up to the provider call. *)
Definition begin_turn (st : AppState) (req : ChatRequest) : Turn :=
  let sid := session_id req in
  let name := effective_model_name req in
  let provider := determine_provider name in
  let '(st1, conv_buffer) := ensure_session st provider sid in
  let has_previous_code := bool_decide (is_Some (previous_code st1 sid)) in
  let has_context := request_has_context (context req) in
  let conv_buffer1 :=
    if negb (examples_injected conv_buffer)
    then inject_examples provider conv_buffer else conv_buffer in
  let context_string := build_context_string dumps_tree (context req) in
  let is_modification :=
    is_modification_request unicode_lower (query req) has_context
                            has_previous_code in
  let current_message :=
    build_current_message context_string (query req) (previous_code st1 sid)
                          is_modification has_context in
  let conv_buffer2 := add_message "user" current_message conv_buffer1 in
  {| turn_state := set_conversation st1 provider sid conv_buffer2;
     turn_provider := provider;
     turn_model_name := name;
     turn_buffer := conv_buffer2;
     turn_message := current_message;
     turn_api_messages := get_messages_for_api provider conv_buffer2;
     turn_system_prompt := system_prompt_of provider |}.

(** The JSON candidate of a reply, decoded: the text from the first opening
    brace to the last closing brace. *)
Definition decode_reply (response : string) : string + Payload :=
  let json_start := find open_brace response in
  let json_end := (rfind close_brace response + 1)%Z in
  if negb (json_start =? -1)%Z && (json_start <? json_end)%Z then
    json_loads (String.substring (Z.to_nat json_start)
                                 (Z.to_nat (json_end - json_start)) response)
  else inl "No JSON found".

(** [process_chat_request] after a provider call that returned. *)
Definition finish_turn (req : ChatRequest) (t : Turn) (response : string)
    (usage : gmap string Z) : AppState * ChatResponse :=
  let sid := session_id req in
  let provider := turn_provider t in
  let conv_buffer3 := add_message "assistant" response (turn_buffer t) in
  let st3 := set_conversation (turn_state t) provider sid conv_buffer3 in
  let token_usage := normalize_usage provider usage in
  match decode_reply response with
  | inr decoded =>
      let parsed := remove_old_content decoded in
      let st4 :=
        if bool_decide (payload_type parsed = Some "code_generation")
        then set_generated_code st3 sid (Some (json_dumps parsed))
        else st3 in
      let parsed' :=
        match payload_type parsed, payload_changes parsed with
        | Some "code_changes", Some changes =>
            {| payload_type := payload_type parsed;
               payload_changes := Some (sort_modifications changes);
               payload_summary := payload_summary parsed |}
        | _, _ => parsed
        end in
      let response_type := default "code_generation" (payload_type parsed') in
      let is_code :=
        bool_decide (response_type ∈ ["code_generation"; "code_changes"]) in
      let request_type :=
        if String.eqb response_type "code_changes"
        then "modification" else "generation" in
      (st4,
       {| resp_type := response_type;
          resp_parsed := ParsedPayload parsed';
          resp_session_id := sid;
          resp_is_code_change := is_code;
          resp_request_type := request_type;
          resp_workspace_tree := response_tree (context req);
          resp_usage := token_usage;
          resp_model_name := turn_model_name t;
          resp_provider := provider |})
  | inl e =>
      if negb (is_likely_code_request unicode_lower (query req)) then
        (st3,
         {| resp_type := "conversation";
            resp_parsed := ParsedConversation (strip response);
            resp_session_id := sid;
            resp_is_code_change := false;
            resp_request_type := "conversation";
            resp_workspace_tree := response_tree (context req);
            resp_usage := token_usage;
            resp_model_name := turn_model_name t;
            resp_provider := provider |})
      else
        (st3,
         {| resp_type := "error";
            resp_parsed :=
              ParsedError
                ("Expected code but received unexpected response: " +:+ e)
                (strip response);
            resp_session_id := sid;
            resp_is_code_change := false;
            resp_request_type := "error";
            resp_workspace_tree := response_tree (context req);
            resp_usage := token_usage;
            resp_model_name := turn_model_name t;
            resp_provider := provider |})
  end.

(** The provider call of a turn: [claude_client.call_api] or
    [openai_client.call_api] on the exported messages, the system prompt and
    the model name. *)
Definition provider_call (t : Turn) : string + (string * gmap string Z) :=
  call_api (turn_provider t) (turn_api_messages t) (turn_system_prompt t)
           (turn_model_name t).

(** [process_chat_request]: the state after the call and what the call ends
    in. A provider call that raises becomes [HTTPException(500)]. *)
Definition process_chat_request (st : AppState) (req : ChatRequest)
  : AppState * Outcome :=
  let t := begin_turn st req in
  match provider_call t with
  | inl e => (turn_state t, Raised 500 ("API Error: " +:+ e))
  | inr (response, usage) =>
      let '(st', r) := finish_turn req t response usage in
      (st', Returned r)
  end.

End Handler.

(** ** Turn sequences

    The roles of a sequence of [add_message] calls are user-led when the
    first call adds a user message and every call that adds another role is
    followed by one that adds a user message. [prev_is_user] tells whether
    the call before the sequence added a user message. *)
Fixpoint turns_follow (prev_is_user : bool) (roles : list string) : bool :=
  match roles with
  | [] => true
  | r :: roles' =>
      (prev_is_user || String.eqb r "user")
      && turns_follow (String.eqb r "user") roles'
  end.

Definition user_led (roles : list string) : bool := turns_follow false roles.

(** The [add_message] calls of a list of (role, content) pairs. *)
Definition add_calls (turns : list (string * string)) : list BufferCall :=
  map (fun t => AddMessage t.1 t.2) turns.

Definition starts_with_user (ms : list Message) : bool :=
  match ms with [] => true | m :: _ => role_is_user m end.

(** Every message that is not a user message is followed by a user message,
    if by any. *)
Fixpoint alternation_ok (ms : list Message) : bool :=
  match ms with
  | [] => true
  | m :: ms' => (role_is_user m || starts_with_user ms') && alternation_ok ms'
  end.

(** The invariant of the conversation part [rest] of a primed buffer of
    capacity [cap] under user-led calls; [prev_is_user] is the role of the
    last call. A negative capacity keeps no conversation at all. *)
Definition conversation_inv (prev_is_user : bool) (cap : Z) (rest : list Message)
  : Prop :=
  if (cap <? 0)%Z then rest = []
  else alternation_ok rest = true
       /\ starts_with_user rest = true
       /\ match last rest with
          | Some m => role_is_user m = prev_is_user
          | None => prev_is_user = false
          end.

(** A stored message is plain text, or it is the priming user message of the
    Claude buffer. *)
Definition stored_ok (p : Provider) (m : Message) : Prop :=
  is_plain_text m = true \/ (p = Claude /\ m = claude_priming_user).

(** ** The grouping of [sort_modifications], pair by pair

    The flat list of (path, modification) pairs of an input, in input order,
    and the dictionary built from such a list. *)
Definition path_modifications (changes : list Change)
  : list (string * Modification) :=
  flat_map (fun c => map (fun m => (change_file c, m)) (change_modifications c))
           changes.

Definition dict_of_pairs (ps : list (string * Modification))
  : list (string * list Modification) :=
  foldl (fun d pm => dict_append pm.1 pm.2 d) [] ps.

(** [d[k]], the empty list for a key that is absent. *)
Fixpoint dict_get (k : string) (d : list (string * list Modification))
  : list Modification :=
  match d with
  | [] => []
  | (k', ms) :: d' => if String.eqb k' k then ms else dict_get k d'
  end.

(** The output entry of [sort_modifications] for a path. *)
Definition sorted_entry (changes : list Change) (path : string) : Change :=
  {| file := Some path;
     file_content := None;
     modifications :=
       Some (sorted_reverse sort_key (modifications_for path changes)) |}.

(** The example of the specification: replace 2-2, delete 7-8, insert after
    4, all on one file. *)
Definition example_replace : Modification :=
  {| operation := Some "replace"; start_line := Some 2%Z; end_line := Some 2%Z;
     new_content := Some "X"; old_content := None |}.

Definition example_delete : Modification :=
  {| operation := Some "delete"; start_line := Some 7%Z; end_line := Some 8%Z;
     new_content := None; old_content := None |}.

Definition example_insert : Modification :=
  {| operation := Some "insert"; start_line := Some 4%Z; end_line := None;
     new_content := Some "Y"; old_content := None |}.

Definition example_changes : list Change :=
  [ {| file := Some "src/App.jsx";
       file_content := None;
       modifications := Some [example_replace; example_delete; example_insert] |} ].

(** Every buffer of the session store has the default capacity: the handler
    creates buffers with [ClaudeConversationBuffer()] and
    [OpenAIConversationBuffer()] only. *)
Definition default_capacity (st : AppState) : Prop :=
  forall p sid b,
    conversations st p !! sid = Some b -> max_messages b = default_max_messages.

(** ** Environments and inputs of the examples

    A provider that answers every call with one reply and one usage
    dictionary, and one that raises on every call. *)
Definition answering (response : string) (usage : gmap string Z)
  : Provider -> list Message -> string -> string
    -> string + (string * gmap string Z) :=
  fun _ _ _ _ => inr (response, usage).

Definition failing (e : string)
  : Provider -> list Message -> string -> string
    -> string + (string * gmap string Z) :=
  fun _ _ _ _ => inl e.

(** A decoder that gives one payload for every candidate. *)
Definition decoding (p : Payload) : string -> string + Payload :=
  fun _ => inr p.

Definition no_dump {A} : A -> string := fun _ => "".

(** A reply with white space around it: a no-break space (U+00A0) and a
    space in front, an ideographic space (U+3000) and a newline at the end;
    the zero width space (U+200B) in front of the text is no white space. *)
Definition zero_width_space : string := string_of_bytes [226; 128; 139].

Definition padded_reply : string :=
  string_of_bytes [194; 160] +:+ " " +:+ zero_width_space +:+ "Hello!"
  +:+ string_of_bytes [227; 128; 128] +:+ nl.

(** The texts of the examples are ASCII, so that [str.lower] is never asked
    for a text that is not. *)
Definition no_unicode : string -> string := fun _ => "".

Definition openai_request : ChatRequest :=
  {| query := "hello"; context := None; session_id := "s1";
     model_name := Some "gpt-4o" |}.

Definition claude_request : ChatRequest :=
  {| query := "build a form"; context := None; session_id := "s1";
     model_name := None |}.

Definition openai_usage : gmap string Z :=
  {[ "prompt_tokens" := 10%Z; "completion_tokens" := 5%Z; "cached_tokens" := 7%Z ]}.

Definition untyped_payload : Payload :=
  {| payload_type := None; payload_changes := Some []; payload_summary := Some "s" |}.

Definition unknown_payload : Payload :=
  {| payload_type := Some "code_review"; payload_changes := None;
     payload_summary := Some "s" |}.

(** Replies as a provider words them: a sentence, then one JSON object. *)
Definition unknown_reply : string :=
  String.concat dq
    ["Here is the review. {"; "type"; ": "; "code_review"; ", "; "summary"; ": ";
     "s"; "}"].

Definition untyped_reply : string :=
  String.concat dq
    ["I will do it. {"; "changes"; ": [], "; "summary"; ": "; "s"; "}"].

(** ** Further definitions for the statements *)

(** The (path, modification) pairs a grouped dictionary holds. *)
Definition dict_pairs (d : list (string * list Modification))
  : list (string * Modification) :=
  flat_map (fun e => map (fun m => (e.1, m)) e.2) d.

(** No modification of a list of changes carries [old_content]. *)
Definition no_old_content (changes : list Change) : Prop :=
  Forall (fun c => Forall (fun m => old_content m = None) (change_modifications c))
         changes.

(** A modification and its copy without [old_content]; a change and its
    copy whose modifications lost [old_content]. *)
Definition stripped_of (m m' : Modification) : Prop :=
  operation m' = operation m /\ start_line m' = start_line m
  /\ end_line m' = end_line m /\ new_content m' = new_content m
  /\ old_content m' = None.

Definition change_stripped_of (c c' : Change) : Prop :=
  file c' = file c /\ file_content c' = file_content c
  /\ (modifications c' = None <-> modifications c = None)
  /\ Forall2 stripped_of (change_modifications c) (change_modifications c').

(** An exported message is the stored one, or the stored one with its
    content wrapped in a cache-control block. *)
Definition exported_as (stored exported : Message) : Prop :=
  exported = stored \/ exported = with_cache_control stored.

(** The message [add_message] stores for a (role, content) pair. *)
Definition message_of_turn (t : string * string) : Message :=
  {| role := t.1; content := Text t.2 |}.

#[global] Instance Provider_eq_dec : EqDecision Provider.
Proof. solve_decision. Defined.

(** ** Session endpoints ([latest/app.py]) *)

(** [reset_session]: the state without the session, and the message of the
    reply. Deleting an absent key changes nothing. *)
Definition reset_session (st : AppState) (sid : string) : AppState * string :=
  ({| claude_conversations := delete sid (claude_conversations st);
      openai_conversations := delete sid (openai_conversations st);
      generated_code := delete sid (generated_code st) |},
   "Session " +:+ sid +:+ " reset successfully").

(** The keys of the dictionary [conversations]. *)
Definition provider_of_key (key : string) : option Provider :=
  if String.eqb key "claude" then Some Claude
  else if String.eqb key "openai" then Some OpenAI
  else None.

(** The reply of [get_history]; the session id and the examples flag are
    left out for a session the provider has no buffer for. *)
Record History := {
  hist_messages : list Message;
  hist_session_id : option string;
  hist_has_code : bool;
  hist_examples_cached : option bool;
  hist_provider : string
}.

(** [get_history]; [None] is the [KeyError] of [conversations[provider]] for
    a provider key that is neither [claude] nor [openai]. *)
Definition get_history (st : AppState) (sid provider : string) : option History :=
  match provider_of_key provider with
  | None => None
  | Some p =>
      match conversations st p !! sid with
      | None =>
          Some {| hist_messages := []; hist_session_id := None;
                  hist_has_code := false; hist_examples_cached := None;
                  hist_provider := provider |}
      | Some conv_buffer =>
          Some {| hist_messages := messages conv_buffer;
                  hist_session_id := Some sid;
                  hist_has_code := bool_decide (is_Some (previous_code st sid));
                  hist_examples_cached := Some (examples_injected conv_buffer);
                  hist_provider := provider |}
      end
  end.

(** The reply of [get_code]. *)
Inductive CodeReply :=
| NoCode (message : string)
| Code (code sid : string).

(** [get_code] *)
Definition get_code (st : AppState) (sid : string) : CodeReply :=
  match previous_code st sid with
  | None => NoCode "No code generated yet"
  | Some code => Code code sid
  end.

(** An uploaded file: its name, and its text when it could be read and
    decoded as UTF-8. *)
Record Upload := { upload_filename : string; upload_text : option string }.

(** The workspace tree built from [json.loads(workspace_tree)]: the tree, a
    [JSONDecodeError], or another exception given by its text. *)
Inductive TreeParse :=
| TreeOk (t : WorkspaceTree)
| TreeJSONError
| TreeError (e : string).

(** The context [chat_endpoint] builds from the readable files and the
    parsed tree. *)
Definition endpoint_context (files : list Upload) (ws_tree : option WorkspaceTree)
  : option ChatContext :=
  let file_contexts :=
    omap (fun f => (fun text => {| fc_path := upload_filename f;
                                   fc_content := text |}) <$> upload_text f)
         files in
  match file_contexts, ws_tree with
  | [], None => None
  | _, _ =>
      Some {| open_files := if is_nil file_contexts then None else Some file_contexts;
              workspace_tree := ws_tree |}
  end.

(** Every stored buffer is primed: the examples flag is set and the priming
    pair of its provider stands in front. *)
Definition all_primed (st : AppState) : Prop :=
  forall p sid b,
    conversations st p !! sid = Some b ->
    examples_injected b = true /\ take 2 (messages b) = EXAMPLES p.

(** [get_model_id] of either client: [model_mapping.get(name,
    model_mapping[default_model])] with [name = model_name or default_model].
    The default of [.get] is evaluated first; [None] is its [KeyError]. *)
Definition get_model_id {V} (model_mapping : gmap string V)
    (default_model : string) (name : option string) : option V :=
  let name :=
    match name with
    | Some n => if is_empty_string n then default_model else n
    | None => default_model
    end in
  match model_mapping !! default_model with
  | None => None
  | Some fallback => Some (default fallback (model_mapping !! name))
  end.

(** [OpenAIClient.model_mapping] *)
Definition openai_model_mapping : gmap string string :=
  {[ "gpt-4o" := "gpt-4o-2024-11-20";
     "gpt-4o-mini" := "gpt-4o-mini-2024-07-18";
     "o1" := "o1-2024-12-17";
     "o1-mini" := "o1-mini-2024-09-12" ]}.

(** Whether a character occurs in a text. *)
Fixpoint occurs (c : Ascii.ascii) (s : string) : bool :=
  match s with
  | EmptyString => false
  | String a s' => Ascii.eqb a c || occurs c s'
  end.

(** The key of a provider in [conversations], which is also the [provider]
    string of a response. *)
Definition provider_key (p : Provider) : string :=
  match p with Claude => "claude" | OpenAI => "openai" end.

(** Two states agree on every buffer but the one of provider [p] for session
    [sid], and on the stored code of every session but [sid]. *)
Definition same_elsewhere (p : Provider) (sid : string) (st st' : AppState)
  : Prop :=
  (forall p' sid', p' <> p \/ sid' <> sid ->
                   conversations st' p' !! sid' = conversations st p' !! sid')
  /\ (forall sid', sid' <> sid ->
                   generated_code st' !! sid' = generated_code st !! sid').

(** The request of a turn in its blocks. *)
Definition context_block (context_string : string) : string :=
  "<workspace_context>" +:+ nl +:+ context_string +:+ nl
  +:+ "</workspace_context>" +:+ nl.

Definition previous_code_block (code : string) : string :=
  "<previous_code>" +:+ nl +:+ code +:+ nl +:+ "</previous_code>" +:+ nl.

Definition user_request_block (q : string) : string :=
  "<user_request>" +:+ nl +:+ q +:+ nl +:+ "</user_request>".

(** Inputs of the examples: a [code_changes] payload with one legacy
    [old_content], and a [code_generation] payload. *)
Definition legacy_replace : Modification :=
  {| operation := Some "replace"; start_line := Some 2%Z; end_line := Some 2%Z;
     new_content := Some "X"; old_content := Some "W" |}.

Definition changes_payload : Payload :=
  {| payload_type := Some "code_changes";
     payload_changes :=
       Some [ {| file := Some "src/App.jsx"; file_content := None;
                 modifications := Some [legacy_replace; example_delete] |} ];
     payload_summary := Some "s" |}.

Definition generation_payload : Payload :=
  {| payload_type := Some "code_generation";
     payload_changes :=
       Some [ {| file := Some "src/App.jsx"; file_content := Some "export {}";
                 modifications := None |} ];
     payload_summary := Some "s" |}.

Section Endpoint.
Context (unicode_lower : string -> string).
Context (call_api : Provider -> list Message -> string -> string
                    -> string + (string * gmap string Z)).
Context (json_loads : string -> string + Payload).
Context (json_dumps : Payload -> string).
Context (dumps_tree : WorkspaceTree -> string).
Context (parse_tree : string -> TreeParse).

(** [chat_endpoint]: the uploads that cannot be read or decoded are skipped,
    a workspace tree that does not parse ends the call, and the request
    built from the rest goes to [process_chat_request]. *)
Definition chat_endpoint (st : AppState) (q sid : string) (model : option string)
    (workspace_tree_json : option string) (files : list Upload)
  : AppState * Outcome :=
  let parsed :=
    match workspace_tree_json with
    | None => inr None
    | Some text =>
        if is_empty_string text then inr None
        else match parse_tree text with
             | TreeOk t => inr (Some t)
             | TreeJSONError => inl (400%Z, "Invalid workspace_tree JSON")
             | TreeError e => inl (500%Z, e)
             end
    end in
  match parsed with
  | inl (status, detail) => (st, Raised status detail)
  | inr ws_tree =>
      process_chat_request unicode_lower call_api json_loads json_dumps dumps_tree st
        {| query := q;
           context := endpoint_context files ws_tree;
           session_id := sid;
           model_name := model |}
  end.

End Endpoint.

(** Inputs of the examples of the handler and the endpoints. *)
Definition echo_candidate : string -> string + Payload := fun s => inl s.

Definition file_request : ChatRequest :=
  {| query := "rename the hook";
     context :=
       Some {| open_files :=
                 Some [ {| fc_path := "src/App.jsx"; fc_content := "export {}" |} ];
               workspace_tree := None |};
     session_id := "s1";
     model_name := None |}.

Definition fix_request : ChatRequest :=
  {| query := "Fix the form"; context := None; session_id := "s1";
     model_name := None |}.

(** The state after a generation turn of session [s1] with Claude. *)
Definition state_with_code : AppState :=
  (process_chat_request no_unicode (answering "Done. {}" ∅) (decoding generation_payload)
                        (fun _ => "dump") no_dump initial_state claude_request).1.

Definition binary_upload : Upload :=
  {| upload_filename := "logo.png"; upload_text := None |}.

Definition text_upload : Upload :=
  {| upload_filename := "src/App.jsx"; upload_text := Some "export {}" |}.

Definition rejecting_tree : string -> TreeParse := fun _ => TreeJSONError.


(** * Properties *)

(** ** Python slices *)

Section Slices.
Context {A : Type}.
Implicit Types l : list A.

Lemma py_bound_le i n : py_bound i n <= n.
Proof. unfold py_bound. destruct (i <? 0)%Z eqn:E; lia. Qed.

Lemma py_bound_nonneg i n : (0 <= i)%Z -> py_bound i n = Z.to_nat i `min` n.
Proof. intros Hi. unfold py_bound. destruct (i <? 0)%Z eqn:E; lia. Qed.

Lemma py_bound_neg i n : (i < 0)%Z -> py_bound i n = n - Z.to_nat (- i).
Proof. intros Hi. unfold py_bound. destruct (i <? 0)%Z eqn:E; lia. Qed.

(** [l[:2]] and [l[3:]] are the first two elements and what follows the
    third. *)
Lemma py_slice_to_nat (k : nat) l : py_slice_to (Z.of_nat k) l = take k l.
Proof.
  unfold py_slice_to. rewrite py_bound_nonneg by lia.
  rewrite Nat2Z.id. destruct (decide (k <= length l)).
  - by rewrite Nat.min_l.
  - rewrite Nat.min_r by lia. rewrite !take_ge; [done | lia | lia].
Qed.

Lemma py_slice_from_nat (k : nat) l : py_slice_from (Z.of_nat k) l = drop k l.
Proof.
  unfold py_slice_from. rewrite py_bound_nonneg by lia.
  rewrite Nat2Z.id. destruct (decide (k <= length l)).
  - by rewrite Nat.min_l.
  - rewrite Nat.min_r by lia. rewrite !drop_ge; [done | lia | lia].
Qed.

(** [l[-k:]] for a positive [k] is the last [k] elements. *)
Lemma py_slice_from_neg (k : Z) l :
  (0 < k)%Z -> py_slice_from (- k) l = drop (length l - Z.to_nat k) l.
Proof.
  intros Hk. unfold py_slice_from. rewrite py_bound_neg by lia.
  by rewrite Z.opp_involutive.
Qed.

Lemma py_slice_to_neg (k : Z) l :
  (0 < k)%Z -> py_slice_to (- k) l = take (length l - Z.to_nat k) l.
Proof.
  intros Hk. unfold py_slice_to. rewrite py_bound_neg by lia.
  by rewrite Z.opp_involutive.
Qed.

Lemma py_slice_from_length i l :
  length (py_slice_from i l) = length l - py_bound i (length l).
Proof. unfold py_slice_from. by rewrite length_drop. Qed.

(** A slice [l[i:]] is a suffix of [l]. *)
Lemma py_slice_from_suffix i l : py_slice_from i l `suffix_of` l.
Proof. apply suffix_drop. Qed.

End Slices.

(** ** The conversation buffer *)

Lemma EXAMPLES_length p : length (EXAMPLES p) = 2.
Proof. by destruct p. Qed.

Lemma drop_third_unless_user_length ms :
  length (drop_third_unless_user ms) <= length ms.
Proof.
  unfold drop_third_unless_user.
  destruct (ms !! 2) as [m|] eqn:E; [|done].
  destruct (negb (role_is_user m)); [|done].
  change 2%Z with (Z.of_nat 2). change 3%Z with (Z.of_nat 3).
  rewrite py_slice_to_nat, py_slice_from_nat.
  rewrite length_app, length_take, length_drop. lia.
Qed.

Lemma _trim_if_needed_max b : max_messages (_trim_if_needed b) = max_messages b.
Proof. unfold _trim_if_needed. by destruct (_ <? _)%Z. Qed.

Lemma _trim_if_needed_injected b :
  examples_injected (_trim_if_needed b) = examples_injected b.
Proof. unfold _trim_if_needed. by destruct (_ <? _)%Z. Qed.

Lemma add_message_max r c b : max_messages (add_message r c b) = max_messages b.
Proof. unfold add_message. by rewrite _trim_if_needed_max. Qed.

Lemma add_message_injected r c b :
  examples_injected (add_message r c b) = examples_injected b.
Proof. unfold add_message. by rewrite _trim_if_needed_injected. Qed.

Lemma run_call_max p b c : max_messages (run_call p b c) = max_messages b.
Proof.
  destruct c; simpl; [|apply add_message_max|done].
  unfold inject_examples. by destruct (_ && _).
Qed.

Lemma run_calls_cons p c calls b :
  run_calls p (c :: calls) b = run_calls p calls (run_call p b c).
Proof. done. Qed.

Lemma run_calls_max p calls b :
  max_messages (run_calls p calls b) = max_messages b.
Proof.
  revert b. induction calls as [|c calls IH]; intros b; [done|].
  rewrite run_calls_cons, IH. apply run_call_max.
Qed.

(** With a capacity of three or more, a trim leaves at most [max_messages]
    messages, whatever the buffer held. *)
Lemma _trim_if_needed_length b :
  (3 <= max_messages b)%Z ->
  (Z.of_nat (length (messages (_trim_if_needed b))) <= max_messages b)%Z.
Proof.
  intros Hcap. unfold _trim_if_needed.
  destruct (max_messages b <? _)%Z eqn:E; [|lia].
  simpl. etrans; [apply inj_le, drop_third_unless_user_length|].
  destruct (examples_injected b).
  - change 2%Z with (Z.of_nat 2). rewrite py_slice_to_nat.
    rewrite length_app, length_take, py_slice_from_length.
    rewrite py_bound_neg by lia. lia.
  - rewrite py_slice_from_length, py_bound_neg by lia. lia.
Qed.

Lemma run_call_length p b c :
  (3 <= max_messages b)%Z ->
  (Z.of_nat (length (messages b)) <= max_messages b)%Z ->
  (Z.of_nat (length (messages (run_call p b c))) <= max_messages b)%Z.
Proof.
  intros Hcap Hlen. destruct c; simpl.
  - unfold inject_examples. destruct (_ && _); [|done].
    simpl. rewrite EXAMPLES_length. lia.
  - unfold add_message.
    by apply (_trim_if_needed_length (set_messages b _)).
  - lia.
Qed.

Lemma run_calls_length p calls b :
  (3 <= max_messages b)%Z ->
  (Z.of_nat (length (messages b)) <= max_messages b)%Z ->
  (Z.of_nat (length (messages (run_calls p calls b))) <= max_messages b)%Z.
Proof.
  revert b. induction calls as [|c calls IH]; intros b Hcap Hlen; [done|].
  rewrite run_calls_cons. rewrite <- (run_call_max p b c).
  apply IH; rewrite run_call_max; [done|]. by apply run_call_length.
Qed.

(** C3 (as stated) fails for a small capacity: with capacity 2 the slice
    [messages[-(max_messages - 2):]] is [messages[-0:]], the whole list, and
    the primed buffer holds five messages after one [add_message]. *)
Lemma capacity_exceeded_at_two :
  run_calls Claude [InjectExamples; AddMessage "user" "hi"] (new_buffer 2)
  = {| messages := CLAUDE_EXAMPLES ++ CLAUDE_EXAMPLES
                   ++ [ {| role := "user"; content := Text "hi" |} ];
       max_messages := 2;
       examples_injected := true |}
  /\ (max_messages (run_calls Claude [InjectExamples; AddMessage "user" "hi"]
                              (new_buffer 2))
      < Z.of_nat (length (messages
           (run_calls Claude [InjectExamples; AddMessage "user" "hi"]
                      (new_buffer 2)))))%Z.
Proof. split; [reflexivity | vm_compute; reflexivity]. Qed.

(** C3 (amended): on a buffer of either provider created with a capacity of
    at least 3 (the default is 20), after any sequence of [inject_examples],
    [add_message] and [clear] calls the stored list holds at most
    [max_messages] messages. *)
Theorem capacity_invariant (p : Provider) (cap : Z) (calls : list BufferCall) :
  (3 <= cap)%Z ->
  (Z.of_nat (length (messages (run_calls p calls (new_buffer cap)))) <= cap)%Z.
Proof.
  intros Hcap.
  apply (run_calls_length p calls (new_buffer cap)); simpl; lia.
Qed.

Lemma capacity_invariant_witness :
  (3 <= default_max_messages)%Z
  /\ (Z.of_nat (length (messages
        (run_calls OpenAI
           [InjectExamples; AddMessage "user" "a"; AddMessage "assistant" "b"]
           (new_buffer default_max_messages))))
      <= default_max_messages)%Z.
Proof.
  split; [unfold default_max_messages; lia|].
  apply (capacity_invariant OpenAI default_max_messages); unfold default_max_messages; lia.
Defined.

Lemma role_is_user_decide m :
  role_is_user m = bool_decide (role m = "user").
Proof.
  unfold role_is_user. destruct (String.eqb_spec (role m) "user").
  - by rewrite bool_decide_eq_true_2.
  - by rewrite bool_decide_eq_false_2.
Qed.

Lemma drop_third_unless_user_eq ms :
  drop_third_unless_user ms =
  match ms !! 2 with
  | Some m => if decide (role m = "user") then ms else take 2 ms ++ drop 3 ms
  | None => ms
  end.
Proof.
  unfold drop_third_unless_user. destruct (ms !! 2) as [m|]; [|done].
  rewrite role_is_user_decide.
  change 2%Z with (Z.of_nat 2). change 3%Z with (Z.of_nat 3).
  rewrite py_slice_to_nat, py_slice_from_nat.
  destruct (decide (role m = "user")) as [Hu|Hu].
  - by rewrite bool_decide_eq_true_2.
  - by rewrite bool_decide_eq_false_2.
Qed.

(** C9: on a buffer that was never primed, an [add_message] that exceeds the
    capacity keeps the last [max_messages] entries and then applies the role
    check to them all the same: when the entry at index 2 of the kept ones is
    not a user message it is dropped as well, and the call ends with
    [max_messages - 1] messages and no examples. *)
Theorem trim_without_examples (r c : string) (b : ConversationBuffer) :
  examples_injected b = false ->
  (0 < max_messages b)%Z ->
  (max_messages b < Z.of_nat (length (messages b)) + 1)%Z ->
  let kept :=
    last_entries (Z.to_nat (max_messages b))
                 (messages b ++ [ {| role := r; content := Text c |} ]) in
  let b' := add_message r c b in
  examples_injected b' = false
  /\ match kept !! 2 with
     | Some m =>
         if decide (role m = "user") then messages b' = kept
         else messages b' = take 2 kept ++ drop 3 kept
              /\ Z.of_nat (length (messages b')) = (max_messages b - 1)%Z
     | None => messages b' = kept
     end.
Proof.
  intros Hinj Hpos Hlen kept b'.
  split; [subst b'; by rewrite add_message_injected|].
  assert (Hb' : messages b' = drop_third_unless_user kept).
  { subst b' kept. unfold add_message, _trim_if_needed. simpl.
    rewrite length_app. simpl.
    destruct (max_messages b <? _)%Z eqn:E; [|apply Z.ltb_ge in E; lia].
    rewrite Hinj. simpl. rewrite py_slice_from_neg by lia.
    unfold last_entries. by rewrite length_app. }
  rewrite Hb', drop_third_unless_user_eq.
  destruct (kept !! 2) as [m|] eqn:E; [|done].
  destruct (decide (role m = "user")); [done|]. split; [done|].
  apply lookup_lt_Some in E.
  assert (length kept = Z.to_nat (max_messages b)) as Hk.
  { subst kept. unfold last_entries. rewrite length_drop, length_app. simpl. lia. }
  rewrite length_app, length_take, length_drop. lia.
Qed.

Lemma trim_without_examples_witness :
  let b := {| messages := [ {| role := "user"; content := Text "q1" |};
                            {| role := "assistant"; content := Text "a1" |};
                            {| role := "user"; content := Text "q2" |} ];
              max_messages := 3;
              examples_injected := false |} in
  messages (add_message "assistant" "a2" b)
  = [ {| role := "assistant"; content := Text "a1" |};
      {| role := "user"; content := Text "q2" |} ]
  /\ examples_injected (add_message "assistant" "a2" b) = false.
Proof.
  intros b.
  destruct (trim_without_examples "assistant" "a2" b) as [Hinj Hmsgs];
    [reflexivity | simpl; lia | simpl; lia |].
  split; [|exact Hinj].
  vm_compute in Hmsgs. destruct Hmsgs as [Hmsgs _]. exact Hmsgs.
Defined.

(** *** The primed buffer under [add_message] *)

Lemma alternation_ok_snoc rest m :
  alternation_ok rest = true ->
  match last rest with
  | Some l => role_is_user l || role_is_user m = true
  | None => True
  end ->
  alternation_ok (rest ++ [m]) = true.
Proof.
  induction rest as [|x rest IH]; intros Halt Hlast; [simpl; by rewrite orb_true_r|].
  simpl in Halt. apply andb_true_iff in Halt as [Hx Halt].
  destruct rest as [|y rest].
  - simpl in *. by rewrite Hlast, orb_true_r.
  - rewrite last_cons_cons in Hlast.
    change ((x :: y :: rest) ++ [m]) with (x :: (y :: rest) ++ [m]).
    change (alternation_ok (x :: (y :: rest) ++ [m]))
      with ((role_is_user x || starts_with_user ((y :: rest) ++ [m]))
            && alternation_ok ((y :: rest) ++ [m])).
    rewrite IH by done. simpl in Hx |- *. by rewrite Hx.
Qed.

Lemma alternation_ok_drop k ms :
  alternation_ok ms = true -> alternation_ok (drop k ms) = true.
Proof.
  revert ms. induction k as [|k IH]; intros ms H; [by rewrite drop_0|].
  destruct ms as [|m ms]; [done|]. simpl in H.
  apply andb_true_iff in H as [_ H]. by apply IH.
Qed.

Lemma last_drop_lt {A} k (l : list A) :
  k < length l -> last (drop k l) = last l.
Proof.
  intros Hk. rewrite !last_lookup, lookup_drop, length_drop. f_equal. lia.
Qed.

Lemma starts_with_user_snoc rest m :
  starts_with_user rest = true ->
  (rest = [] -> role_is_user m = true) ->
  starts_with_user (rest ++ [m]) = true.
Proof. destruct rest; simpl; auto. Qed.

Lemma conversation_inv_neg prev cap rest :
  (cap < 0)%Z -> conversation_inv prev cap rest <-> rest = [].
Proof.
  intros H. unfold conversation_inv. by rewrite (proj2 (Z.ltb_lt _ _) H).
Qed.

Lemma conversation_inv_nonneg prev cap rest :
  (0 <= cap)%Z ->
  conversation_inv prev cap rest <->
  alternation_ok rest = true
  /\ starts_with_user rest = true
  /\ match last rest with
     | Some m => role_is_user m = prev
     | None => prev = false
     end.
Proof.
  intros H. unfold conversation_inv. by rewrite (proj2 (Z.ltb_ge _ _) H).
Qed.

(** One [add_message] on a primed buffer [e0 :: e1 :: rest]: the pair stays
    in front, and the invariant of the conversation part is kept when the
    call respects the turn order. *)
Lemma add_message_primed r c cap e0 e1 rest :
  exists rest',
    messages (add_message r c {| messages := e0 :: e1 :: rest;
                                 max_messages := cap;
                                 examples_injected := true |})
    = e0 :: e1 :: rest'
    /\ forall prev,
        role_is_user e0 = true ->
        conversation_inv prev cap rest ->
        prev || String.eqb r "user" = true ->
        conversation_inv (String.eqb r "user") cap rest'.
Proof.
  remember {| role := r; content := Text c |} as m eqn:Em.
  assert (Hm : role_is_user m = String.eqb r "user") by (by subst m).
  remember (rest ++ [m]) as rest1 eqn:Erest1.
  assert (Hrest1 :
    forall prev, conversation_inv prev cap rest ->
                 (0 <= cap)%Z ->
                 prev || String.eqb r "user" = true ->
                 alternation_ok rest1 = true /\ starts_with_user rest1 = true).
  { intros prev Hinv Hcap Hturn. apply conversation_inv_nonneg in Hinv; [|done].
    destruct Hinv as (Halt & Hstart & Hlast).
    subst rest1. split.
    - apply alternation_ok_snoc; [done|].
      destruct (last rest) as [l|]; [|done]. rewrite Hlast, Hm. exact Hturn.
    - apply starts_with_user_snoc; [done|]. intros ->. simpl in Hlast.
      subst prev. rewrite Hm. exact Hturn. }
  assert (Hlast1 : last (e0 :: e1 :: rest1) = Some m).
  { subst rest1. change (e0 :: e1 :: rest ++ [m]) with ([e0; e1] ++ rest ++ [m]).
    by rewrite !app_assoc, last_snoc. }
  assert (Hlen1 : length (e0 :: e1 :: rest1) = 3 + length rest).
  { subst rest1. simpl. rewrite length_app. simpl. lia. }
  assert (Hlen1' : S (S (length rest1)) = 3 + length rest) by exact Hlen1.
  unfold add_message, _trim_if_needed. simpl messages. simpl max_messages.
  simpl examples_injected. rewrite <- Em, <- Erest1.
  rewrite Hlen1'.
  destruct (cap <? Z.of_nat (3 + length rest))%Z eqn:Etrim; simpl messages.
  2:{ (* no trim *)
    exists rest1. split; [done|]. intros prev He0 Hinv Hturn.
    apply Z.ltb_ge in Etrim.
    assert (Hcap : (0 <= cap)%Z) by lia.
    destruct (Hrest1 prev Hinv Hcap Hturn) as [Halt1 Hstart1].
    apply conversation_inv_nonneg; [done|]. split_and!; [done | done |].
    subst rest1. by rewrite last_snoc, Hm. }
  (* trim *)
  apply Z.ltb_lt in Etrim.
  change 2%Z with (Z.of_nat 2) at 1. rewrite py_slice_to_nat.
  change (take 2 (e0 :: e1 :: rest1)) with [e0; e1].
  remember (py_slice_from (- (cap - 2)) (e0 :: e1 :: rest1)) as suf eqn:Esuf.
  assert (Hsuf_len : length suf = 3 + length rest - py_bound (- (cap - 2)) (3 + length rest)).
  { subst suf. by rewrite py_slice_from_length, Hlen1. }
  rewrite drop_third_unless_user_eq.
  change (([e0; e1] ++ suf) !! 2) with (suf !! 0).
  change (take 2 ([e0; e1] ++ suf)) with [e0; e1].
  change (drop 3 ([e0; e1] ++ suf)) with (drop 1 suf).
  destruct suf as [|h suf'].
  - (* nothing kept: only for a negative capacity *)
    exists []. split; [done|]. intros prev He0 Hinv Hturn.
    destruct (decide (cap < 0)%Z) as [Hneg|Hcap];
      [by apply conversation_inv_neg|]. exfalso.
    simpl length in Hsuf_len. unfold py_bound in Hsuf_len.
    destruct (- (cap - 2) <? 0)%Z eqn:E2; lia.
  - change ((h :: suf') !! 0) with (Some h).
    change (drop 1 (h :: suf')) with suf'.
    exists (if decide (role h = "user") then h :: suf' else suf').
    split; [by destruct (decide _)|].
    intros prev He0 Hinv Hturn.
    destruct (decide (cap < 0)%Z) as [Hneg|Hcap].
    + (* a negative capacity keeps nothing *)
      exfalso. apply conversation_inv_neg in Hinv; [|done]. subst rest.
      simpl length in Hsuf_len. rewrite py_bound_nonneg in Hsuf_len by lia. lia.
    + apply Z.nlt_ge in Hcap.
      destruct (Hrest1 prev Hinv Hcap Hturn) as [Halt1 Hstart1].
      assert (Hall : alternation_ok (e0 :: e1 :: rest1) = true).
      { simpl. rewrite He0, Hstart1, Halt1. simpl. by rewrite orb_true_r. }
      assert (Hsuf_alt : alternation_ok (h :: suf') = true).
      { rewrite Esuf. by apply alternation_ok_drop. }
      assert (Hsuf_last : last (h :: suf') = Some m).
      { rewrite Esuf. unfold py_slice_from. rewrite last_drop_lt; [done|].
        rewrite Hlen1. unfold py_bound.
        destruct (- (cap - 2) <? 0)%Z eqn:E2; lia. }
      apply conversation_inv_nonneg; [done|].
      destruct (decide (role h = "user")) as [Hu|Hu].
      * split_and!; [done | |by rewrite Hsuf_last, Hm].
        simpl. rewrite role_is_user_decide. by apply bool_decide_eq_true_2.
      * assert (Eh : role_is_user h = false).
        { rewrite role_is_user_decide. by apply bool_decide_eq_false_2. }
        simpl in Hsuf_alt. rewrite Eh in Hsuf_alt. simpl in Hsuf_alt.
        apply andb_true_iff in Hsuf_alt as [Hs Ha]. split_and!; [done | done |].
        destruct suf' as [|x suf'].
        -- simpl in Hsuf_last. injection Hsuf_last as ->. simpl. by rewrite <- Hm.
        -- rewrite last_cons_cons in Hsuf_last. by rewrite Hsuf_last, Hm.
Qed.

Lemma add_message_primed_buffer r c b e0 e1 rest :
  messages b = e0 :: e1 :: rest ->
  examples_injected b = true ->
  exists rest',
    messages (add_message r c b) = e0 :: e1 :: rest'
    /\ forall prev,
        role_is_user e0 = true ->
        conversation_inv prev (max_messages b) rest ->
        prev || String.eqb r "user" = true ->
        conversation_inv (String.eqb r "user") (max_messages b) rest'.
Proof.
  destruct b as [ms cap inj]. simpl. intros -> ->.
  apply add_message_primed.
Qed.

Lemma add_calls_primed p turns : forall b e0 e1 rest,
  messages b = e0 :: e1 :: rest ->
  examples_injected b = true ->
  exists rest',
    messages (run_calls p (add_calls turns) b) = e0 :: e1 :: rest'
    /\ forall prev,
        role_is_user e0 = true ->
        conversation_inv prev (max_messages b) rest ->
        turns_follow prev turns.*1 = true ->
        exists prev', conversation_inv prev' (max_messages b) rest'.
Proof.
  induction turns as [|[r c] turns IH]; intros b e0 e1 rest Hms Hinj.
  - exists rest. split; [done|]. intros prev _ Hinv _. by exists prev.
  - destruct (add_message_primed_buffer r c b e0 e1 rest Hms Hinj)
      as (rest1 & Hms1 & Hstep).
    destruct (IH (add_message r c b) e0 e1 rest1 Hms1) as (rest' & Hms' & Hrest).
    { by rewrite add_message_injected. }
    exists rest'. split; [exact Hms'|].
    intros prev He0 Hinv Hturns. simpl in Hturns.
    apply andb_true_iff in Hturns as [Hturn Hturns].
    rewrite add_message_max in Hrest.
    apply (Hrest (String.eqb r "user")); [done| |done].
    by apply (Hstep prev).
Qed.

Lemma add_calls_injected p turns b :
  examples_injected (run_calls p (add_calls turns) b) = examples_injected b.
Proof.
  revert b. induction turns as [|[r c] turns IH]; intros b; [done|].
  change (add_calls ((r, c) :: turns)) with (AddMessage r c :: add_calls turns).
  rewrite run_calls_cons, IH. apply add_message_injected.
Qed.

(** C2 (as stated) fails when a turn order is not kept: an assistant message
    added first to a primed buffer stands at index 2, and no trim happens. *)
Lemma alternation_fails_on_assistant_first :
  let b := run_calls Claude (add_calls [("assistant", "hi")])
                     (inject_examples Claude (new_buffer default_max_messages)) in
  examples_injected b = true
  /\ exists m, messages b !! 2 = Some m /\ role m <> "user".
Proof.
  split; [reflexivity|].
  exists {| role := "assistant"; content := Text "hi" |}.
  split; [reflexivity | discriminate].
Qed.

(** C2 (amended): on a primed Claude buffer of any capacity, after every
    sequence of [add_message] calls the examples flag is still set and
    [messages[0]], [messages[1]] are exactly the priming pair; and when the
    calls are user-led (the first adds a user message and every call that
    adds another role is followed by one adding a user message),
    [messages[2]], if present, has role user. *)
Theorem primed_pair_and_alternation (cap : Z) (turns : list (string * string)) :
  let b := run_calls Claude (add_calls turns)
                     (inject_examples Claude (new_buffer cap)) in
  examples_injected b = true
  /\ take 2 (messages b) = CLAUDE_EXAMPLES
  /\ (user_led turns.*1 = true ->
      forall m, messages b !! 2 = Some m -> role m = "user").
Proof.
  intros b.
  set (b0 := inject_examples Claude (new_buffer cap)) in *.
  assert (Hms0 : messages b0 = claude_priming_user :: claude_priming_assistant :: [])
    by done.
  assert (Hinj0 : examples_injected b0 = true) by done.
  assert (Hcap0 : max_messages b0 = cap) by done.
  destruct (add_calls_primed Claude turns b0 _ _ _ Hms0 Hinj0)
    as (rest' & Hms & Hinv).
  fold b in Hms. split_and!.
  - subst b. by rewrite add_calls_injected.
  - by rewrite Hms.
  - intros Hled m Hm. rewrite Hcap0 in Hinv.
    destruct (Hinv false) as [prev' Hinv']; [done | | done |].
    { unfold conversation_inv. by destruct (cap <? 0)%Z. }
    rewrite Hms in Hm. simpl in Hm.
    destruct (decide (cap < 0)%Z) as [Hneg|Hpos].
    + apply conversation_inv_neg in Hinv'; [|done]. by subst rest'.
    + apply conversation_inv_nonneg in Hinv'; [|lia].
      destruct Hinv' as (_ & Hstart & _).
      destruct rest' as [|x rest']; [done|]. simpl in Hm, Hstart.
      injection Hm as ->. by apply String.eqb_eq.
Qed.

Lemma primed_pair_and_alternation_witness :
  user_led ["user"; "assistant"; "user"] = true
  /\ forall m,
       messages (run_calls Claude
                   (add_calls [("user", "q1"); ("assistant", "a1"); ("user", "q2")])
                   (inject_examples Claude (new_buffer 3)))
       !! 2 = Some m ->
       role m = "user".
Proof.
  split; [reflexivity|].
  apply (primed_pair_and_alternation 3
           [("user", "q1"); ("assistant", "a1"); ("user", "q2")]).
  reflexivity.
Defined.

(** *** What the store holds *)

Lemma drop_third_unless_user_Forall (P : Message -> Prop) ms :
  Forall P ms -> Forall P (drop_third_unless_user ms).
Proof.
  intros H. rewrite drop_third_unless_user_eq.
  destruct (ms !! 2) as [m|]; [|done]. destruct (decide _); [done|].
  apply Forall_app. split; [by apply Forall_take | by apply Forall_drop].
Qed.

Lemma _trim_if_needed_Forall (P : Message -> Prop) b :
  Forall P (messages b) -> Forall P (messages (_trim_if_needed b)).
Proof.
  intros H. unfold _trim_if_needed. destruct (_ <? _)%Z; [|done]. simpl.
  apply drop_third_unless_user_Forall. destruct (examples_injected b).
  - apply Forall_app. split; [by apply Forall_take | by apply Forall_drop].
  - by apply Forall_drop.
Qed.

Lemma run_call_stored_ok p b c :
  Forall (stored_ok p) (messages b) ->
  Forall (stored_ok p) (messages (run_call p b c)).
Proof.
  intros H. destruct c as [|r c|]; simpl.
  - unfold inject_examples. destruct (_ && _); [|done]. simpl.
    destruct p.
    + apply Forall_cons. split; [by right|].
      apply Forall_cons. split; [by left | constructor].
    + apply Forall_cons. split; [by left|].
      apply Forall_cons. split; [by left | constructor].
  - unfold add_message. apply _trim_if_needed_Forall. simpl.
    apply Forall_app. split; [done|].
    apply Forall_cons. split; [by left | constructor].
  - constructor.
Qed.

(** C8 (as stated) fails for the messages placed by [inject_examples] on a
    Claude buffer: the first stored entry is a content block with a
    [cache_control] entry. *)
Lemma claude_priming_user_is_stored_marked :
  messages (inject_examples Claude (new_buffer default_max_messages)) !! 0
  = Some claude_priming_user
  /\ is_plain_text claude_priming_user = false
  /\ carries_cache_marker claude_priming_user = true.
Proof. split_and!; reflexivity. Qed.

(** C8 (amended): in a buffer of either provider, after any sequence of
    [inject_examples], [add_message] and [clear] calls, every stored entry is
    plain text, except the priming user message of the Claude buffer, which
    [inject_examples] stores as a content block with its [cache_control]
    entry; [add_message] stores plain text only. *)
Theorem stored_entries_plain_or_priming (p : Provider) (cap : Z)
    (calls : list BufferCall) :
  Forall (fun m => is_plain_text m = true
                   \/ (p = Claude /\ m = claude_priming_user))
         (messages (run_calls p calls (new_buffer cap))).
Proof.
  change (Forall (stored_ok p) (messages (run_calls p calls (new_buffer cap)))).
  assert (H0 : Forall (stored_ok p) (messages (new_buffer cap))) by constructor.
  revert H0. generalize (new_buffer cap).
  induction calls as [|c calls IH]; intros b Hb; [done|].
  rewrite run_calls_cons. by apply IH, run_call_stored_ok.
Qed.

(** *** The export of the Claude buffer *)

Lemma imap_format_below n k (l : list Message) :
  k + length l <= n ->
  imap (fun i msg => if Nat.eqb (k + i) n then with_cache_control msg
                     else {| role := role msg; content := content msg |}) l
  = l.
Proof.
  revert k. induction l as [|m l IH]; intros k Hk; [done|].
  simpl in *. rewrite Nat.add_0_r.
  destruct (Nat.eqb_spec k n); [lia|]. destruct m as [rm cm]. simpl. f_equal.
  rewrite <- (IH (S k)) at 2 by lia.
  apply imap_ext. intros i y _. simpl. by rewrite Nat.add_succ_r.
Qed.

(** The loop over the older messages changes the last one only. *)
Lemma format_cacheable_snoc older x :
  format_cacheable (older ++ [x]) = older ++ [with_cache_control x].
Proof.
  unfold format_cacheable. rewrite length_app. simpl length.
  replace (length older + 1 - 1) with (length older) by lia.
  rewrite imap_app. f_equal.
  - by apply (imap_format_below (length older) 0 older).
  - simpl. by rewrite Nat.add_0_r, Nat.eqb_refl.
Qed.

Lemma marked_from_app i l1 l2 :
  marked_from i (l1 ++ l2) = marked_from i l1 ++ marked_from (i + length l1) l2.
Proof.
  revert i. induction l1 as [|m l1 IH]; intros i; simpl.
  - by rewrite Nat.add_0_r.
  - rewrite IH. replace (S i + length l1) with (i + S (length l1)) by lia.
    by destruct (carries_cache_marker m).
Qed.

Lemma marked_from_plain i l :
  Forall (fun m => is_plain_text m = true) l -> marked_from i l = [].
Proof.
  intros H. revert i. induction H as [|m l Hm _ IH]; intros i; [done|].
  simpl. unfold carries_cache_marker, is_plain_text in *.
  destruct (content m); [apply IH | done].
Qed.

(** A conversation of more than three messages splits into the older
    messages, the boundary message and the three recent ones. *)
Lemma split_recent (conv : list Message) :
  3 < length conv ->
  exists older x recent,
    conv = older ++ [x] ++ recent
    /\ length recent = 3
    /\ py_slice_to (-3) conv = older ++ [x]
    /\ py_slice_from (-3) conv = recent.
Proof.
  intros Hlen.
  destruct (lookup_lt_is_Some_2 conv (length conv - 4)) as [x Hx]; [lia|].
  exists (take (length conv - 4) conv), x, (drop (S (length conv - 4)) conv).
  pose proof (take_drop_middle conv _ x Hx) as Hmid.
  split_and!.
  - exact (eq_sym Hmid).
  - rewrite length_drop. lia.
  - rewrite (py_slice_to_neg 3) by lia.
    replace (length conv - Z.to_nat 3) with (S (length conv - 4)) by lia.
    by rewrite (take_S_r _ _ x).
  - rewrite (py_slice_from_neg 3) by lia. f_equal. lia.
Qed.

Lemma lookup_middle_ne {A} (l1 l2 : list A) x y i :
  i <> length l1 -> (l1 ++ y :: l2) !! i = (l1 ++ x :: l2) !! i.
Proof.
  intros Hi. destruct (decide (i < length l1)) as [Hlt|Hge].
  - by rewrite !lookup_app_l.
  - rewrite !lookup_app_r by lia.
    destruct (i - length l1) as [|k] eqn:E; [lia | done].
Qed.

(** The export of a primed Claude buffer with more than three conversation
    messages. *)
Lemma claude_export_primed b older x recent :
  examples_injected b = true ->
  messages b = CLAUDE_EXAMPLES ++ older ++ [x] ++ recent ->
  length recent = 3 ->
  get_messages_for_api Claude b
  = CLAUDE_EXAMPLES ++ (older ++ [with_cache_control x]) ++ recent.
Proof.
  intros Hinj Hms Hrec. simpl. unfold claude_get_messages_for_api.
  rewrite Hinj, Hms.
  assert (Hconv : 3 < length (older ++ [x] ++ recent)).
  { rewrite !length_app. simpl. lia. }
  destruct (split_recent _ Hconv) as (older' & x' & recent' & Heq & Hrec' & Hto & Hfrom).
  assert (recent' = recent /\ older' ++ [x'] = older ++ [x]) as [-> Hold].
  { rewrite (app_assoc older), (app_assoc older') in Heq.
    pose proof (app_inj_2 _ _ _ _ (eq_trans Hrec (eq_sym Hrec')) Heq) as [H1 H2].
    by split. }
  destruct (length (CLAUDE_EXAMPLES ++ older ++ [x] ++ recent) <=? 3) eqn:E1.
  { apply Nat.leb_le in E1. rewrite !length_app in E1. simpl in E1. lia. }
  change 2%Z with (Z.of_nat 2). rewrite py_slice_to_nat, py_slice_from_nat.
  change (take 2 (CLAUDE_EXAMPLES ++ older ++ [x] ++ recent)) with CLAUDE_EXAMPLES.
  change (drop 2 (CLAUDE_EXAMPLES ++ older ++ [x] ++ recent))
    with (older ++ [x] ++ recent).
  destruct (length (older ++ [x] ++ recent) <=? 3) eqn:E2;
    [apply Nat.leb_le in E2; lia|].
  by rewrite Hto, Hfrom, Hold, format_cacheable_snoc.
Qed.

(** C4 (as stated) fails: the priming user message is exported with the
    [cache_control] block it is stored with, so two exported messages carry
    a marker. *)
Lemma two_markers_in_export :
  let b := run_calls Claude
             (InjectExamples
              :: add_calls [("user", "q1"); ("assistant", "a1");
                            ("user", "q2"); ("assistant", "a2")])
             (new_buffer default_max_messages) in
  examples_injected b = true
  /\ length (messages b) = 6
  /\ marked_positions (get_messages_for_api Claude b) = [0; 2].
Proof. split_and!; reflexivity. Qed.

(** The export of a buffer that holds the priming pair and then plain-text
    messages, more than five in all. *)
Lemma cache_boundary_of_shape (b : ConversationBuffer) (conv : list Message) :
  examples_injected b = true ->
  messages b = CLAUDE_EXAMPLES ++ conv ->
  Forall (fun m => is_plain_text m = true) conv ->
  5 < length (messages b) ->
  let out := get_messages_for_api Claude b in
  let boundary := length (messages b) - 4 in
  length out = length (messages b)
  /\ marked_positions out = [0; boundary]
  /\ (exists m, messages b !! boundary = Some m
                /\ out !! boundary = Some (with_cache_control m))
  /\ (forall i, i <> boundary -> out !! i = messages b !! i).
Proof.
  intros Hinj Hms Hplain Hlen out boundary.
  assert (Hconv : 3 < length conv).
  { rewrite Hms, length_app in Hlen. simpl in Hlen. lia. }
  destruct (split_recent conv Hconv) as (older & x & recent & Heq & Hrec & _ & _).
  subst conv.
  assert (Hout : out = CLAUDE_EXAMPLES ++ (older ++ [with_cache_control x]) ++ recent).
  { subst out. by apply claude_export_primed. }
  assert (Hb : boundary = length (CLAUDE_EXAMPLES ++ older)).
  { subst boundary. rewrite Hms, !length_app. simpl. lia. }
  apply Forall_app in Hplain as [Hold Hplain].
  apply Forall_app in Hplain as [_ Hrecent].
  assert (Hms' : messages b = (CLAUDE_EXAMPLES ++ older) ++ x :: recent).
  { rewrite Hms. by rewrite <- app_assoc. }
  assert (Hout' : out = (CLAUDE_EXAMPLES ++ older) ++ with_cache_control x :: recent).
  { rewrite Hout. by rewrite <- !app_assoc. }
  split_and!.
  - rewrite Hout', Hms', !length_app. done.
  - rewrite Hout. unfold marked_positions.
    rewrite !marked_from_app.
    rewrite (marked_from_plain _ older), (marked_from_plain _ recent) by done.
    rewrite Hb, length_app. reflexivity.
  - exists x. rewrite Hms', Hout', Hb. by rewrite !list_lookup_middle.
  - intros i Hi. rewrite Hms', Hout'. apply lookup_middle_ne. by rewrite <- Hb.
Qed.

(** One [add_message] on a primed buffer of capacity three or more keeps
    the pair in front and, after it, messages of the conversation only. *)
Lemma add_message_primed_conversation r c cap e0 e1 rest :
  (3 <= cap)%Z ->
  exists rest',
    messages (add_message r c {| messages := e0 :: e1 :: rest;
                                 max_messages := cap;
                                 examples_injected := true |})
    = e0 :: e1 :: rest'
    /\ rest' ⊆ rest ++ [ {| role := r; content := Text c |} ].
Proof.
  intros Hcap. remember {| role := r; content := Text c |} as m eqn:Em.
  unfold add_message, _trim_if_needed. simpl messages. simpl max_messages.
  simpl examples_injected. rewrite <- Em.
  remember (rest ++ [m]) as rest1 eqn:Erest1.
  assert (Hlen1 : length (e0 :: e1 :: rest1) = 3 + length rest).
  { subst rest1. simpl. rewrite length_app. simpl. lia. }
  change (S (S (length rest1))) with (length (e0 :: e1 :: rest1)).
  destruct (cap <? Z.of_nat (length (e0 :: e1 :: rest1)))%Z eqn:Etrim;
    simpl messages; [|exists rest1; split; [done | reflexivity]].
  apply Z.ltb_lt in Etrim.
  change 2%Z with (Z.of_nat 2) at 1. rewrite py_slice_to_nat.
  change (take 2 (e0 :: e1 :: rest1)) with [e0; e1].
  rewrite (py_slice_from_neg (cap - 2)) by lia.
  replace (length (e0 :: e1 :: rest1) - Z.to_nat (cap - 2))
    with (2 + (length rest1 + 2 - Z.to_nat cap)) by (simpl length in *; lia).
  change (drop (2 + ?k) (e0 :: e1 :: rest1)) with (drop k rest1).
  set (suf := drop (length rest1 + 2 - Z.to_nat cap) rest1).
  assert (Hsuf : suf ⊆ rest1) by apply subseteq_drop.
  rewrite drop_third_unless_user_eq.
  change (([e0; e1] ++ suf) !! 2) with (suf !! 0).
  change (take 2 ([e0; e1] ++ suf)) with [e0; e1].
  change (drop 3 ([e0; e1] ++ suf)) with (drop 1 suf).
  destruct (suf !! 0) as [h|]; [|by exists suf].
  destruct (decide (role h = "user")); [by exists suf|].
  exists (drop 1 suf). split; [done|].
  etrans; [apply subseteq_drop | exact Hsuf].
Qed.

(** A primed buffer of capacity three or more holds the priming pair and
    then plain-text messages. *)
Lemma primed_shape (p : Provider) (cap : Z) (calls : list BufferCall) :
  (3 <= cap)%Z ->
  examples_injected (run_calls p calls (new_buffer cap)) = true ->
  exists conv,
    messages (run_calls p calls (new_buffer cap)) = EXAMPLES p ++ conv
    /\ Forall (fun m => is_plain_text m = true) conv.
Proof.
  intros Hcap.
  assert (H0 : max_messages (new_buffer cap) = cap) by done.
  assert (H1 : examples_injected (new_buffer cap) = true ->
               exists conv, messages (new_buffer cap) = EXAMPLES p ++ conv
                            /\ Forall (fun m => is_plain_text m = true) conv)
    by done.
  revert H0 H1. generalize (new_buffer cap).
  induction calls as [|c calls IH]; intros b Hb Hshape; [done|].
  rewrite run_calls_cons. apply IH; [by rewrite run_call_max|].
  destruct c as [|r c|]; simpl.
  - unfold inject_examples. destruct (_ && _) eqn:E; [|done].
    intros _. exists []. by rewrite app_nil_r.
  - rewrite add_message_injected. intros Hinj.
    destruct (Hshape Hinj) as (conv & Hms & Hplain).
    destruct b as [ms cap' inj]. simpl in *. subst.
    assert (exists e0 e1, EXAMPLES p = [e0; e1]) as (e0 & e1 & Hex)
      by (destruct p; eauto).
    rewrite Hex. simpl.
    destruct (add_message_primed_conversation r c cap e0 e1 conv Hcap)
      as (rest' & -> & Hsub).
    exists rest'. split; [done|].
    apply Forall_forall. intros x Hx. apply Hsub in Hx.
    apply elem_of_app in Hx as [Hx|Hx].
    + by apply (proj1 (Forall_forall _ _) Hplain).
    + by apply list_elem_of_singleton in Hx as ->.
  - done.
Qed.

(** C4 (amended): for a Claude buffer created with a capacity of at least 3,
    with examples injected and more than 5 stored messages, the export has as
    many messages as the store and exactly two of them carry a cache-control
    marker: the priming user message at position 0, exported as stored, and
    the fourth-from-last stored message, exported wrapped in a marked block;
    every other message is exported as stored. *)
Theorem cache_boundary (cap : Z) (calls : list BufferCall) :
  (3 <= cap)%Z ->
  let b := run_calls Claude calls (new_buffer cap) in
  examples_injected b = true ->
  5 < length (messages b) ->
  let out := get_messages_for_api Claude b in
  let boundary := length (messages b) - 4 in
  length out = length (messages b)
  /\ marked_positions out = [0; boundary]
  /\ (exists m, messages b !! boundary = Some m
                /\ out !! boundary = Some (with_cache_control m))
  /\ (forall i, i <> boundary -> out !! i = messages b !! i).
Proof.
  intros Hcap b Hinj Hlen.
  destruct (primed_shape Claude cap calls Hcap Hinj) as (conv & Hms & Hplain).
  by apply (cache_boundary_of_shape b conv).
Qed.

Lemma cache_boundary_witness :
  let b := run_calls Claude
             (InjectExamples
              :: add_calls [("user", "q1"); ("assistant", "a1");
                            ("user", "q2"); ("assistant", "a2")])
             (new_buffer default_max_messages) in
  marked_positions (get_messages_for_api Claude b) = [0; length (messages b) - 4].
Proof.
  intros b.
  refine (proj1 (proj2 (cache_boundary default_max_messages
    (InjectExamples
     :: add_calls [("user", "q1"); ("assistant", "a1");
                   ("user", "q2"); ("assistant", "a2")]) _ _ _))).
  - unfold default_max_messages. lia.
  - reflexivity.
  - simpl. lia.
Defined.

(** ** The modification normalizer *)

(** *** The stable descending sort *)

Section SortedReverse.
Context {A : Type} (key : A -> Z).

Lemma insert_desc_perm x l : insert_desc key x l ≡ₚ x :: l.
Proof.
  induction l as [|y l IH]; simpl; [done|].
  destruct (key y <=? key x)%Z; [done|]. rewrite IH. apply Permutation_swap.
Qed.

Lemma sorted_reverse_perm l : sorted_reverse key l ≡ₚ l.
Proof.
  induction l as [|x l IH]; simpl; [done|].
  rewrite insert_desc_perm. by rewrite IH.
Qed.

Lemma insert_desc_sorted x l :
  StronglySorted (fun a b => (key b <= key a)%Z) l ->
  StronglySorted (fun a b => (key b <= key a)%Z) (insert_desc key x l).
Proof.
  induction 1 as [|y l Hsorted IH Hy]; simpl.
  - repeat constructor.
  - destruct (Z.leb_spec (key y) (key x)) as [Hle|Hgt].
    + constructor; [by constructor|]. constructor; [done|].
      eapply Forall_impl; [exact Hy|]. simpl. intros z Hz. lia.
    + constructor; [done|]. rewrite insert_desc_perm.
      constructor; [lia | done].
Qed.

Lemma sorted_reverse_sorted l :
  StronglySorted (fun a b => (key b <= key a)%Z) (sorted_reverse key l).
Proof.
  induction l as [|x l IH]; simpl; [constructor | by apply insert_desc_sorted].
Qed.

(** Stability: the elements of one key keep their order. *)
Lemma insert_desc_filter k x l :
  filter (fun a => key a = k) (insert_desc key x l)
  = filter (fun a => key a = k) (x :: l).
Proof.
  induction l as [|y l IH]; simpl; [done|].
  destruct (Z.leb_spec (key y) (key x)) as [Hle|Hgt]; [done|].
  rewrite (filter_cons _ y), IH, !filter_cons.
  repeat case_decide; try done; lia.
Qed.

Lemma sorted_reverse_stable k l :
  filter (fun a => key a = k) (sorted_reverse key l)
  = filter (fun a => key a = k) l.
Proof.
  induction l as [|x l IH]; simpl; [done|].
  rewrite insert_desc_filter, !filter_cons. by rewrite IH.
Qed.

End SortedReverse.

(** *** Grouping by file *)

Lemma dict_append_keys k m d :
  (dict_append k m d).*1 = if bool_decide (k ∈ d.*1) then d.*1 else d.*1 ++ [k].
Proof.
  induction d as [|[k' ms] d IH]; [done|].
  cbn [dict_append].
  destruct (String.eqb_spec k' k) as [->|Hne]; rewrite !fmap_cons; cbn [fst].
  - rewrite bool_decide_eq_true_2; [done|]. apply elem_of_cons. by left.
  - rewrite IH. destruct (decide (k ∈ d.*1)) as [Hin|Hnin].
    + rewrite !bool_decide_eq_true_2; [done | | done].
      apply elem_of_cons. by right.
    + rewrite !bool_decide_eq_false_2; [done | | done].
      intros [?|?]%elem_of_cons; congruence.
Qed.

Lemma dict_get_append k k' m d :
  dict_get k' (dict_append k m d)
  = if String.eqb k k' then dict_get k' d ++ [m] else dict_get k' d.
Proof.
  induction d as [|[k0 ms] d IH]; simpl.
  - by destruct (String.eqb k k').
  - destruct (String.eqb_spec k0 k) as [->|Hne]; simpl.
    + by destruct (String.eqb k k').
    + rewrite IH. destruct (String.eqb_spec k0 k') as [->|Hne']; [|done].
      destruct (String.eqb_spec k k'); [congruence | done].
Qed.

Lemma dict_entries d :
  NoDup d.*1 -> d = map (fun k => (k, dict_get k d)) d.*1.
Proof.
  induction d as [|[k ms] d IH]; intros Hnd; [done|].
  simpl in Hnd. apply NoDup_cons in Hnd as [Hk Hnd].
  simpl. rewrite String.eqb_refl. f_equal.
  rewrite (IH Hnd) at 1. apply map_ext_in. intros k' Hk'.
  destruct (String.eqb_spec k k') as [->|Hne]; [|done].
  by apply list_elem_of_In in Hk'.
Qed.

Lemma first_appearances_snoc l x :
  first_appearances (l ++ [x])
  = if bool_decide (x ∈ first_appearances l) then first_appearances l
    else first_appearances l ++ [x].
Proof. unfold first_appearances. by rewrite foldl_snoc. Qed.

Lemma first_appearances_elem l x : x ∈ first_appearances l <-> x ∈ l.
Proof.
  induction l as [|y l IH] using rev_ind; [done|].
  rewrite first_appearances_snoc. case_bool_decide as Hy.
  - rewrite elem_of_app, <- IH, list_elem_of_singleton. split; [by left|].
    intros [Hx| ->]; done.
  - by rewrite !elem_of_app, IH.
Qed.

Lemma first_appearances_NoDup l : NoDup (first_appearances l).
Proof.
  induction l as [|y l IH] using rev_ind; [constructor|].
  rewrite first_appearances_snoc. case_bool_decide as Hy; [done|].
  apply NoDup_app. split_and!; [done | | apply NoDup_singleton].
  intros z Hz ->%list_elem_of_singleton. done.
Qed.

Lemma dict_of_pairs_snoc ps pm :
  dict_of_pairs (ps ++ [pm]) = dict_append pm.1 pm.2 (dict_of_pairs ps).
Proof. unfold dict_of_pairs. by rewrite foldl_snoc. Qed.

Lemma dict_of_pairs_keys ps :
  (dict_of_pairs ps).*1 = first_appearances ps.*1.
Proof.
  induction ps as [|pm ps IH] using rev_ind; [done|].
  rewrite dict_of_pairs_snoc, dict_append_keys, fmap_app. simpl.
  by rewrite first_appearances_snoc, IH.
Qed.

Lemma dict_of_pairs_get k ps :
  dict_get k (dict_of_pairs ps) = (filter (fun pm => pm.1 = k) ps).*2.
Proof.
  induction ps as [|pm ps IH] using rev_ind; [done|].
  rewrite dict_of_pairs_snoc, dict_get_append, filter_app, fmap_app, IH.
  rewrite filter_cons, filter_nil.
  destruct (String.eqb_spec pm.1 k) as [Heq|Hne]; case_decide; try done.
  by rewrite app_nil_r.
Qed.

Lemma group_by_file_pairs changes :
  group_by_file changes = dict_of_pairs (path_modifications changes).
Proof.
  unfold group_by_file, dict_of_pairs.
  generalize (@nil (string * list Modification)).
  induction changes as [|c changes IH]; intros d; [done|].
  simpl. rewrite foldl_app, IH. f_equal.
  generalize (change_modifications c). intros ms. revert d.
  induction ms as [|m ms IHm]; intros d; [done|]. simpl. apply IHm.
Qed.

Lemma path_modifications_paths changes :
  (path_modifications changes).*1 = modified_paths changes.
Proof.
  induction changes as [|c changes IH]; [done|].
  unfold path_modifications, modified_paths in *. simpl.
  rewrite fmap_app, IH. f_equal.
  induction (change_modifications c) as [|m ms IHm]; [done|].
  simpl. f_equal. exact IHm.
Qed.

Lemma filter_tagged path p (ms : list Modification) :
  (filter (fun pm => pm.1 = path) (map (fun m => (p, m)) ms)).*2
  = if String.eqb p path then ms else [].
Proof.
  induction ms as [|m ms IH]; [by destruct (String.eqb p path)|].
  change (map (fun m => (p, m)) (m :: ms))
    with ((p, m) :: map (fun m => (p, m)) ms).
  rewrite filter_cons. cbn [fst].
  destruct (String.eqb_spec p path) as [Heq|Hne]; case_decide; try done.
  rewrite fmap_cons. cbn [snd]. by rewrite IH.
Qed.

Lemma path_modifications_for path changes :
  (filter (fun pm => pm.1 = path) (path_modifications changes)).*2
  = modifications_for path changes.
Proof.
  induction changes as [|c changes IH]; [done|].
  unfold path_modifications, modifications_for in *. simpl.
  by rewrite filter_app, fmap_app, IH, filter_tagged.
Qed.

(** [sort_modifications] by paths: one entry for each path that has a
    modification, in order of first appearance, holding the path's
    modifications sorted. *)
Lemma sort_modifications_by_path changes :
  sort_modifications changes
  = map (sorted_entry changes) (first_appearances (modified_paths changes)).
Proof.
  unfold sort_modifications. rewrite group_by_file_pairs.
  set (d := dict_of_pairs (path_modifications changes)).
  assert (Hkeys : d.*1 = first_appearances (modified_paths changes)).
  { subst d. by rewrite dict_of_pairs_keys, path_modifications_paths. }
  rewrite (dict_entries d) by (rewrite Hkeys; apply first_appearances_NoDup).
  rewrite Hkeys, map_map. apply map_ext. intros path. simpl.
  unfold sorted_entry. subst d.
  by rewrite dict_of_pairs_get, path_modifications_for.
Qed.

Lemma elem_of_modified_paths path changes :
  path ∈ modified_paths changes
  <-> exists c, c ∈ changes /\ change_file c = path /\ change_modifications c <> [].
Proof.
  unfold modified_paths. rewrite list_elem_of_In, in_flat_map. split.
  - intros (c & Hc & Hin). exists c. apply list_elem_of_In in Hc.
    apply in_map_iff in Hin as (m & <- & Hm). split_and!; [done | done |].
    intros Hnil. by rewrite Hnil in Hm.
  - intros (c & Hc & <- & Hne). exists c. split; [by apply list_elem_of_In|].
    destruct (change_modifications c) as [|m ms]; [done|]. by left.
Qed.

Lemma sort_modifications_files changes :
  map file (sort_modifications changes)
  = map Some (first_appearances (modified_paths changes)).
Proof. rewrite sort_modifications_by_path, map_map. by apply map_ext. Qed.

(** C1: for every list of changes, every path for which a modification is
    listed has a file entry in the result of [sort_modifications], and each
    file entry of the result holds the modifications listed for its path
    ordered by [start_line] descending, a missing [start_line] counting as 0:
    of two modifications of the entry, the earlier one has the greater or
    equal [start_line]. The sort is stable: the modifications of any one
    [start_line] stand in their input order. For one file with replace(2-2),
    delete(7-8), insert(after 4) the order is delete, insert, replace; with
    start lines 3, 40, none, 3, 12 it is 40, 12, the two of line 3 in input
    order, and last the one without a start line. *)
Theorem sort_modifications_descending (changes : list Change) :
  Forall (fun path => exists c, c ∈ sort_modifications changes
                                /\ file c = Some path)
         (modified_paths changes)
  /\ Forall (fun c =>
            exists path ms,
              file c = Some path
              /\ modifications c = Some ms
              /\ ms ≡ₚ modifications_for path changes
              /\ StronglySorted
                   (fun a b => (default 0 (start_line b)
                                <= default 0 (start_line a))%Z) ms
              /\ forall k : Z,
                   filter (fun m => default 0%Z (start_line m) = k) ms
                   = filter (fun m => default 0%Z (start_line m) = k)
                            (modifications_for path changes))
         (sort_modifications changes)
  /\ sort_modifications example_changes
     = [ {| file := Some "src/App.jsx";
            file_content := None;
            modifications :=
              Some [example_delete; example_insert; example_replace] |} ]
  /\ (let edit line text :=
        {| operation := Some "insert"; start_line := line; end_line := None;
           new_content := Some text; old_content := None |} in
      sort_modifications
        [ {| file := Some "src/App.jsx"; file_content := None;
             modifications :=
               Some [edit (Some 3%Z) "a"; edit (Some 40%Z) "b"; edit None "c"] |};
          {| file := Some "src/App.jsx"; file_content := None;
             modifications :=
               Some [edit (Some 3%Z) "d"; edit (Some 12%Z) "e"] |} ]
      = [ {| file := Some "src/App.jsx"; file_content := None;
             modifications :=
               Some [edit (Some 40%Z) "b"; edit (Some 12%Z) "e";
                     edit (Some 3%Z) "a"; edit (Some 3%Z) "d";
                     edit None "c"] |} ]).
Proof.
  split_and!; [| |reflexivity..].
  - apply Forall_forall. intros path Hpath.
    rewrite sort_modifications_by_path.
    exists (sorted_entry changes path). split; [|done].
    apply list_elem_of_fmap. exists path. split; [done|].
    by apply first_appearances_elem.
  - rewrite sort_modifications_by_path. apply Forall_forall.
    intros c (path & <- & _)%list_elem_of_In%in_map_iff.
    exists path, (sorted_reverse sort_key (modifications_for path changes)).
    split_and!; [done | done | | |].
    + apply sorted_reverse_perm.
    + exact (sorted_reverse_sorted sort_key (modifications_for path changes)).
    + intros k.
      exact (sorted_reverse_stable sort_key k (modifications_for path changes)).
Qed.

(** C10 (as stated) fails for an input entry that lists no modification: its
    path gets no output entry, and a path whose first entry is empty is
    ordered by its first non-empty entry. *)
Lemma empty_entry_dropped :
  let empty_first :=
    [ {| file := Some "src/A.jsx"; file_content := None; modifications := Some [] |};
      {| file := Some "src/B.jsx"; file_content := None;
         modifications := Some [example_insert] |};
      {| file := Some "src/A.jsx"; file_content := None;
         modifications := Some [example_delete] |} ] in
  let only_empty :=
    [ {| file := Some "src/A.jsx"; file_content := None; modifications := Some [] |} ] in
  "src/A.jsx" ∈ map change_file only_empty
  /\ sort_modifications only_empty = []
  /\ first_appearances (map change_file empty_first) = ["src/A.jsx"; "src/B.jsx"]
  /\ map file (sort_modifications empty_first) = [Some "src/B.jsx"; Some "src/A.jsx"].
Proof.
  split_and!; [|reflexivity..]. apply list_elem_of_singleton. reflexivity.
Qed.

(** C10 (amended): [sort_modifications] merges the entries of one path. For
    every input its output has exactly one entry for each distinct path that
    lists at least one modification (and none for the other paths), the
    entries stand in the order in which those paths first list a
    modification, and each entry holds exactly the modifications listed for
    its path across all input entries. *)
Theorem sort_modifications_merges (changes : list Change) :
  let out := sort_modifications changes in
  map file out = map Some (first_appearances (modified_paths changes))
  /\ NoDup (map file out)
  /\ (forall path,
        Some path ∈ map file out
        <-> exists c, c ∈ changes /\ change_file c = path
                      /\ change_modifications c <> [])
  /\ Forall (fun c =>
               exists path ms,
                 file c = Some path
                 /\ modifications c = Some ms
                 /\ ms ≡ₚ modifications_for path changes)
            out.
Proof.
  intros out. subst out. split_and!.
  - apply sort_modifications_files.
  - rewrite sort_modifications_files.
    apply (NoDup_fmap_2 Some), first_appearances_NoDup.
  - intros path. rewrite sort_modifications_files.
    rewrite <- elem_of_modified_paths, <- first_appearances_elem.
    change (map Some ?l) with (Some <$> l).
    rewrite (list_elem_of_fmap_inj Some). done.
  - rewrite sort_modifications_by_path. apply Forall_forall.
    intros c (path & <- & _)%list_elem_of_In%in_map_iff.
    exists path, (sorted_reverse sort_key (modifications_for path changes)).
    split_and!; [done | done |]. apply sorted_reverse_perm.
Qed.

(** ** The request handler *)

Lemma conversations_set st p sid b :
  conversations (set_conversation st p sid b) p !! sid = Some b.
Proof. destruct p; simpl; apply lookup_insert_eq. Qed.

Lemma last_app_snoc {A} (l1 l2 : list A) x :
  last l2 = Some x -> last (l1 ++ l2) = Some x.
Proof. intros H. by rewrite last_app, H. Qed.

Lemma drop_third_unless_user_last kept m :
  last kept = Some m ->
  role_is_user m = true ->
  last (drop_third_unless_user kept) = Some m.
Proof.
  intros Hlast Hm. rewrite drop_third_unless_user_eq.
  destruct (kept !! 2) as [h|] eqn:Eh; [|done].
  destruct (decide (role h = "user")) as [Hu|Hu]; [done|].
  pose proof (take_drop_middle kept 2 h Eh) as Hmid.
  rewrite <- Hmid in Hlast.
  destruct (drop 3 kept) as [|y rest] eqn:Ed.
  - rewrite last_snoc in Hlast. injection Hlast as ->.
    rewrite role_is_user_decide in Hm. by apply bool_decide_eq_true_1 in Hm.
  - apply last_app_snoc. rewrite last_app, last_cons_cons in Hlast.
    destruct (last (y :: rest)) as [z|] eqn:Ez; [done|].
    by apply last_None in Ez.
Qed.

(** A user message added to a buffer of a capacity that is not negative is
    the last message of the buffer after the call. *)
Lemma add_message_user_last c b :
  (0 <= max_messages b)%Z ->
  last (messages (add_message "user" c b))
  = Some {| role := "user"; content := Text c |}.
Proof.
  intros Hcap. set (m := {| role := "user"; content := Text c |}).
  unfold add_message, _trim_if_needed. simpl messages. simpl max_messages.
  simpl examples_injected. fold m.
  destruct (_ <? _)%Z eqn:Etrim; simpl messages; [|apply last_snoc].
  apply drop_third_unless_user_last; [|done].
  assert (Hsuffix : forall i,
    py_bound i (length (messages b ++ [m])) < length (messages b ++ [m]) ->
    last (py_slice_from i (messages b ++ [m])) = Some m).
  { intros i Hi. unfold py_slice_from. rewrite last_drop_lt by done.
    apply last_snoc. }
  assert (Hlen : length (messages b ++ [m]) = S (length (messages b))).
  { rewrite length_app. simpl. lia. }
  destruct (examples_injected b).
  - change 2%Z with (Z.of_nat 2). rewrite py_slice_to_nat.
    set (i := (- (max_messages b - Z.of_nat 2))%Z).
    destruct (decide (py_bound i (length (messages b ++ [m]))
                      < length (messages b ++ [m]))) as [Hlt|Hge].
    + by apply last_app_snoc, Hsuffix.
    + unfold py_slice_from. rewrite drop_ge by lia. rewrite app_nil_r.
      assert (length (messages b ++ [m]) <= 2) as Hshort.
      { revert Hge. unfold py_bound. rewrite Hlen. subst i.
        destruct (_ <? 0)%Z eqn:E; [apply Z.ltb_lt in E | apply Z.ltb_ge in E]; lia. }
      rewrite take_ge by done. apply last_snoc.
  - apply Hsuffix. unfold py_bound. rewrite Hlen.
    destruct (_ <? 0)%Z eqn:E; [apply Z.ltb_lt in E | apply Z.ltb_ge in E]; lia.
Qed.

(** The handler keeps every buffer at the default capacity, so
    [default_capacity] holds in every state it reaches from
    [initial_state]. *)
Lemma set_conversation_capacity st p sid b :
  default_capacity st ->
  max_messages b = default_max_messages ->
  default_capacity (set_conversation st p sid b).
Proof.
  intros Hst Hb p' sid' b'.
  destruct p, p'; simpl; rewrite ?lookup_insert; try case_decide;
    try (intros [= <-]; exact Hb);
    first [apply (Hst Claude) | apply (Hst OpenAI)].
Qed.

Lemma set_generated_code_capacity st sid v :
  default_capacity st -> default_capacity (set_generated_code st sid v).
Proof. intros Hst p sid' b. destruct p; simpl; [apply (Hst Claude) | apply (Hst OpenAI)]. Qed.

Lemma inject_examples_max p b :
  max_messages (inject_examples p b) = max_messages b.
Proof. unfold inject_examples. by destruct (_ && _). Qed.

Section HandlerFacts.
Context (unicode_lower : string -> string).
Context (call_api : Provider -> list Message -> string -> string
                    -> string + (string * gmap string Z)).
Context (json_loads : string -> string + Payload).
Context (json_dumps : Payload -> string).
Context (dumps_tree : WorkspaceTree -> string).

Lemma ensure_session_capacity st p sid :
  default_capacity st ->
  default_capacity (ensure_session st p sid).1
  /\ max_messages (ensure_session st p sid).2 = default_max_messages
  /\ conversations (ensure_session st p sid).1 p !! sid
     = Some (ensure_session st p sid).2.
Proof.
  intros Hst. unfold ensure_session.
  destruct (conversations st p !! sid) as [b|] eqn:E; simpl.
  - split_and!; [done | by eapply Hst | done].
  - split_and!; [|done|].
    + by apply set_generated_code_capacity, set_conversation_capacity.
    + destruct p; simpl; apply lookup_insert_eq.
Qed.

Lemma begin_turn_buffer st req :
  conversations (turn_state (begin_turn unicode_lower dumps_tree st req))
                (turn_provider (begin_turn unicode_lower dumps_tree st req))
    !! session_id req
  = Some (turn_buffer (begin_turn unicode_lower dumps_tree st req)).
Proof.
  unfold begin_turn. destruct (ensure_session _ _ _) as [st1 b]. simpl.
  apply conversations_set.
Qed.

Lemma begin_turn_last st req :
  default_capacity st ->
  last (messages (turn_buffer (begin_turn unicode_lower dumps_tree st req)))
  = Some {| role := "user";
            content :=
              Text (turn_message (begin_turn unicode_lower dumps_tree st req)) |}.
Proof.
  intros Hst. unfold begin_turn.
  destruct (ensure_session_capacity st
              (determine_provider (effective_model_name req)) (session_id req) Hst)
    as (_ & Hcap & _).
  destruct (ensure_session _ _ _) as [st1 b]. simpl in Hcap |- *.
  apply add_message_user_last.
  destruct (negb (examples_injected b)); [|rewrite Hcap; done].
  unfold inject_examples. destruct (_ && _); simpl; rewrite Hcap; done.
Qed.

(** C7: when the provider call raises, the handler raises
    [HTTPException(500)] with the text of the failure and nothing else, and
    the state it leaves is the state it had reached just before the call:
    the session's buffer ends with the user message of this turn, and no
    assistant message was added. *)
Theorem provider_failure_keeps_user_turn (st : AppState) (req : ChatRequest)
    (e : string) :
  default_capacity st ->
  provider_call call_api (begin_turn unicode_lower dumps_tree st req) = inl e ->
  process_chat_request unicode_lower call_api json_loads json_dumps dumps_tree
                       st req
  = (turn_state (begin_turn unicode_lower dumps_tree st req),
     Raised 500 ("API Error: " +:+ e))
  /\ conversations
       (process_chat_request unicode_lower call_api json_loads json_dumps
                             dumps_tree st req).1
       (turn_provider (begin_turn unicode_lower dumps_tree st req))
       !! session_id req
     = Some (turn_buffer (begin_turn unicode_lower dumps_tree st req))
  /\ last (messages (turn_buffer (begin_turn unicode_lower dumps_tree st req)))
     = Some {| role := "user";
               content :=
                 Text (turn_message
                         (begin_turn unicode_lower dumps_tree st req)) |}.
Proof.
  intros Hst Hfail.
  assert (Hrun : process_chat_request unicode_lower call_api json_loads
                                      json_dumps dumps_tree st req
                 = (turn_state (begin_turn unicode_lower dumps_tree st req),
                    Raised 500 ("API Error: " +:+ e))).
  { unfold process_chat_request. by rewrite Hfail. }
  split_and!; [done | | by apply begin_turn_last].
  rewrite Hrun. apply begin_turn_buffer.
Qed.

Lemma remove_old_content_type p : payload_type (remove_old_content p) = payload_type p.
Proof.
  unfold remove_old_content.
  destruct (payload_type p) as [ty|] eqn:E; [|done].
  repeat (case_match; try done).
Qed.

(** The response of a turn whose reply decoded to a payload. *)
Lemma finish_turn_decoded req t response usage p :
  decode_reply json_loads response = inr p ->
  let r := (finish_turn unicode_lower json_loads json_dumps req t response usage).2 in
  let response_type := default "code_generation" (payload_type p) in
  resp_type r = response_type
  /\ resp_is_code_change r
     = bool_decide (response_type ∈ ["code_generation"; "code_changes"])
  /\ resp_request_type r
     = (if String.eqb response_type "code_changes" then "modification"
        else "generation")
  /\ resp_usage r = normalize_usage (turn_provider t) usage
  /\ resp_provider r = turn_provider t.
Proof.
  intros Hdec. unfold finish_turn. rewrite Hdec.
  set (parsed := remove_old_content p).
  assert (Hty : payload_type parsed = payload_type p)
    by apply remove_old_content_type.
  assert (Hty' : payload_type
            match payload_type parsed, payload_changes parsed with
            | Some "code_changes", Some changes =>
                {| payload_type := payload_type parsed;
                   payload_changes := Some (sort_modifications changes);
                   payload_summary := payload_summary parsed |}
            | _, _ => parsed
            end = payload_type p).
  { rewrite <- Hty. repeat (case_match; try done). }
  simpl. rewrite Hty'. done.
Qed.

Lemma finish_turn_usage req t response usage :
  resp_usage (finish_turn unicode_lower json_loads json_dumps req t response
                          usage).2
  = normalize_usage (turn_provider t) usage
  /\ resp_provider (finish_turn unicode_lower json_loads json_dumps req t
                                response usage).2
     = turn_provider t.
Proof.
  unfold finish_turn. destruct (decode_reply json_loads response); [|done].
  by destruct (negb _).
Qed.

Lemma handle_returned st req response usage :
  provider_call call_api (begin_turn unicode_lower dumps_tree st req)
  = inr (response, usage) ->
  process_chat_request unicode_lower call_api json_loads json_dumps dumps_tree
                       st req
  = ((finish_turn unicode_lower json_loads json_dumps req
                  (begin_turn unicode_lower dumps_tree st req) response usage).1,
     Returned (finish_turn unicode_lower json_loads json_dumps req
                           (begin_turn unicode_lower dumps_tree st req)
                           response usage).2).
Proof.
  intros Hcall. unfold process_chat_request. rewrite Hcall.
  by destruct (finish_turn _ _ _ _ _ _ _).
Qed.

(** C5 (amended): when the reply of the provider decodes to a payload, the
    handler returns a response and raises nothing. A payload without a
    [type] field gives a response of type [code_generation] (a code change,
    request type generation); a payload whose [type] is some other string
    than [code_generation] or [code_changes] gives a response of that very
    type, with request type generation and not marked as a code change. *)
Theorem missing_type_defaults (st : AppState) (req : ChatRequest)
    (response : string) (usage : gmap string Z) (p : Payload) :
  provider_call call_api (begin_turn unicode_lower dumps_tree st req)
  = inr (response, usage) ->
  decode_reply json_loads response = inr p ->
  exists st' r,
    process_chat_request unicode_lower call_api json_loads json_dumps dumps_tree
                         st req
    = (st', Returned r)
    /\ (payload_type p = None ->
        resp_type r = "code_generation"
        /\ resp_is_code_change r = true
        /\ resp_request_type r = "generation")
    /\ (forall ty,
          payload_type p = Some ty ->
          ty <> "code_generation" -> ty <> "code_changes" ->
          resp_type r = ty
          /\ resp_is_code_change r = false
          /\ resp_request_type r = "generation").
Proof.
  intros Hcall Hdec. eexists _, _. split; [by apply handle_returned|].
  destruct (finish_turn_decoded req (begin_turn unicode_lower dumps_tree st req)
                                response usage p Hdec)
    as (Hty & Hcode & Hreq & _).
  split.
  - intros Hnone. rewrite Hnone in *. simpl in *. by rewrite Hty, Hcode, Hreq.
  - intros ty Hsome Hgen Hchg. rewrite Hsome in *. simpl in *.
    rewrite Hty, Hcode, Hreq. split_and!; [done | |].
    + apply bool_decide_eq_false_2. intros Hin.
      apply elem_of_cons in Hin as [?|Hin]; [done|].
      apply elem_of_cons in Hin as [?|Hin]; [done|].
      by apply elem_of_nil in Hin.
    + destruct (String.eqb_spec ty "code_changes"); done.
Qed.

(** C6 (amended): every response of a turn whose provider call returned
    carries a usage record of five fields, [input_tokens], [output_tokens],
    [cache_creation_input_tokens], [cache_read_input_tokens] and
    [cached_tokens], each 0 when the provider does not report it. For Claude
    the four first are read from the keys of the same names and
    [cached_tokens] is 0; for OpenAI [prompt_tokens] and [completion_tokens]
    give the two first, the [cached_tokens] figure is kept in [cached_tokens],
    and both cache fields of Claude are 0. *)
Theorem usage_normalized (st : AppState) (req : ChatRequest)
    (response : string) (usage : gmap string Z) :
  provider_call call_api (begin_turn unicode_lower dumps_tree st req)
  = inr (response, usage) ->
  exists st' r,
    process_chat_request unicode_lower call_api json_loads json_dumps dumps_tree
                         st req
    = (st', Returned r)
    /\ match resp_provider r with
       | Claude =>
           resp_usage r
           = {| input_tokens := default 0%Z (usage !! "input_tokens");
                output_tokens := default 0%Z (usage !! "output_tokens");
                cache_creation_input_tokens :=
                  default 0%Z (usage !! "cache_creation_input_tokens");
                cache_read_input_tokens :=
                  default 0%Z (usage !! "cache_read_input_tokens");
                cached_tokens := 0 |}
       | OpenAI =>
           resp_usage r
           = {| input_tokens := default 0%Z (usage !! "prompt_tokens");
                output_tokens := default 0%Z (usage !! "completion_tokens");
                cache_creation_input_tokens := 0;
                cache_read_input_tokens := 0;
                cached_tokens := default 0%Z (usage !! "cached_tokens") |}
       end.
Proof.
  intros Hcall. eexists _, _. split; [by apply handle_returned|].
  destruct (finish_turn_usage req (begin_turn unicode_lower dumps_tree st req)
                              response usage) as [Hu Hp].
  rewrite Hu, Hp. by destruct (turn_provider _).
Qed.

Lemma begin_turn_capacity st req :
  default_capacity st ->
  default_capacity (turn_state (begin_turn unicode_lower dumps_tree st req))
  /\ max_messages (turn_buffer (begin_turn unicode_lower dumps_tree st req)) = default_max_messages.
Proof.
  intros Hst. unfold begin_turn.
  destruct (ensure_session_capacity st
              (determine_provider (effective_model_name req)) (session_id req) Hst)
    as (Hst1 & Hcap & _).
  destruct (ensure_session _ _ _) as [st1 b]. simpl in *.
  assert (Hb2 : forall c,
    max_messages (add_message "user" c
       (if negb (examples_injected b)
        then inject_examples (determine_provider (effective_model_name req)) b
        else b)) = default_max_messages).
  { intros c. rewrite add_message_max.
    destruct (negb _); [by rewrite inject_examples_max | done]. }
  split; [|apply Hb2]. by apply set_conversation_capacity.
Qed.

Lemma process_chat_request_capacity st req :
  default_capacity st ->
  default_capacity
    (process_chat_request unicode_lower call_api json_loads json_dumps dumps_tree st req).1.
Proof.
  intros Hst. destruct (begin_turn_capacity st req Hst) as [Hst1 Hcap].
  unfold process_chat_request.
  destruct (provider_call _ _) as [e|[response usage]]; [done|].
  destruct (finish_turn _ _ _ _ _ _ _) as [st' r] eqn:Efin. simpl.
  assert (st' = (finish_turn unicode_lower json_loads json_dumps req
                   (begin_turn unicode_lower dumps_tree st req) response usage).1) as ->
    by (by rewrite Efin).
  clear Efin. unfold finish_turn.
  assert (Hst3 : default_capacity
    (set_conversation (turn_state (begin_turn unicode_lower dumps_tree st req))
       (turn_provider (begin_turn unicode_lower dumps_tree st req)) (session_id req)
       (add_message "assistant" response
          (turn_buffer (begin_turn unicode_lower dumps_tree st req))))).
  { apply set_conversation_capacity; [done|]. by rewrite add_message_max. }
  destruct (decode_reply json_loads response).
  - by destruct (negb _).
  - simpl. case_bool_decide; [by apply set_generated_code_capacity | done].
Qed.

End HandlerFacts.

Lemma initial_state_default_capacity : default_capacity initial_state.
Proof. intros p sid b. destruct p; simpl; by rewrite lookup_empty. Qed.

Lemma provider_failure_keeps_user_turn_witness :
  process_chat_request no_unicode (failing "timeout") (decoding untyped_payload)
                       no_dump no_dump initial_state claude_request
  = (turn_state (begin_turn no_unicode no_dump initial_state claude_request),
     Raised 500 "API Error: timeout")
  /\ last (messages (turn_buffer (begin_turn no_unicode no_dump initial_state claude_request)))
     = Some {| role := "user";
               content :=
                 Text ("<user_request>" +:+ nl +:+ "build a form" +:+ nl
                       +:+ "</user_request>") |}.
Proof.
  destruct (provider_failure_keeps_user_turn
              no_unicode (failing "timeout") (decoding untyped_payload) no_dump no_dump
              initial_state claude_request "timeout")
    as (Hrun & _ & Hlast).
  - exact initial_state_default_capacity.
  - reflexivity.
  - split; [exact Hrun | exact Hlast].
Defined.

(** C5 (as stated) fails for an unknown type: the response carries the
    unknown type, not [code_generation]. *)
Lemma unknown_type_returned_verbatim :
  exists r,
    (process_chat_request no_unicode (answering unknown_reply ∅) (decoding unknown_payload)
                          no_dump no_dump initial_state claude_request).2
    = Returned r
    /\ resp_type r = "code_review"
    /\ resp_type r <> "code_generation".
Proof.
  eexists. split; [vm_compute; reflexivity|]. split; [reflexivity | discriminate].
Qed.

Lemma missing_type_defaults_witness :
  exists r,
    (process_chat_request no_unicode (answering untyped_reply ∅) (decoding untyped_payload)
                          no_dump no_dump initial_state claude_request).2
    = Returned r
    /\ resp_type r = "code_generation"
    /\ resp_is_code_change r = true
    /\ resp_request_type r = "generation".
Proof.
  destruct (missing_type_defaults
              no_unicode (answering untyped_reply ∅) (decoding untyped_payload)
              no_dump no_dump initial_state claude_request untyped_reply ∅
              untyped_payload)
    as (st' & r & Hrun & Hnone & _).
  - reflexivity.
  - reflexivity.
  - exists r. split; [by rewrite Hrun|]. by apply Hnone.
Defined.

(** C6 (as stated) fails for OpenAI: the cached figure is kept in
    [cached_tokens], and [cache_read_input_tokens] stays 0. *)
Lemma openai_cached_tokens_kept_apart :
  exists r,
    (process_chat_request no_unicode (answering "Hello!" openai_usage)
                          (decoding untyped_payload)
                          no_dump no_dump initial_state openai_request).2
    = Returned r
    /\ openai_usage !! "cached_tokens" = Some 7%Z
    /\ cache_read_input_tokens (resp_usage r) = 0%Z
    /\ cached_tokens (resp_usage r) = 7%Z.
Proof.
  eexists. split; [vm_compute; reflexivity|]. split_and!; reflexivity.
Qed.

Lemma usage_normalized_witness :
  exists r,
    (process_chat_request no_unicode (answering "Hello!" openai_usage)
                          (decoding untyped_payload)
                          no_dump no_dump initial_state openai_request).2
    = Returned r
    /\ resp_usage r
       = {| input_tokens := 10; output_tokens := 5;
            cache_creation_input_tokens := 0; cache_read_input_tokens := 0;
            cached_tokens := 7 |}.
Proof.
  destruct (usage_normalized
              no_unicode (answering "Hello!" openai_usage) (decoding untyped_payload)
              no_dump no_dump initial_state openai_request "Hello!" openai_usage)
    as (st' & r & Hrun & Husage).
  - reflexivity.
  - exists r. split; [by rewrite Hrun|].
    assert (Hp : resp_provider r = OpenAI).
    { vm_compute in Hrun. by injection Hrun as _ <-. }
    rewrite Hp in Husage. exact Husage.
Defined.

(** ** Examples of the classifier and of the reply decoder *)

Example is_modification_request_with_anchor :
  is_modification_request no_unicode "fix the bug in the function above" false true
  = true.
Proof. reflexivity. Qed.

Example is_modification_request_without_anchor :
  is_modification_request no_unicode "fix the bug" false false = false.
Proof. reflexivity. Qed.

Example is_likely_code_request_small_talk :
  is_likely_code_request no_unicode "Sure thing, thanks" = false.
Proof. reflexivity. Qed.

(** A query with a character outside ASCII, here [ma], the Kelvin sign
    U+212A and [e it], is classified on what [str.lower] gives for it. *)
Example is_likely_code_request_unicode :
  let q := "ma" +:+ string_of_bytes [226; 132; 170] +:+ "e it" in
  is_ascii q = false
  /\ is_ascii "Make it" = true
  /\ is_likely_code_request (fun _ => "make it") q = true
  /\ is_likely_code_request (fun _ => q) q = false
  /\ is_likely_code_request (fun _ => q) "Make it" = true.
Proof. by split_and!. Qed.

Example strip_unicode_white_space :
  strip padded_reply = zero_width_space +:+ "Hello!"
  /\ strip (" " +:+ nl) = EmptyString
  /\ strip "a  b" = "a  b".
Proof. by split_and!. Qed.

Example decode_reply_without_braces :
  decode_reply (decoding untyped_payload) "Sure thing, no code needed."
  = inl "No JSON found".
Proof. reflexivity. Qed.

Example export_of_short_buffer :
  get_messages_for_api Claude
    (run_calls Claude [InjectExamples; AddMessage "user" "q1"]
               (new_buffer default_max_messages))
  = CLAUDE_EXAMPLES ++ [ {| role := "user"; content := Text "q1" |} ].
Proof. reflexivity. Qed.

(** * Further properties *)

(** ** The modification normalizer *)

Lemma dict_pairs_append k m d :
  dict_pairs (dict_append k m d) ≡ₚ dict_pairs d ++ [(k, m)].
Proof.
  induction d as [|[k' ms] d IH]; [done|].
  cbn [dict_append]. destruct (String.eqb_spec k' k) as [->|Hne].
  - unfold dict_pairs. simpl. rewrite map_app. simpl.
    rewrite <- !app_assoc. apply Permutation_app_head.
    change ((k, m) :: ?l) with ([(k, m)] ++ l). apply Permutation_app_comm.
  - unfold dict_pairs in *. simpl. rewrite IH. by rewrite app_assoc.
Qed.

Lemma dict_pairs_of_pairs ps : dict_pairs (dict_of_pairs ps) ≡ₚ ps.
Proof.
  induction ps as [|[k m] ps IH] using rev_ind; [done|].
  rewrite dict_of_pairs_snoc, dict_pairs_append. simpl. by rewrite IH.
Qed.

Lemma sort_modifications_pairs changes :
  path_modifications (sort_modifications changes)
  ≡ₚ dict_pairs (group_by_file changes).
Proof.
  unfold sort_modifications, path_modifications, dict_pairs.
  induction (group_by_file changes) as [|[k ms] d IH]; [done|].
  simpl. rewrite IH. apply Permutation_app_tail.
  unfold change_file, change_modifications. simpl.
  apply Permutation_map, sorted_reverse_perm.
Qed.

Lemma sort_modifications_keeps_pairs_aux changes :
  path_modifications (sort_modifications changes) ≡ₚ path_modifications changes.
Proof.
  rewrite sort_modifications_pairs, group_by_file_pairs.
  apply dict_pairs_of_pairs.
Qed.

(** X1: [sort_modifications] neither loses nor invents an edit: the (path,
    modification) pairs of its output are a permutation of those of its
    input, so each path keeps as many modifications as the input lists for
    it. *)
Theorem sort_modifications_keeps_pairs (changes : list Change) :
  path_modifications (sort_modifications changes) ≡ₚ path_modifications changes
  /\ length (path_modifications (sort_modifications changes))
     = length (path_modifications changes).
Proof.
  split; [apply sort_modifications_keeps_pairs_aux|].
  by rewrite sort_modifications_keeps_pairs_aux.
Qed.

Lemma insert_desc_head {A} (key : A -> Z) x l :
  Forall (fun y => (key y <= key x)%Z) l -> insert_desc key x l = x :: l.
Proof.
  destruct 1 as [|y l Hy _]; [done|]. simpl.
  by rewrite (proj2 (Z.leb_le _ _) Hy).
Qed.

Lemma sorted_reverse_of_sorted {A} (key : A -> Z) l :
  StronglySorted (fun a b => (key b <= key a)%Z) l -> sorted_reverse key l = l.
Proof.
  induction 1 as [|x l Hs IH Hx]; [done|]. simpl. rewrite IH.
  by apply insert_desc_head.
Qed.

Lemma sorted_reverse_idemp {A} (key : A -> Z) l :
  sorted_reverse key (sorted_reverse key l) = sorted_reverse key l.
Proof. apply sorted_reverse_of_sorted, sorted_reverse_sorted. Qed.

Lemma dict_append_fresh k m d :
  k ∉ d.*1 -> dict_append k m d = d ++ [(k, [m])].
Proof.
  induction d as [|[k' ms] d IH]; intros Hk; [done|].
  rewrite fmap_cons, not_elem_of_cons in Hk. destruct Hk as [Hne Hk].
  cbn [dict_append]. simpl in Hne.
  destruct (String.eqb_spec k' k) as [->|_]; [done|].
  by rewrite IH.
Qed.

Lemma dict_append_last k m l d :
  k ∉ d.*1 -> dict_append k m (d ++ [(k, l)]) = d ++ [(k, l ++ [m])].
Proof.
  induction d as [|[k' ms] d IH]; intros Hk.
  - simpl. by rewrite String.eqb_refl.
  - rewrite fmap_cons, not_elem_of_cons in Hk. destruct Hk as [Hne Hk].
    simpl in Hne |- *. destruct (String.eqb_spec k' k) as [->|_]; [done|].
    by rewrite IH.
Qed.

Lemma foldl_dict_append_last k l ms d :
  k ∉ d.*1 ->
  foldl (fun d pm => dict_append pm.1 pm.2 d) (d ++ [(k, l)])
        (map (fun m => (k, m)) ms)
  = d ++ [(k, l ++ ms)].
Proof.
  intros Hk. revert l. induction ms as [|m ms IH]; intros l.
  - by rewrite app_nil_r.
  - simpl. rewrite dict_append_last by done. rewrite IH.
    by rewrite <- app_assoc.
Qed.

(** Grouping the pairs of a dictionary with distinct keys and no empty list
    gives the dictionary back. *)
Lemma foldl_dict_pairs d : forall acc,
  NoDup (acc.*1 ++ d.*1) ->
  Forall (fun e => e.2 <> []) d ->
  foldl (fun d pm => dict_append pm.1 pm.2 d) acc (dict_pairs d) = acc ++ d.
Proof.
  induction d as [|[k ms] d IH]; intros acc Hnd Hne.
  - by rewrite app_nil_r.
  - apply Forall_cons in Hne as [Hms Hne]. simpl in Hms.
    destruct ms as [|m ms]; [done|].
    unfold dict_pairs in *. simpl. rewrite foldl_app.
    assert (Hk : k ∉ acc.*1).
    { apply NoDup_app in Hnd as (_ & Hdisj & _). intros Hin.
      apply (Hdisj k Hin). rewrite fmap_cons. by left. }
    rewrite dict_append_fresh by done.
    rewrite (foldl_dict_append_last k [m] ms acc Hk).
    rewrite IH; [by rewrite <- app_assoc | | done].
    rewrite fmap_app. simpl. rewrite <- app_assoc. exact Hnd.
Qed.

Lemma dict_append_nonempty k m d :
  Forall (fun e => e.2 <> []) d -> Forall (fun e => e.2 <> []) (dict_append k m d).
Proof.
  induction 1 as [|[k' ms] d Hms Hd IH]; simpl.
  - by repeat constructor.
  - destruct (String.eqb k' k).
    + constructor; [|done]. simpl. intros Heq. by apply app_eq_nil in Heq as [_ ?].
    + by constructor.
Qed.

Lemma group_by_file_nonempty changes :
  Forall (fun e => e.2 <> []) (group_by_file changes).
Proof.
  rewrite group_by_file_pairs.
  induction (path_modifications changes) as [|pm ps IH] using rev_ind;
    [constructor|].
  rewrite dict_of_pairs_snoc. by apply dict_append_nonempty.
Qed.

Lemma group_by_file_NoDup changes : NoDup (group_by_file changes).*1.
Proof.
  rewrite group_by_file_pairs, dict_of_pairs_keys. apply first_appearances_NoDup.
Qed.

Lemma sort_modifications_idempotent_aux (changes : list Change) :
  sort_modifications (sort_modifications changes) = sort_modifications changes.
Proof.
  set (d := group_by_file changes).
  set (d' := map (fun e => (e.1, sorted_reverse sort_key e.2)) d).
  assert (Hout : path_modifications (sort_modifications changes) = dict_pairs d').
  { unfold sort_modifications, path_modifications, dict_pairs. fold d. subst d'.
    induction d as [|[k ms] d IH]; [done|]. simpl. by rewrite IH. }
  assert (Hkeys : d'.*1 = d.*1).
  { subst d'. clear Hout. induction d as [|[k ms] d IH]; [done|].
    simpl. f_equal. exact IH. }
  assert (Hgroup : group_by_file (sort_modifications changes) = d').
  { rewrite group_by_file_pairs, Hout. unfold dict_of_pairs.
    rewrite (foldl_dict_pairs d' []); [done | |].
    - simpl. rewrite Hkeys. apply group_by_file_NoDup.
    - subst d'. apply Forall_forall.
      intros e (e0 & <- & He0)%list_elem_of_In%in_map_iff. simpl.
      pose proof (group_by_file_nonempty changes) as Hne.
      apply list_elem_of_In in He0.
      apply (proj1 (Forall_forall _ _) Hne) in He0.
      intros Hnil. apply He0.
      apply Permutation_nil_r. rewrite <- Hnil. symmetry.
      apply sorted_reverse_perm. }
  unfold sort_modifications at 1. rewrite Hgroup. subst d'.
  unfold sort_modifications. fold d. rewrite map_map.
  apply map_ext. intros [k ms]. simpl. by rewrite sorted_reverse_idemp.
Qed.

(** X2: normalizing twice changes nothing: [sort_modifications] returns its
    own output as it is. *)
Theorem sort_modifications_idempotent (changes : list Change) :
  sort_modifications (sort_modifications changes) = sort_modifications changes.
Proof. apply sort_modifications_idempotent_aux. Qed.

(** X3: the output of [sort_modifications] is empty exactly when no input
    entry lists a modification, and no output entry has an empty
    modification list or a [content] key. *)
Theorem sort_modifications_no_empty_entry (changes : list Change) :
  (sort_modifications changes = []
   <-> Forall (fun c => change_modifications c = []) changes)
  /\ Forall (fun c => change_modifications c <> [] /\ file_content c = None)
            (sort_modifications changes).
Proof.
  split.
  - split.
    + intros Hnil. apply Forall_forall. intros c Hc.
      destruct (change_modifications c) as [|m ms] eqn:E; [done|]. exfalso.
      assert (Hin : change_file c ∈ modified_paths changes).
      { apply elem_of_modified_paths. exists c. by rewrite E. }
      apply first_appearances_elem in Hin.
      pose proof (sort_modifications_files changes) as Hfiles.
      rewrite Hnil in Hfiles. simpl in Hfiles.
      destruct (first_appearances (modified_paths changes)); [|done].
      by apply elem_of_nil in Hin.
    + intros Hall. unfold sort_modifications.
      assert (group_by_file changes = []) as ->; [|done].
      rewrite group_by_file_pairs.
      assert (path_modifications changes = []) as ->; [|done].
      unfold path_modifications. induction Hall as [|c cs Hc _ IH]; [done|].
      simpl. by rewrite Hc, IH.
  - unfold sort_modifications. apply Forall_forall.
    intros c (e & <- & He)%list_elem_of_In%in_map_iff.
    split; [|done]. unfold change_modifications. simpl.
    pose proof (group_by_file_nonempty changes) as Hne.
    apply list_elem_of_In in He.
    apply (proj1 (Forall_forall _ _) Hne) in He.
    intros Hnil. apply He. apply Permutation_nil_r. rewrite <- Hnil.
    symmetry. apply sorted_reverse_perm.
Qed.

(** ** [remove_old_content] *)

Lemma remove_old_content_eq p :
  remove_old_content p
  = if bool_decide (payload_type p = Some "code_changes") then
      match payload_changes p with
      | Some changes =>
          {| payload_type := payload_type p;
             payload_changes :=
               Some (map (fun change =>
                            {| file := file change;
                               file_content := file_content change;
                               modifications :=
                                 map pop_old_content <$> modifications change |})
                         changes);
             payload_summary := payload_summary p |}
      | None => p
      end
    else p.
Proof.
  unfold remove_old_content. case_bool_decide as H.
  - by rewrite H.
  - repeat case_match; try done; exfalso; apply H; congruence.
Qed.

Lemma pop_old_content_stripped ms :
  Forall2 stripped_of ms (map pop_old_content ms).
Proof. induction ms as [|m ms IH]; constructor; [by repeat split | done]. Qed.

(** X4: [remove_old_content] returns a payload whose type is not
    [code_changes] as it is, whatever its modifications hold; on a
    [code_changes] payload it keeps the type, the summary, and every change
    with its file and every modification with its operation, lines and new
    content, and no modification carries [old_content] any more; applying
    it twice is applying it once. *)
Theorem remove_old_content_strips (p : Payload) :
  (payload_type p <> Some "code_changes" -> remove_old_content p = p)
  /\ (payload_type p = Some "code_changes" ->
      payload_type (remove_old_content p) = payload_type p
      /\ payload_summary (remove_old_content p) = payload_summary p
      /\ match payload_changes p with
         | Some changes =>
             exists changes',
               payload_changes (remove_old_content p) = Some changes'
               /\ Forall2 change_stripped_of changes changes'
               /\ no_old_content changes'
         | None => payload_changes (remove_old_content p) = None
         end)
  /\ remove_old_content (remove_old_content p) = remove_old_content p.
Proof.
  rewrite !remove_old_content_eq. split_and!.
  - intros H. by rewrite bool_decide_eq_false_2.
  - intros H. rewrite bool_decide_eq_true_2 by done.
    destruct (payload_changes p) as [changes|] eqn:E; rewrite ?E; [|done].
    simpl. split_and!; [done | done |]. eexists. split; [done|]. split.
    + clear E. induction changes as [|c cs IH]; constructor; [|done].
      unfold change_stripped_of, change_modifications. simpl.
      split_and!; [done | done | by destruct (modifications c) |].
      destruct (modifications c); simpl;
        [apply pop_old_content_stripped | constructor].
    + unfold no_old_content. clear E.
      induction changes as [|c cs IH]; constructor; [|done].
      unfold change_modifications. simpl.
      destruct (modifications c) as [ms|]; simpl; [|constructor].
      induction ms; constructor; done.
  - destruct (decide (payload_type p = Some "code_changes")) as [H|H];
      [|rewrite (bool_decide_eq_false_2 _ H); cbn beta iota;
        by rewrite (bool_decide_eq_false_2 _ H)].
    rewrite (bool_decide_eq_true_2 _ H).
    destruct (payload_changes p) as [changes|] eqn:E.
    + cbn [payload_type payload_changes payload_summary].
      rewrite (bool_decide_eq_true_2 _ H). f_equal. f_equal.
      rewrite map_map. apply map_ext. intros c. simpl. f_equal.
      destruct (modifications c) as [ms|]; [|done]. simpl. f_equal.
      rewrite map_map. by apply map_ext.
    + by rewrite (bool_decide_eq_true_2 _ H), E.
Qed.

Lemma remove_old_content_strips_witness :
  remove_old_content unknown_payload = unknown_payload.
Proof.
  apply (proj1 (remove_old_content_strips unknown_payload)). discriminate.
Defined.

Lemma sort_modifications_no_old_content changes :
  no_old_content changes -> no_old_content (sort_modifications changes).
Proof.
  intros Hno.
  assert (Hpairs : Forall (fun pm => old_content pm.2 = None)
                          (path_modifications changes)).
  { unfold path_modifications. induction Hno as [|c cs Hc _ IH]; [constructor|].
    simpl. apply Forall_app. split; [|done].
    induction Hc; constructor; done. }
  rewrite <- (sort_modifications_keeps_pairs_aux changes) in Hpairs.
  unfold no_old_content. apply Forall_forall. intros c Hc.
  apply Forall_forall. intros m Hm.
  apply (proj1 (Forall_forall _ _) Hpairs (change_file c, m)).
  unfold path_modifications. apply list_elem_of_In, in_flat_map.
  exists c. split; [by apply list_elem_of_In|].
  apply in_map_iff. exists m. split; [done | by apply list_elem_of_In].
Qed.

(** ** The conversation buffer: export and retention *)

Lemma py_slice_to_from {A} i (l : list A) :
  py_slice_to i l ++ py_slice_from i l = l.
Proof. unfold py_slice_to, py_slice_from. apply take_drop. Qed.

Lemma exported_as_refl l : Forall2 exported_as l l.
Proof. apply Forall_Forall2_diag, Forall_forall. intros m _. by left. Qed.

Lemma format_cacheable_exported l : Forall2 exported_as l (format_cacheable l).
Proof.
  destruct l as [|x l] using rev_ind; [constructor|].
  rewrite format_cacheable_snoc. apply Forall2_app; [apply exported_as_refl|].
  constructor; [by right | constructor].
Qed.

Lemma with_cache_control_role m : role (with_cache_control m) = role m.
Proof. done. Qed.

(** X5: [get_messages_for_api] of either buffer class, on any buffer, returns
    one message for each stored message, in order: the stored message itself
    or the stored message with its content wrapped in a cache-control block.
    So the export has the length and the roles of the store. *)
Theorem export_keeps_messages (p : Provider) (b : ConversationBuffer) :
  Forall2 exported_as (messages b) (get_messages_for_api p b)
  /\ length (get_messages_for_api p b) = length (messages b)
  /\ map role (get_messages_for_api p b) = map role (messages b).
Proof.
  assert (H : Forall2 exported_as (messages b) (get_messages_for_api p b)).
  { destruct p; simpl; [|apply exported_as_refl].
    unfold claude_get_messages_for_api.
    destruct (_ <=? 3); [apply exported_as_refl|].
    destruct (examples_injected b).
    - destruct (_ <=? 3); [apply exported_as_refl|].
      rewrite <- (py_slice_to_from 2 (messages b)) at 1.
      apply Forall2_app; [apply exported_as_refl|].
      rewrite <- (py_slice_to_from (-3) (py_slice_from 2 (messages b))) at 1.
      apply Forall2_app; [apply format_cacheable_exported | apply exported_as_refl].
    - rewrite <- (py_slice_to_from (-3) (messages b)) at 1.
      apply Forall2_app; [apply format_cacheable_exported | apply exported_as_refl]. }
  split_and!; [done | symmetry; by eapply Forall2_length |].
  induction H as [|m m' l l' [->| ->] _ IH]; simpl; by rewrite ?IH.
Qed.

(** X6: a buffer of at most three messages, a primed Claude buffer of at most
    five, and every OpenAI buffer are exported as they are stored. *)
Theorem export_threshold (p : Provider) (b : ConversationBuffer) :
  p = OpenAI
  \/ length (messages b) <= 3
  \/ (examples_injected b = true /\ length (messages b) <= 5) ->
  get_messages_for_api p b = messages b.
Proof.
  intros H. destruct p; [|done]. simpl. unfold claude_get_messages_for_api.
  destruct (length (messages b) <=? 3) eqn:E3; [done|].
  apply Nat.leb_gt in E3.
  destruct H as [?|[?|[Hinj Hlen]]]; [done | lia |].
  rewrite Hinj. change 2%Z with (Z.of_nat 2). rewrite py_slice_from_nat.
  rewrite length_drop.
  destruct (_ <=? 3) eqn:E; [done|]. apply Nat.leb_gt in E. lia.
Qed.

Lemma export_threshold_witness :
  get_messages_for_api Claude
    (run_calls Claude
       (InjectExamples
        :: add_calls [("user", "q1"); ("assistant", "a1"); ("user", "q2")])
       (new_buffer default_max_messages))
  = CLAUDE_EXAMPLES
    ++ [ {| role := "user"; content := Text "q1" |};
         {| role := "assistant"; content := Text "a1" |};
         {| role := "user"; content := Text "q2" |} ].
Proof.
  apply (export_threshold Claude
           (run_calls Claude
              (InjectExamples
               :: add_calls [("user", "q1"); ("assistant", "a1"); ("user", "q2")])
              (new_buffer default_max_messages))).
  right. right. split; [reflexivity | simpl; lia].
Defined.

(** A buffer that is not primed holds plain text only. *)
Lemma unprimed_plain p calls : forall b,
  (examples_injected b = false -> Forall (fun m => is_plain_text m = true) (messages b)) ->
  examples_injected (run_calls p calls b) = false ->
  Forall (fun m => is_plain_text m = true) (messages (run_calls p calls b)).
Proof.
  induction calls as [|c calls IH]; intros b Hb; [done|].
  rewrite run_calls_cons. apply IH. destruct c as [|r c|]; simpl.
  - unfold inject_examples. destruct (_ && _); [done | exact Hb].
  - rewrite add_message_injected. intros Hinj. unfold add_message.
    apply _trim_if_needed_Forall. simpl. apply Forall_app. split; [by apply Hb|].
    by repeat constructor.
  - intros _. constructor.
Qed.

(** X7: a Claude buffer that is not primed and holds more than three
    messages is exported with exactly one cache-control marker, on the
    fourth-from-last message, which is exported wrapped in a marked block;
    every other message is exported as stored. *)
Theorem unprimed_cache_boundary (cap : Z) (calls : list BufferCall) :
  let b := run_calls Claude calls (new_buffer cap) in
  examples_injected b = false ->
  3 < length (messages b) ->
  let out := get_messages_for_api Claude b in
  let boundary := length (messages b) - 4 in
  marked_positions out = [boundary]
  /\ (exists m, messages b !! boundary = Some m
                /\ out !! boundary = Some (with_cache_control m))
  /\ (forall i, i <> boundary -> out !! i = messages b !! i).
Proof.
  intros b Hinj Hlen out boundary.
  assert (Hplain : Forall (fun m => is_plain_text m = true) (messages b)).
  { apply unprimed_plain; [by intros _; constructor | done]. }
  destruct (split_recent (messages b) Hlen)
    as (older & x & recent & Hms & Hrec & Hto & Hfrom).
  assert (Hout : out = older ++ with_cache_control x :: recent).
  { subst out. simpl. unfold claude_get_messages_for_api.
    destruct (length (messages b) <=? 3) eqn:E3;
      [apply Nat.leb_le in E3; lia|].
    rewrite Hinj, Hto, Hfrom, format_cacheable_snoc. by rewrite <- app_assoc. }
  assert (Hms' : messages b = older ++ x :: recent) by done.
  assert (Hb : boundary = length older).
  { subst boundary. rewrite Hms', length_app. simpl. lia. }
  rewrite Hms' in Hplain. apply Forall_app in Hplain as [Hold Hplain].
  apply Forall_cons in Hplain as [_ Hrecent].
  split_and!.
  - rewrite Hout. unfold marked_positions.
    rewrite marked_from_app, (marked_from_plain _ older) by done.
    simpl. rewrite (marked_from_plain _ recent) by done. by rewrite Hb.
  - exists x. rewrite Hms', Hout, Hb. by rewrite !list_lookup_middle.
  - intros i Hi. rewrite Hms', Hout. apply lookup_middle_ne. by rewrite <- Hb.
Qed.

Lemma unprimed_cache_boundary_witness :
  marked_positions
    (get_messages_for_api Claude
       (run_calls Claude
          (add_calls [("user", "q1"); ("assistant", "a1"); ("user", "q2");
                      ("assistant", "a2"); ("user", "q3")])
          (new_buffer default_max_messages)))
  = [1].
Proof.
  refine (proj1 (unprimed_cache_boundary default_max_messages
    (add_calls [("user", "q1"); ("assistant", "a1"); ("user", "q2");
                ("assistant", "a2"); ("user", "q3")]) _ _)).
  - reflexivity.
  - simpl. lia.
Defined.

(** One [add_message] on a primed buffer of capacity three or more: what
    follows the pair is a tail of the conversation with the new message, of
    at most [cap - 2] messages, and at least [cap - 3] when something was
    trimmed. *)
Lemma add_message_primed_tail r c cap e0 e1 rest :
  (3 <= cap)%Z ->
  exists rest',
    messages (add_message r c {| messages := e0 :: e1 :: rest;
                                 max_messages := cap;
                                 examples_injected := true |})
    = e0 :: e1 :: rest'
    /\ rest' `suffix_of` rest ++ [ {| role := r; content := Text c |} ]
    /\ length rest' <= Z.to_nat cap - 2
    /\ (length rest + 1) `min` (Z.to_nat cap - 3) <= length rest'.
Proof.
  intros Hcap. remember {| role := r; content := Text c |} as m eqn:Em.
  unfold add_message, _trim_if_needed. simpl messages. simpl max_messages.
  simpl examples_injected. rewrite <- Em.
  remember (rest ++ [m]) as rest1 eqn:Erest1.
  assert (Hlen1 : length rest1 = length rest + 1).
  { subst rest1. rewrite length_app. simpl. lia. }
  change (S (S (length rest1))) with (length (e0 :: e1 :: rest1)).
  destruct (cap <? Z.of_nat (length (e0 :: e1 :: rest1)))%Z eqn:Etrim;
    simpl messages.
  2:{ apply Z.ltb_ge in Etrim. simpl length in Etrim.
      exists rest1. split_and!; [done | done | lia | lia]. }
  apply Z.ltb_lt in Etrim. simpl length in Etrim.
  change 2%Z with (Z.of_nat 2) at 1. rewrite py_slice_to_nat.
  change (take 2 (e0 :: e1 :: rest1)) with [e0; e1].
  rewrite (py_slice_from_neg (cap - 2)) by lia.
  replace (length (e0 :: e1 :: rest1) - Z.to_nat (cap - 2))
    with (2 + (length rest1 + 2 - Z.to_nat cap)) by (simpl length in *; lia).
  change (drop (2 + ?k) (e0 :: e1 :: rest1)) with (drop k rest1).
  set (suf := drop (length rest1 + 2 - Z.to_nat cap) rest1).
  assert (Hsuf : suf `suffix_of` rest1) by apply suffix_drop.
  assert (Hsuf_len : length suf = Z.to_nat cap - 2).
  { subst suf. rewrite length_drop. lia. }
  rewrite drop_third_unless_user_eq.
  change (([e0; e1] ++ suf) !! 2) with (suf !! 0).
  change (take 2 ([e0; e1] ++ suf)) with [e0; e1].
  change (drop 3 ([e0; e1] ++ suf)) with (drop 1 suf).
  destruct (suf !! 0) as [h|];
    [|exists suf; split_and!; [done | done | lia | lia]].
  destruct (decide (role h = "user"));
    [exists suf; split_and!; [done | done | lia | lia]|].
  exists (drop 1 suf). split_and!; [done | | |].
  - etrans; [apply suffix_drop | exact Hsuf].
  - rewrite length_drop. lia.
  - rewrite length_drop. lia.
Qed.

Lemma run_calls_snoc p calls c b :
  run_calls p (calls ++ [c]) b = run_call p (run_calls p calls b) c.
Proof. unfold run_calls. by rewrite foldl_snoc. Qed.

(** X8: on a primed buffer of capacity at least 3, after any sequence of
    [add_message] calls the store is the priming pair followed by a tail of
    the messages added so far, in the order they were added: nothing but the
    oldest messages is ever dropped. The tail holds at most
    [max_messages - 2] messages, and at least [max_messages - 3] of them once
    that many were added. *)
Theorem history_is_recent_tail (p : Provider) (cap : Z)
    (turns : list (string * string)) :
  (3 <= cap)%Z ->
  exists conv,
    messages (run_calls p (add_calls turns) (inject_examples p (new_buffer cap)))
    = EXAMPLES p ++ conv
    /\ conv `suffix_of` map message_of_turn turns
    /\ length conv <= Z.to_nat cap - 2
    /\ length turns `min` (Z.to_nat cap - 3) <= length conv.
Proof.
  intros Hcap. induction turns as [|[r c] turns IH] using rev_ind.
  - exists []. split_and!; [by rewrite app_nil_r | done | simpl; lia | simpl; lia].
  - destruct IH as (conv & Hms & Hsuf & Hle & Hge).
    unfold add_calls. rewrite map_app. simpl.
    rewrite run_calls_snoc. simpl. fold (add_calls turns).
    set (b := run_calls p (add_calls turns) (inject_examples p (new_buffer cap))) in *.
    assert (Hinj : examples_injected b = true).
    { subst b. by rewrite add_calls_injected. }
    assert (Hmax : max_messages b = cap).
    { subst b. by rewrite run_calls_max. }
    assert (exists e0 e1, EXAMPLES p = [e0; e1]) as (e0 & e1 & Hex)
      by (destruct p; eauto).
    rewrite Hex in *. clearbody b. destruct b as [ms cap' inj].
    simpl in Hms, Hinj, Hmax. subst ms cap' inj.
    destruct (add_message_primed_tail r c cap e0 e1 conv Hcap)
      as (rest' & -> & Hsuf' & Hle' & Hge').
    exists rest'. split_and!; [done | | done |].
    + rewrite map_app. simpl. etrans; [exact Hsuf'|].
      by apply suffix_app.
    + rewrite length_app. simpl. lia.
Qed.

Lemma history_is_recent_tail_witness :
  exists conv,
    messages (run_calls Claude
                (add_calls [("user", "q1"); ("assistant", "a1"); ("user", "q2")])
                (inject_examples Claude (new_buffer 4)))
    = CLAUDE_EXAMPLES ++ conv
    /\ conv `suffix_of` [ {| role := "user"; content := Text "q1" |};
                          {| role := "assistant"; content := Text "a1" |};
                          {| role := "user"; content := Text "q2" |} ]
    /\ 1 <= length conv <= 2.
Proof.
  destruct (history_is_recent_tail Claude 4
              [("user", "q1"); ("assistant", "a1"); ("user", "q2")])
    as (conv & Hms & Hsuf & Hle & Hge); [lia|].
  exists conv. split_and!; [exact Hms | exact Hsuf | | ].
  - simpl in Hge. lia.
  - simpl in Hle. lia.
Defined.

(** ** The request handler: sessions *)

Lemma same_elsewhere_refl p sid st : same_elsewhere p sid st st.
Proof. by split. Qed.

Lemma same_elsewhere_trans p sid st1 st2 st3 :
  same_elsewhere p sid st1 st2 -> same_elsewhere p sid st2 st3 ->
  same_elsewhere p sid st1 st3.
Proof.
  intros [H1 H1'] [H2 H2']. split.
  - intros p' sid' H. by rewrite H2, H1.
  - intros sid' H. by rewrite H2', H1'.
Qed.

Lemma same_elsewhere_set_conversation p sid st b :
  same_elsewhere p sid st (set_conversation st p sid b).
Proof.
  split; [|by destruct p].
  intros p' sid' H. destruct p, p'; simpl; try done;
    apply lookup_insert_ne; intros ->; by destruct H.
Qed.

Lemma same_elsewhere_set_generated_code p sid st v :
  same_elsewhere p sid st (set_generated_code st sid v).
Proof.
  split; [by intros []|]. intros sid' H. simpl. by apply lookup_insert_ne.
Qed.

Lemma conversations_set_generated_code st sid v p :
  conversations (set_generated_code st sid v) p = conversations st p.
Proof. by destruct p. Qed.

Lemma generated_code_set_conversation st p sid b :
  generated_code (set_conversation st p sid b) = generated_code st.
Proof. by destruct p. Qed.

Lemma same_elsewhere_ensure_session p sid st :
  same_elsewhere p sid st (ensure_session st p sid).1.
Proof.
  unfold ensure_session. destruct (conversations st p !! sid); simpl.
  - apply same_elsewhere_refl.
  - eapply same_elsewhere_trans;
      [apply same_elsewhere_set_conversation
      |apply same_elsewhere_set_generated_code].
Qed.

Section HandlerMore.
Context (unicode_lower : string -> string).
Context (call_api : Provider -> list Message -> string -> string
                    -> string + (string * gmap string Z)).
Context (json_loads : string -> string + Payload).
Context (json_dumps : Payload -> string).
Context (dumps_tree : WorkspaceTree -> string).

Lemma begin_turn_provider st req :
  turn_provider (begin_turn unicode_lower dumps_tree st req)
  = determine_provider (effective_model_name req)
  /\ turn_model_name (begin_turn unicode_lower dumps_tree st req) = effective_model_name req.
Proof. unfold begin_turn. by destruct (ensure_session _ _ _). Qed.

Lemma begin_turn_same_elsewhere st req :
  same_elsewhere (determine_provider (effective_model_name req)) (session_id req)
                 st (turn_state (begin_turn unicode_lower dumps_tree st req)).
Proof.
  unfold begin_turn.
  pose proof (same_elsewhere_ensure_session
                (determine_provider (effective_model_name req)) (session_id req) st)
    as H.
  destruct (ensure_session _ _ _) as [st1 b]. simpl in *.
  eapply same_elsewhere_trans; [exact H | apply same_elsewhere_set_conversation].
Qed.

Lemma finish_turn_state req t response usage :
  let st' := (finish_turn unicode_lower json_loads json_dumps req t response usage).1 in
  conversations st' (turn_provider t) !! session_id req
  = Some (add_message "assistant" response (turn_buffer t))
  /\ same_elsewhere (turn_provider t) (session_id req) (turn_state t) st'.
Proof.
  unfold finish_turn.
  set (st3 := set_conversation _ _ _ _).
  assert (H3 : conversations st3 (turn_provider t) !! session_id req
               = Some (add_message "assistant" response (turn_buffer t)))
    by apply conversations_set.
  assert (S3 : same_elsewhere (turn_provider t) (session_id req) (turn_state t) st3)
    by apply same_elsewhere_set_conversation.
  destruct (decode_reply json_loads response).
  - by destruct (negb _).
  - simpl. case_bool_decide; [|done]. split.
    + by rewrite conversations_set_generated_code.
    + eapply same_elsewhere_trans;
        [exact S3 | apply same_elsewhere_set_generated_code].
Qed.

Lemma process_chat_request_isolated_aux st req :
  same_elsewhere (determine_provider (effective_model_name req)) (session_id req)
    st (process_chat_request unicode_lower call_api json_loads json_dumps dumps_tree st req).1.
Proof.
  unfold process_chat_request.
  pose proof (begin_turn_same_elsewhere st req) as Hb.
  destruct (begin_turn_provider st req) as [Hp _].
  destruct (provider_call _ _) as [e|[response usage]]; [exact Hb|].
  destruct (finish_turn_state req (begin_turn unicode_lower dumps_tree st req) response usage)
    as [_ Hf].
  rewrite Hp in Hf.
  destruct (finish_turn _ _ _ _ _ _ _) as [st' r]. simpl in *.
  eapply same_elsewhere_trans; [exact Hb | exact Hf].
Qed.

(** X9: a call of [process_chat_request], whatever it ends in, touches the
    buffer of one provider for one session and the stored code of that
    session only: every other buffer (other sessions, and the other
    provider's buffer of the same session) and the stored code of every
    other session are as before. *)
Theorem process_chat_request_isolated (st : AppState) (req : ChatRequest) :
  let st' := (process_chat_request unicode_lower call_api json_loads json_dumps dumps_tree
                                   st req).1 in
  let p := determine_provider (effective_model_name req) in
  (forall p' sid', p' <> p \/ sid' <> session_id req ->
                   conversations st' p' !! sid' = conversations st p' !! sid')
  /\ (forall sid', sid' <> session_id req ->
                   generated_code st' !! sid' = generated_code st !! sid').
Proof. apply process_chat_request_isolated_aux. Qed.

End HandlerMore.

(** ** The request handler: what a turn leaves in the store *)

Lemma primed_add_message p r c b :
  examples_injected b = true ->
  take 2 (messages b) = EXAMPLES p ->
  examples_injected (add_message r c b) = true
  /\ take 2 (messages (add_message r c b)) = EXAMPLES p.
Proof.
  intros Hinj Htake. split; [by rewrite add_message_injected|].
  assert (exists e0 e1, EXAMPLES p = [e0; e1]) as (e0 & e1 & Hex)
    by (destruct p; eauto).
  rewrite Hex in *.
  destruct (messages b) as [|x [|y rest]] eqn:Hms; [done | done |].
  simpl in Htake. injection Htake as -> ->.
  destruct (add_message_primed_buffer r c b e0 e1 rest Hms Hinj) as (rest' & -> & _).
  done.
Qed.

Lemma suffix_drop_le {A} (l L : list A) k :
  l `suffix_of` L -> k + length l <= length L -> l `suffix_of` drop k L.
Proof.
  intros [pre ->] Hk. rewrite length_app in Hk.
  rewrite drop_app_le by lia. by apply suffix_app_r.
Qed.

Lemma drop_third_unless_user_suffix l kept :
  l `suffix_of` kept -> 3 + length l <= length kept ->
  l `suffix_of` drop_third_unless_user kept.
Proof.
  intros Hl Hlen. rewrite drop_third_unless_user_eq.
  destruct (kept !! 2) as [h|]; [|done]. destruct (decide _); [done|].
  by apply suffix_app_r, suffix_drop_le.
Qed.

(** With a capacity of five or more, an [add_message] keeps the last two
    messages of the list it has appended to. *)
Lemma add_message_suffix r c b l :
  (5 <= max_messages b)%Z ->
  l `suffix_of` messages b ++ [ {| role := r; content := Text c |} ] ->
  length l <= 2 ->
  l `suffix_of` messages (add_message r c b).
Proof.
  intros Hcap Hl Hlen. unfold add_message, _trim_if_needed.
  simpl messages. simpl max_messages. simpl examples_injected.
  set (ms := messages b ++ [ {| role := r; content := Text c |} ]) in *.
  destruct (_ <? _)%Z eqn:Etrim; simpl messages; [|done].
  apply Z.ltb_lt in Etrim.
  destruct (examples_injected b).
  - change 2%Z with (Z.of_nat 2). rewrite py_slice_to_nat.
    rewrite (py_slice_from_neg (max_messages b - Z.of_nat 2)) by lia.
    apply drop_third_unless_user_suffix.
    + apply suffix_app_r, suffix_drop_le; [done | lia].
    + rewrite length_app, length_take, length_drop. lia.
  - rewrite (py_slice_from_neg (max_messages b)) by lia.
    apply drop_third_unless_user_suffix.
    + apply suffix_drop_le; [done | lia].
    + rewrite length_drop. lia.
Qed.

Lemma provider_of_key_key p : provider_of_key (provider_key p) = Some p.
Proof. by destruct p. Qed.

Section HandlerStore.
Context (unicode_lower : string -> string).
Context (call_api : Provider -> list Message -> string -> string
                    -> string + (string * gmap string Z)).
Context (json_loads : string -> string + Payload).
Context (json_dumps : Payload -> string).
Context (dumps_tree : WorkspaceTree -> string).

Lemma begin_turn_primed st req :
  all_primed st ->
  examples_injected (turn_buffer (begin_turn unicode_lower dumps_tree st req)) = true
  /\ take 2 (messages (turn_buffer (begin_turn unicode_lower dumps_tree st req)))
     = EXAMPLES (turn_provider (begin_turn unicode_lower dumps_tree st req)).
Proof.
  intros Hst. unfold begin_turn.
  set (p := determine_provider (effective_model_name req)).
  assert (Hb : forall b, (ensure_session st p (session_id req)).2 = b ->
                         (examples_injected b = true /\ take 2 (messages b) = EXAMPLES p)
                         \/ b = new_buffer default_max_messages).
  { intros b <-. unfold ensure_session.
    destruct (conversations st p !! session_id req) as [b|] eqn:E; simpl.
    - left. by eapply Hst.
    - by right. }
  destruct (ensure_session st p (session_id req)) as [st1 b]. simpl in *.
  apply primed_add_message.
  - destruct (Hb b eq_refl) as [[Hinj _]| ->];
      [rewrite Hinj; simpl; exact Hinj | reflexivity].
  - destruct (Hb b eq_refl) as [[Hinj Htake]| ->];
      [rewrite Hinj; simpl; exact Htake|].
    simpl. clear. subst p. by destruct (determine_provider _).
Qed.

(** The buffer of the request's session after the call. *)
Lemma process_chat_request_buffer st req :
  let out := process_chat_request unicode_lower call_api json_loads json_dumps dumps_tree st req in
  let t := begin_turn unicode_lower dumps_tree st req in
  conversations out.1 (turn_provider t) !! session_id req
  = Some match provider_call call_api t with
         | inl _ => turn_buffer t
         | inr (response, _) => add_message "assistant" response (turn_buffer t)
         end.
Proof.
  intros out t. subst out. unfold process_chat_request. fold t.
  destruct (provider_call call_api t) as [e|[response usage]].
  - apply begin_turn_buffer.
  - destruct (finish_turn_state unicode_lower json_loads json_dumps req t response usage)
      as [Hf _].
    by destruct (finish_turn _ _ _ _ _ _ _).
Qed.

Lemma process_chat_request_primed st req :
  all_primed st ->
  all_primed (process_chat_request unicode_lower call_api json_loads json_dumps dumps_tree
                                   st req).1.
Proof.
  intros Hst p sid b Hb.
  destruct (begin_turn_provider unicode_lower dumps_tree st req) as [Hp _].
  destruct (decide (p = determine_provider (effective_model_name req)
                    /\ sid = session_id req)) as [[-> ->]|Hne].
  - rewrite <- Hp, process_chat_request_buffer in Hb. injection Hb as <-.
    destruct (begin_turn_primed st req Hst) as [Hinj Htake]. rewrite <- Hp.
    destruct (provider_call _ _) as [e|[response usage]]; [done|].
    by apply primed_add_message.
  - destruct (process_chat_request_isolated_aux unicode_lower call_api json_loads
                json_dumps dumps_tree st req) as [Hiso _].
    rewrite Hiso in Hb; [by eapply Hst|].
    destruct (decide (p = determine_provider (effective_model_name req)));
      [right | by left]. intros ->. by apply Hne.
Qed.

(** X10: the handler primes every buffer it stores. From a state in which
    every stored buffer is primed (the initial state is one), the state
    after a call, whatever the call ends in, is such a state again, and
    [get_history] for the request's session and provider gives a history that
    starts with the priming pair of the provider, with [examples_cached]
    true. *)
Theorem history_starts_with_priming_pair (st : AppState) (req : ChatRequest) :
  all_primed st ->
  let st' := (process_chat_request unicode_lower call_api json_loads json_dumps dumps_tree
                                   st req).1 in
  let p := determine_provider (effective_model_name req) in
  all_primed st'
  /\ exists h,
       get_history st' (session_id req) (provider_key p) = Some h
       /\ take 2 (hist_messages h) = EXAMPLES p
       /\ hist_examples_cached h = Some true
       /\ hist_session_id h = Some (session_id req).
Proof.
  intros Hst st' p.
  assert (Hst' : all_primed st') by by apply process_chat_request_primed.
  split; [done|].
  destruct (begin_turn_provider unicode_lower dumps_tree st req) as [Hp _].
  pose proof (process_chat_request_buffer st req) as Hb. simpl in Hb.
  rewrite Hp in Hb. fold p st' in Hb.
  unfold get_history. rewrite provider_of_key_key, Hb.
  destruct (Hst' p (session_id req) _ Hb) as [Hinj Htake].
  eexists. split; [done|]. simpl. by rewrite Hinj.
Qed.

(** X11: a turn whose provider call returned leaves the session's buffer
    ending with the user message of the turn followed by the assistant
    message holding the reply, when the store has default capacities. *)
Theorem completed_turn_ends_buffer (st : AppState) (req : ChatRequest)
    (response : string) (usage : gmap string Z) :
  default_capacity st ->
  provider_call call_api (begin_turn unicode_lower dumps_tree st req)
  = inr (response, usage) ->
  let st' := (process_chat_request unicode_lower call_api json_loads json_dumps dumps_tree
                                   st req).1 in
  let t := begin_turn unicode_lower dumps_tree st req in
  exists b,
    conversations st' (turn_provider t) !! session_id req = Some b
    /\ [ {| role := "user"; content := Text (turn_message t) |};
         {| role := "assistant"; content := Text response |} ]
       `suffix_of` messages b.
Proof.
  intros Hst Hcall st' t.
  pose proof (process_chat_request_buffer st req) as Hb. simpl in Hb.
  fold t st' in Hb. unfold t in Hb at 2. rewrite Hcall in Hb. fold t in Hb.
  eexists. split; [exact Hb|].
  destruct (begin_turn_capacity unicode_lower dumps_tree st req Hst) as [_ Hcap].
  apply add_message_suffix; [fold t in Hcap; rewrite Hcap; done | | simpl; lia].
  pose proof (begin_turn_last unicode_lower dumps_tree st req Hst) as Hlast. fold t in Hlast.
  apply last_Some in Hlast as [pre ->].
  rewrite <- app_assoc. by apply suffix_app_r.
Qed.

End HandlerStore.

Lemma initial_state_all_primed : all_primed initial_state.
Proof. intros p sid b. destruct p; simpl; by rewrite lookup_empty. Qed.

Lemma history_starts_with_priming_pair_witness :
  exists h,
    get_history
      (process_chat_request no_unicode (failing "timeout") (decoding untyped_payload)
                            no_dump no_dump initial_state openai_request).1
      "s1" "openai"
    = Some h
    /\ take 2 (hist_messages h) = OPENAI_EXAMPLES
    /\ hist_examples_cached h = Some true.
Proof.
  destruct (history_starts_with_priming_pair
              no_unicode (failing "timeout") (decoding untyped_payload) no_dump no_dump
              initial_state openai_request initial_state_all_primed)
    as (_ & h & Hh & Htake & Hcached & _).
  exists h. split_and!; [exact Hh | exact Htake | exact Hcached].
Defined.

Lemma completed_turn_ends_buffer_witness :
  exists b,
    conversations
      (process_chat_request no_unicode (answering "Hello!" openai_usage)
                            (decoding untyped_payload)
                            no_dump no_dump initial_state openai_request).1
      OpenAI !! "s1"
    = Some b
    /\ [ {| role := "user";
            content := Text (user_request_block "hello") |};
         {| role := "assistant"; content := Text "Hello!" |} ]
       `suffix_of` messages b.
Proof.
  destruct (completed_turn_ends_buffer
              no_unicode (answering "Hello!" openai_usage) (decoding untyped_payload)
              no_dump no_dump initial_state openai_request "Hello!" openai_usage)
    as (b & Hb & Hsuf).
  - exact initial_state_default_capacity.
  - reflexivity.
  - exists b. split; [exact Hb | exact Hsuf].
Defined.

(** ** The request handler: responses *)

Section HandlerResponses.
Context (unicode_lower : string -> string).
Context (call_api : Provider -> list Message -> string -> string
                    -> string + (string * gmap string Z)).
Context (json_loads : string -> string + Payload).
Context (json_dumps : Payload -> string).
Context (dumps_tree : WorkspaceTree -> string).

Lemma finish_turn_fallback req t response usage e :
  decode_reply json_loads response = inl e ->
  finish_turn unicode_lower json_loads json_dumps req t response usage
  = (set_conversation (turn_state t) (turn_provider t) (session_id req)
       (add_message "assistant" response (turn_buffer t)),
     if negb (is_likely_code_request unicode_lower (query req)) then
       {| resp_type := "conversation";
          resp_parsed := ParsedConversation (strip response);
          resp_session_id := session_id req;
          resp_is_code_change := false;
          resp_request_type := "conversation";
          resp_workspace_tree := response_tree (context req);
          resp_usage := normalize_usage (turn_provider t) usage;
          resp_model_name := turn_model_name t;
          resp_provider := turn_provider t |}
     else
       {| resp_type := "error";
          resp_parsed :=
            ParsedError ("Expected code but received unexpected response: " +:+ e)
                        (strip response);
          resp_session_id := session_id req;
          resp_is_code_change := false;
          resp_request_type := "error";
          resp_workspace_tree := response_tree (context req);
          resp_usage := normalize_usage (turn_provider t) usage;
          resp_model_name := turn_model_name t;
          resp_provider := turn_provider t |}).
Proof. intros Hdec. unfold finish_turn. rewrite Hdec. by destruct (negb _). Qed.

Lemma finish_turn_echo req t response usage :
  let r := (finish_turn unicode_lower json_loads json_dumps req t response usage).2 in
  resp_session_id r = session_id req
  /\ resp_model_name r = turn_model_name t
  /\ resp_provider r = turn_provider t
  /\ resp_workspace_tree r = response_tree (context req).
Proof.
  unfold finish_turn. destruct (decode_reply json_loads response); [|done].
  by destruct (negb _).
Qed.

(** X12: in every response the handler returns, [is_code_change] is true
    exactly when the type is [code_generation] or [code_changes], the request
    type is [modification] exactly when the type is [code_changes] and is
    otherwise one of [generation], [conversation], [error]; the response
    names the session of the request and the model name of the request, or
    [claude-sonnet-4-5] when the request gives none or an empty one; its
    provider is OpenAI when that model name is one of [gpt-4o],
    [gpt-4o-mini], [o1], [o1-mini], and Claude otherwise. *)
Theorem response_fields_consistent (st st' : AppState) (req : ChatRequest)
    (r : ChatResponse) :
  process_chat_request unicode_lower call_api json_loads json_dumps dumps_tree
                       st req
  = (st', Returned r) ->
  resp_is_code_change r
  = bool_decide (resp_type r ∈ ["code_generation"; "code_changes"])
  /\ (resp_request_type r = "modification" <-> resp_type r = "code_changes")
  /\ resp_request_type r ∈ ["generation"; "modification"; "conversation"; "error"]
  /\ resp_session_id r = session_id req
  /\ resp_model_name r
     = match model_name req with
       | Some name => if String.eqb name "" then "claude-sonnet-4-5" else name
       | None => "claude-sonnet-4-5"
       end
  /\ resp_provider r
     = if bool_decide (resp_model_name r ∈ ["gpt-4o"; "gpt-4o-mini"; "o1"; "o1-mini"])
       then OpenAI else Claude.
Proof.
  intros Hrun. unfold process_chat_request in Hrun.
  set (t := begin_turn unicode_lower dumps_tree st req) in *.
  destruct (provider_call call_api t) as [e|[response usage]]; [done|].
  destruct (finish_turn_echo req t response usage) as (Hsid & Hmodel & Hprov & _).
  destruct (begin_turn_provider unicode_lower dumps_tree st req) as [Hp Hm]. fold t in Hp, Hm.
  assert (Hflags :
    let r := (finish_turn unicode_lower json_loads json_dumps req t response usage).2 in
    resp_is_code_change r
    = bool_decide (resp_type r ∈ ["code_generation"; "code_changes"])
    /\ (resp_request_type r = "modification" <-> resp_type r = "code_changes")
    /\ resp_request_type r ∈ ["generation"; "modification"; "conversation"; "error"]).
  { destruct (decode_reply json_loads response) as [e|p] eqn:Hdec.
    - rewrite (finish_turn_fallback req t response usage e Hdec). simpl.
      destruct (negb _); simpl; split_and!; try done;
        solve [ split; discriminate | set_solver ].
    - destruct (finish_turn_decoded unicode_lower json_loads json_dumps req t response usage p Hdec)
        as (Hty & Hcode & Hreq & _).
      simpl. rewrite Hcode, Hreq, Hty. split_and!; [done | |].
      + destruct (String.eqb_spec (default "code_generation" (payload_type p))
                                  "code_changes"); split; done.
      + destruct (String.eqb _ _); set_solver. }
  destruct (finish_turn _ _ _ _ _ _ _) as [st'' r'] eqn:Efin.
  injection Hrun as <- <-. simpl in *.
  destruct Hflags as (Hc & Hr & Hin).
  split_and!; [done | done | done | done | |].
  - rewrite Hmodel, Hm. unfold effective_model_name.
    destruct (model_name req) as [[|c name]|]; reflexivity.
  - rewrite Hprov, Hp, Hmodel, Hm.
    generalize (effective_model_name req). intros n.
    unfold determine_provider, is_claude_model, is_openai_model, openai_models.
    destruct (decide (n ∈ ["gpt-4o"; "gpt-4o-mini"; "o1"; "o1-mini"]))
      as [Hin'|Hnin].
    + assert (Hnc : n ∉ claude_models).
      { unfold claude_models. rewrite !elem_of_cons, elem_of_nil in *.
        intros Hc'.
        destruct Hin' as [->| [->| [->| [->|[]]]]];
          destruct Hc' as [?| [?| [?| [?|[]]]]]; discriminate. }
      by rewrite (bool_decide_eq_false_2 _ Hnc), !(bool_decide_eq_true_2 _ Hin').
    + rewrite !(bool_decide_eq_false_2 _ Hnin).
      by destruct (bool_decide (n ∈ claude_models)).
Qed.

End HandlerResponses.

Lemma response_fields_consistent_witness :
  (exists r,
     (process_chat_request no_unicode (answering "Hello!" openai_usage)
                           (decoding untyped_payload)
                           no_dump no_dump initial_state openai_request).2
     = Returned r
     /\ resp_is_code_change r
        = bool_decide (resp_type r ∈ ["code_generation"; "code_changes"])
     /\ resp_model_name r = "gpt-4o"
     /\ resp_provider r = OpenAI)
  /\ (exists r,
        (process_chat_request no_unicode (answering "Hello!" ∅)
                              (decoding untyped_payload)
                              no_dump no_dump initial_state claude_request).2
        = Returned r
        /\ resp_model_name r = "claude-sonnet-4-5"
        /\ resp_provider r = Claude).
Proof.
  split.
  - destruct (process_chat_request no_unicode (answering "Hello!" openai_usage)
                (decoding untyped_payload) no_dump no_dump initial_state
                openai_request) as [st' out] eqn:E.
    assert (exists r, out = Returned r) as [r ->].
    { apply (f_equal snd) in E. vm_compute in E. rewrite <- E. by eexists. }
    destruct (response_fields_consistent
                no_unicode (answering "Hello!" openai_usage)
                (decoding untyped_payload)
                no_dump no_dump initial_state st' openai_request r E)
      as (Hc & _ & _ & _ & Hm & Hp).
    exists r. split_and!; [done | exact Hc | exact Hm |].
    rewrite Hp, Hm. reflexivity.
  - destruct (process_chat_request no_unicode (answering "Hello!" ∅)
                (decoding untyped_payload) no_dump no_dump initial_state
                claude_request) as [st' out] eqn:E.
    assert (exists r, out = Returned r) as [r ->].
    { apply (f_equal snd) in E. vm_compute in E. rewrite <- E. by eexists. }
    destruct (response_fields_consistent
                no_unicode (answering "Hello!" ∅) (decoding untyped_payload)
                no_dump no_dump initial_state st' claude_request r E)
      as (_ & _ & _ & _ & Hm & Hp).
    exists r. split_and!; [done | exact Hm |].
    rewrite Hp, Hm. reflexivity.
Defined.

(** ** Texts: [+:+], [String.rev] and [strip] *)

Lemma string_app_cons a s t : String a s +:+ t = String a (s +:+ t).
Proof. reflexivity. Qed.

Lemma string_app_nil t : EmptyString +:+ t = t.
Proof. reflexivity. Qed.

Lemma string_length_append s t :
  String.length (s +:+ t) = String.length s + String.length t.
Proof.
  induction s as [|c s IH]; [done|].
  rewrite string_app_cons. simpl. by rewrite IH.
Qed.

Lemma string_append_assoc s t u : (s +:+ t) +:+ u = s +:+ (t +:+ u).
Proof.
  induction s as [|c s IH]; [done|].
  rewrite !string_app_cons. by rewrite IH.
Qed.

Lemma rev_app_append s t : String.rev_app s t = String.rev s +:+ t.
Proof.
  unfold String.rev. revert t. induction s as [|a s IH]; intros t; [done|].
  simpl. rewrite (IH (String a t)), (IH (String a EmptyString)).
  by rewrite string_append_assoc.
Qed.

Lemma rev_cons a s : String.rev (String a s) = String.rev s +:+ String a EmptyString.
Proof. unfold String.rev at 1. simpl. apply rev_app_append. Qed.

Lemma string_app_empty s : s +:+ EmptyString = s.
Proof.
  induction s as [|a s IH]; [done|]. rewrite string_app_cons. by rewrite IH.
Qed.

Lemma rev_append s t : String.rev (s +:+ t) = String.rev t +:+ String.rev s.
Proof.
  induction s as [|a s IH].
  - rewrite string_app_nil. by rewrite string_app_empty.
  - rewrite string_app_cons, !rev_cons, IH. by rewrite string_append_assoc.
Qed.

Lemma rev_rev s : String.rev (String.rev s) = s.
Proof.
  induction s as [|a s IH]; [done|]. rewrite rev_cons, rev_append, IH. done.
Qed.

Lemma rev_length s : String.length (String.rev s) = String.length s.
Proof.
  induction s as [|a s IH]; [done|].
  rewrite rev_cons, string_length_append, IH. simpl. lia.
Qed.

Lemma rev_join l :
  String.rev (foldr String.append EmptyString l)
  = foldr String.append EmptyString (reverse (map String.rev l)).
Proof.
  induction l as [|w l IH]; [done|]. simpl.
  rewrite rev_append, IH, reverse_cons, foldr_app. simpl.
  generalize (reverse (map String.rev l)). intros l'.
  induction l' as [|x l' IH']; simpl.
  - by rewrite string_app_nil, string_app_empty.
  - by rewrite string_append_assoc, IH'.
Qed.

Lemma without_prefix_Some p s r : without_prefix p s = Some r <-> s = p +:+ r.
Proof.
  revert s. induction p as [|a p IH]; intros s.
  - rewrite string_app_nil. simpl. split; congruence.
  - rewrite string_app_cons. destruct s as [|b s]; simpl; [done|].
    destruct (Ascii.eqb_spec a b) as [->|Hne].
    + rewrite IH. split; congruence.
    + split; [done | congruence].
Qed.

Lemma drop_char_Some chars s r :
  drop_char chars s = Some r -> exists p, p ∈ chars /\ s = p +:+ r.
Proof.
  unfold drop_char. intros H. apply head_Some_elem_of in H.
  apply list_elem_of_omap in H as (p & Hp & Hr).
  exists p. split; [done | by apply without_prefix_Some].
Qed.

Lemma drop_char_None chars s p t :
  drop_char chars s = None -> p ∈ chars -> s <> p +:+ t.
Proof.
  unfold drop_char. intros H Hp Hs. apply head_None in H.
  assert (Hin : t ∈ omap (fun p => without_prefix p s) chars).
  { apply list_elem_of_omap. exists p. split; [done|].
    by apply without_prefix_Some. }
  rewrite H in Hin. by apply elem_of_nil in Hin.
Qed.

Lemma lstrip_chars_spec chars fuel s :
  Forall (fun p => p <> EmptyString) chars ->
  String.length s <= fuel ->
  exists ws,
    Forall (fun w => w ∈ chars) ws
    /\ s = foldr String.append EmptyString ws +:+ lstrip_chars chars fuel s
    /\ drop_char chars (lstrip_chars chars fuel s) = None.
Proof.
  intros Hne. revert s. induction fuel as [|fuel IH]; intros s Hlen.
  - destruct s; [|simpl in Hlen; lia]. exists []. split_and!; [done..|].
    simpl. unfold drop_char.
    assert (Hnil : omap (fun p => without_prefix p EmptyString) chars = []).
    { clear -Hne. induction Hne as [|p chars Hp _ IH]; [done|].
      simpl. destruct p; [done|]. simpl. exact IH. }
    by rewrite Hnil.
  - simpl. destruct (drop_char chars s) as [rest|] eqn:E.
    + destruct (drop_char_Some _ _ _ E) as (p & Hp & ->).
      assert (Hp' : p <> EmptyString).
      { rewrite Forall_forall in Hne. by apply Hne. }
      destruct (IH rest) as (ws & Hws & Hrest & Hend).
      { rewrite string_length_append in Hlen. destruct p; [done|].
        simpl in Hlen. lia. }
      exists (p :: ws). split_and!; [by constructor | | done].
      simpl. rewrite string_append_assoc. by rewrite <- Hrest.
    + exists []. by split_and!.
Qed.

Lemma whitespace_nonempty : Forall (fun p => p <> EmptyString) whitespace.
Proof. unfold whitespace. simpl. repeat constructor; discriminate. Qed.

Lemma rev_whitespace_nonempty :
  Forall (fun p => p <> EmptyString) (map String.rev whitespace).
Proof. unfold whitespace. simpl. repeat constructor; discriminate. Qed.

(** What [strip] returns: the text between a run of white space characters
    in front and one at the end, and it neither starts nor ends with
    one. *)
Lemma strip_spec s :
  (exists before after,
     Forall (fun w => w ∈ whitespace) before
     /\ Forall (fun w => w ∈ whitespace) after
     /\ s = foldr String.append EmptyString before
            +:+ strip s
            +:+ foldr String.append EmptyString after)
  /\ Forall (fun w => forall t, strip s <> w +:+ t /\ strip s <> t +:+ w)
            whitespace.
Proof.
  destruct (lstrip_chars_spec whitespace (String.length s) s
              whitespace_nonempty (le_n _)) as (before & Hbefore & Hs & Hfront).
  fold (lstrip s) in Hs, Hfront.
  unfold strip, rstrip. set (L := lstrip s) in *.
  destruct (lstrip_chars_spec (map String.rev whitespace)
              (String.length L) (String.rev L)
              rev_whitespace_nonempty) as (ws & Hws & Hrev & Hback).
  { by rewrite rev_length. }
  set (R := lstrip_chars _ _ (String.rev L)) in *.
  assert (Hl : L = String.rev R
                   +:+ foldr String.append EmptyString
                             (reverse (map String.rev ws))).
  { rewrite <- (rev_rev L) at 1. by rewrite Hrev, rev_append, rev_join. }
  split.
  - exists before, (reverse (map String.rev ws)). split_and!; [done | |].
    + apply Forall_reverse, Forall_forall. intros w Hw.
      apply list_elem_of_fmap in Hw as (w' & -> & Hw').
      rewrite Forall_forall in Hws. apply Hws in Hw'.
      apply list_elem_of_fmap in Hw' as (w'' & -> & Hw''). by rewrite rev_rev.
    + by rewrite <- Hl.
  - apply Forall_forall. intros w Hw t. split.
    + intros Hstart. rewrite Hstart, string_append_assoc in Hl.
      by apply (drop_char_None _ _ w _ Hfront Hw) in Hl.
    + intros Hend.
      assert (HR' : R = String.rev w +:+ String.rev t).
      { rewrite <- (rev_rev R), Hend. apply rev_append. }
      apply (drop_char_None _ _ (String.rev w) _ Hback) in HR'; [done|].
      apply list_elem_of_fmap. by exists w.
Qed.

Section HandlerPayloads.
Context (unicode_lower : string -> string).
Context (call_api : Provider -> list Message -> string -> string
                    -> string + (string * gmap string Z)).
Context (json_loads : string -> string + Payload).
Context (json_dumps : Payload -> string).
Context (dumps_tree : WorkspaceTree -> string).

Lemma stripped_changes_no_old_content changes :
  no_old_content
    (map (fun change =>
            {| file := file change;
               file_content := file_content change;
               modifications := map pop_old_content <$> modifications change |})
         changes).
Proof.
  unfold no_old_content. induction changes as [|c cs IH]; constructor; [|done].
  unfold change_modifications. simpl.
  destruct (modifications c) as [ms|]; simpl; [|constructor].
  induction ms; constructor; done.
Qed.

Lemma finish_turn_code_changes req t response usage p changes :
  decode_reply json_loads response = inr p ->
  payload_type p = Some "code_changes" ->
  payload_changes p = Some changes ->
  exists stripped,
    payload_changes (remove_old_content p) = Some stripped
    /\ no_old_content stripped
    /\ resp_parsed (finish_turn unicode_lower json_loads json_dumps req t response usage).2
       = ParsedPayload {| payload_type := Some "code_changes";
                          payload_changes := Some (sort_modifications stripped);
                          payload_summary := payload_summary p |}.
Proof.
  intros Hdec Hty Hch. unfold finish_turn. rewrite Hdec.
  rewrite remove_old_content_eq, bool_decide_eq_true_2, Hch by done.
  cbn [payload_type payload_changes payload_summary].
  rewrite Hty. eexists. split; [done|]. split; [apply stripped_changes_no_old_content|].
  done.
Qed.

(** X13: when the reply decodes to a [code_changes] payload with a [changes]
    list, the response has type [code_changes] and request type
    [modification], its [changes] are the normalized ones (grouped by file,
    each file's modifications in descending line order), and none of its
    modifications carries [old_content]. *)
Theorem code_changes_response (st : AppState) (req : ChatRequest)
    (response : string) (usage : gmap string Z) (p : Payload)
    (changes : list Change) :
  provider_call call_api (begin_turn unicode_lower dumps_tree st req)
  = inr (response, usage) ->
  decode_reply json_loads response = inr p ->
  payload_type p = Some "code_changes" ->
  payload_changes p = Some changes ->
  exists st' r normalized,
    process_chat_request unicode_lower call_api json_loads json_dumps dumps_tree st req
    = (st', Returned r)
    /\ resp_type r = "code_changes"
    /\ resp_request_type r = "modification"
    /\ resp_is_code_change r = true
    /\ resp_parsed r
       = ParsedPayload {| payload_type := Some "code_changes";
                          payload_changes := Some normalized;
                          payload_summary := payload_summary p |}
    /\ no_old_content normalized
    /\ sort_modifications normalized = normalized
    /\ length (path_modifications normalized)
       = length (path_modifications changes).
Proof.
  intros Hcall Hdec Hty Hch.
  destruct (finish_turn_code_changes req (begin_turn unicode_lower dumps_tree st req)
              response usage p changes Hdec Hty Hch)
    as (stripped & Hstripped & Hno & Hparsed).
  destruct (finish_turn_decoded unicode_lower json_loads json_dumps req
              (begin_turn unicode_lower dumps_tree st req) response usage p Hdec)
    as (Htype & Hcode & Hreq & _).
  rewrite Hty in Htype, Hcode, Hreq. simpl in Htype, Hcode, Hreq.
  eexists _, _, (sort_modifications stripped).
  split; [by apply handle_returned|].
  split_and!; [done | done | done | done | | |].
  - by apply sort_modifications_no_old_content.
  - apply sort_modifications_idempotent_aux.
  - rewrite sort_modifications_keeps_pairs_aux.
    rewrite remove_old_content_eq, bool_decide_eq_true_2, Hch in Hstripped by done.
    injection Hstripped as <-. unfold path_modifications.
    clear. induction changes as [|c cs IH]; [done|]. simpl.
    rewrite !length_app, IH. f_equal. unfold change_modifications. simpl.
    destruct (modifications c); simpl; by rewrite ?length_map.
Qed.

(** X14: the stored code of a session changes only on a reply that decodes
    to a [code_generation] payload: [get_code] then gives the dump of that
    payload. After a reply that decodes to a payload of any other type (a
    [code_changes] one too) or that does not decode, the stored code is what
    it was when the provider was called. *)
Theorem stored_code_updated_by_generation_only (st : AppState) (req : ChatRequest)
    (response : string) (usage : gmap string Z) :
  provider_call call_api (begin_turn unicode_lower dumps_tree st req)
  = inr (response, usage) ->
  let st' := (process_chat_request unicode_lower call_api json_loads json_dumps dumps_tree
                                   st req).1 in
  let before := turn_state (begin_turn unicode_lower dumps_tree st req) in
  match decode_reply json_loads response with
  | inr p =>
      if decide (payload_type p = Some "code_generation")
      then get_code st' (session_id req) = Code (json_dumps p) (session_id req)
      else generated_code st' = generated_code before
  | inl _ => generated_code st' = generated_code before
  end.
Proof.
  intros Hcall st' before. subst st'.
  rewrite (handle_returned _ _ _ _ _ _ _ _ _ Hcall). simpl.
  unfold finish_turn. fold before.
  destruct (decode_reply json_loads response) as [e|p] eqn:Hdec.
  - destruct (negb _); simpl; apply generated_code_set_conversation.
  - simpl. rewrite remove_old_content_type.
    destruct (decide (payload_type p = Some "code_generation")) as [Hty|Hty].
    + rewrite bool_decide_eq_true_2 by done.
      unfold get_code, previous_code. simpl. rewrite lookup_insert_eq. simpl.
      assert (remove_old_content p = p) as ->; [|done].
      rewrite remove_old_content_eq, bool_decide_eq_false_2; [done|].
      by rewrite Hty.
    + rewrite bool_decide_eq_false_2 by done.
      apply generated_code_set_conversation.
Qed.

(** X15: a reply that does not decode never fails the turn: the response has
    type [error] when the query is a code request for
    [is_likely_code_request] and [conversation] otherwise, with the request
    type of the same name, and it is no code change. Its summary is the
    reply without the white space around it: the reply is a run of white
    space characters, the summary, and a run of white space characters, and
    the summary neither starts nor ends with a white space character. The
    white space characters are those of [str.strip], given here by their
    UTF-8 bytes. The error text is
    [Expected code but received unexpected response: ] followed by the text
    of the decoding failure. *)
Theorem undecodable_reply_response (st : AppState) (req : ChatRequest)
    (response : string) (usage : gmap string Z) (e : string) :
  provider_call call_api (begin_turn unicode_lower dumps_tree st req)
  = inr (response, usage) ->
  decode_reply json_loads response = inl e ->
  let spaces :=
    map string_of_bytes
        [ [9]; [10]; [11]; [12]; [13]; [28]; [29]; [30]; [31]; [32];
          [194; 133]; [194; 160]; [225; 154; 128];
          [226; 128; 128]; [226; 128; 129]; [226; 128; 130]; [226; 128; 131];
          [226; 128; 132]; [226; 128; 133]; [226; 128; 134]; [226; 128; 135];
          [226; 128; 136]; [226; 128; 137]; [226; 128; 138];
          [226; 128; 168]; [226; 128; 169]; [226; 128; 175]; [226; 129; 159];
          [227; 128; 128] ] in
  exists st' r summary before after,
    process_chat_request unicode_lower call_api json_loads json_dumps dumps_tree
                         st req
    = (st', Returned r)
    /\ resp_is_code_change r = false
    /\ resp_request_type r = resp_type r
    /\ (if is_likely_code_request unicode_lower (query req) then
          resp_type r = "error"
          /\ resp_parsed r
             = ParsedError
                 ("Expected code but received unexpected response: " +:+ e)
                 summary
        else
          resp_type r = "conversation"
          /\ resp_parsed r = ParsedConversation summary)
    /\ response = foldr String.append EmptyString before
                  +:+ summary
                  +:+ foldr String.append EmptyString after
    /\ Forall (fun w => w ∈ spaces) before
    /\ Forall (fun w => w ∈ spaces) after
    /\ Forall (fun w => forall t, summary <> w +:+ t /\ summary <> t +:+ w)
              spaces.
Proof.
  intros Hcall Hdec spaces.
  destruct (strip_spec response) as [(before & after & Hb & Ha & Hsplit) Hends].
  exists (finish_turn unicode_lower json_loads json_dumps req
            (begin_turn unicode_lower dumps_tree st req) response usage).1,
         (finish_turn unicode_lower json_loads json_dumps req
            (begin_turn unicode_lower dumps_tree st req) response usage).2,
         (strip response), before, after.
  split; [by apply handle_returned|].
  rewrite (finish_turn_fallback _ _ _ _ _ _ _ _ Hdec). cbn [snd].
  split_and!; [| | | exact Hsplit | exact Hb | exact Ha | exact Hends];
    by destruct (is_likely_code_request _ _).
Qed.

End HandlerPayloads.

Lemma code_changes_response_witness :
  exists r normalized,
    (process_chat_request no_unicode (answering "Done. {}" ∅) (decoding changes_payload)
                          no_dump no_dump initial_state claude_request).2
    = Returned r
    /\ resp_parsed r
       = ParsedPayload {| payload_type := Some "code_changes";
                          payload_changes := Some normalized;
                          payload_summary := Some "s" |}
    /\ no_old_content normalized.
Proof.
  destruct (code_changes_response
              no_unicode (answering "Done. {}" ∅) (decoding changes_payload) no_dump no_dump
              initial_state claude_request "Done. {}" ∅ changes_payload
              [ {| file := Some "src/App.jsx"; file_content := None;
                   modifications := Some [legacy_replace; example_delete] |} ])
    as (st' & r & normalized & Hrun & _ & _ & _ & Hparsed & Hno & _);
    [reflexivity..|].
  exists r, normalized. split_and!; [by rewrite Hrun | exact Hparsed | exact Hno].
Defined.

Lemma stored_code_updated_by_generation_only_witness :
  get_code
    (process_chat_request no_unicode (answering "Done. {}" ∅) (decoding generation_payload)
                          (fun _ => "dump") no_dump initial_state claude_request).1
    "s1"
  = Code "dump" "s1".
Proof.
  exact (stored_code_updated_by_generation_only
           no_unicode (answering "Done. {}" ∅) (decoding generation_payload)
           (fun _ => "dump") no_dump initial_state claude_request "Done. {}" ∅
           eq_refl).
Defined.

Lemma undecodable_reply_response_witness :
  (exists r,
     (process_chat_request no_unicode (answering padded_reply ∅)
                           (decoding untyped_payload)
                           no_dump no_dump initial_state openai_request).2
     = Returned r
     /\ resp_type r = "conversation"
     /\ resp_parsed r = ParsedConversation (zero_width_space +:+ "Hello!"))
  /\ (exists r,
        (process_chat_request no_unicode (answering padded_reply ∅)
                              (decoding untyped_payload)
                              no_dump no_dump initial_state claude_request).2
        = Returned r
        /\ resp_type r = "error"
        /\ resp_parsed r
           = ParsedError
               "Expected code but received unexpected response: No JSON found"
               (zero_width_space +:+ "Hello!")).
Proof.
  split.
  - destruct (undecodable_reply_response
                no_unicode (answering padded_reply ∅) (decoding untyped_payload)
                no_dump no_dump initial_state openai_request
                padded_reply ∅ "No JSON found")
      as (st' & r & summary & before & after & Hrun & _ & _ & Hty & _);
      [reflexivity..|].
    exists r. split; [by rewrite Hrun|].
    apply (f_equal snd) in Hrun. vm_compute in Hrun. by injection Hrun as <-.
  - destruct (undecodable_reply_response
                no_unicode (answering padded_reply ∅) (decoding untyped_payload)
                no_dump no_dump initial_state claude_request
                padded_reply ∅ "No JSON found")
      as (st' & r & summary & before & after & Hrun & _ & _ & Hty & _);
      [reflexivity..|].
    exists r. split; [by rewrite Hrun|].
    apply (f_equal snd) in Hrun. vm_compute in Hrun. by injection Hrun as <-.
Defined.

(** ** The JSON candidate of a reply *)

Lemma find_from_absent c s i : occurs c s = false -> find_from c s i = (-1)%Z.
Proof.
  revert i. induction s as [|a s IH]; intros i H; [done|]. simpl in *.
  apply orb_false_iff in H as [Ha Hs]. rewrite Ha. by apply IH.
Qed.

Lemma find_from_first c pre t i :
  occurs c pre = false ->
  find_from c (pre +:+ String c t) i = (i + Z.of_nat (String.length pre))%Z.
Proof.
  revert i. induction pre as [|a pre IH]; intros i H.
  - rewrite string_app_nil. simpl. rewrite Ascii.eqb_refl. lia.
  - rewrite string_app_cons. simpl in *.
    apply orb_false_iff in H as [Ha Hs]. rewrite Ha, IH by done. lia.
Qed.

Lemma rfind_from_append c s t i found :
  rfind_from c (s +:+ t) i found
  = rfind_from c t (i + Z.of_nat (String.length s))%Z (rfind_from c s i found).
Proof.
  revert i found. induction s as [|a s IH]; intros i found.
  - rewrite string_app_nil. simpl. f_equal. lia.
  - rewrite string_app_cons. simpl. rewrite IH. f_equal. lia.
Qed.

Lemma rfind_from_absent c s i found :
  occurs c s = false -> rfind_from c s i found = found.
Proof.
  revert i found. induction s as [|a s IH]; intros i found H; [done|].
  simpl in *. apply orb_false_iff in H as [Ha Hs]. rewrite Ha. by apply IH.
Qed.

Lemma rfind_from_bound c s i found :
  (found < i)%Z ->
  (rfind_from c s i found < i + Z.of_nat (String.length s))%Z.
Proof.
  revert i found. induction s as [|a s IH]; intros i found H; simpl; [lia|].
  specialize (IH (i + 1)%Z (if Ascii.eqb a c then i else found)).
  destruct (Ascii.eqb a c); lia.
Qed.

Lemma substring_skip pre n m s :
  String.substring (String.length pre + n) m (pre +:+ s) = String.substring n m s.
Proof.
  induction pre as [|a pre IH]; [done|]. rewrite string_app_cons. exact IH.
Qed.

Lemma substring_prefix s t :
  String.substring 0 (String.length s) (s +:+ t) = s.
Proof.
  induction s as [|a s IH].
  - rewrite string_app_nil. by destruct t.
  - rewrite string_app_cons. simpl. by rewrite IH.
Qed.

Lemma open_brace_not_close : Ascii.eqb open_brace close_brace = false.
Proof. reflexivity. Qed.

Section Candidate.
Context (json_loads : string -> string + Payload).

(** X16: the JSON candidate of a reply runs from the first opening brace to
    the last closing brace: for a reply [pre { mid } post] with no opening
    brace in [pre] and no closing brace in [post], the decoder is given
    exactly [{ mid }]. A reply with no opening brace, or with no closing
    brace after its first opening brace, is never given to the decoder: the
    result is the failure [No JSON found]. *)
Theorem decode_reply_candidate :
  (forall pre mid post,
     occurs open_brace pre = false ->
     occurs close_brace post = false ->
     decode_reply json_loads
       (pre +:+ String open_brace (mid +:+ String close_brace post))
     = json_loads (String open_brace (mid +:+ String close_brace EmptyString)))
  /\ (forall s,
        occurs open_brace s = false ->
        decode_reply json_loads s = inl "No JSON found")
  /\ (forall pre rest,
        occurs open_brace pre = false ->
        occurs close_brace rest = false ->
        decode_reply json_loads (pre +:+ String open_brace rest)
        = inl "No JSON found").
Proof.
  split_and!.
  - intros pre mid post Hpre Hpost. unfold decode_reply, find, rfind.
    rewrite find_from_first by done.
    rewrite <- (string_app_cons open_brace mid (String close_brace post)).
    rewrite <- (string_append_assoc pre).
    rewrite rfind_from_append.
    change (rfind_from close_brace (String close_brace post) ?i ?f)
      with (rfind_from close_brace post (i + 1)%Z
              (if Ascii.eqb close_brace close_brace then i else f)).
    rewrite Ascii.eqb_refl, rfind_from_absent by done.
    rewrite string_length_append.
    change (String.length (String open_brace mid)) with (S (String.length mid)).
    rewrite string_append_assoc.
    set (n := String.length pre). set (k := String.length mid).
    destruct (_ =? -1)%Z eqn:E1; [apply Z.eqb_eq in E1; lia|].
    destruct (_ <? _)%Z eqn:E2; [|apply Z.ltb_ge in E2; lia].
    cbn [negb andb]. f_equal.
    replace (Z.to_nat (0 + Z.of_nat n)) with (n + 0) by lia.
    replace (Z.to_nat (0 + Z.of_nat (n + S k) + 1 - (0 + Z.of_nat n)))
      with (String.length (String open_brace (mid +:+ String close_brace EmptyString))).
    2:{ simpl. rewrite string_length_append. simpl. lia. }
    subst n. rewrite substring_skip.
    rewrite string_app_cons.
    replace (String open_brace (mid +:+ String close_brace post))
      with (String open_brace (mid +:+ String close_brace EmptyString) +:+ post).
    2:{ rewrite string_app_cons, string_append_assoc. reflexivity. }
    apply substring_prefix.
  - intros s Hs. unfold decode_reply, find. by rewrite find_from_absent.
  - intros pre rest Hpre Hrest. unfold decode_reply, find, rfind.
    rewrite find_from_first by done. rewrite rfind_from_append.
    rewrite (rfind_from_absent close_brace (String open_brace rest)).
    2:{ cbn [occurs]. rewrite open_brace_not_close. exact Hrest. }
    pose proof (rfind_from_bound close_brace pre 0 (-1) ltac:(lia)) as Hb.
    destruct (_ <? _)%Z eqn:E2; [apply Z.ltb_lt in E2; lia|].
    by rewrite andb_false_r.
Qed.

End Candidate.

(** ** The text of the user turn *)

Lemma concat_nonempty sep a x l :
  is_empty_string (String.concat sep (String a x :: l)) = false.
Proof. by destruct l. Qed.

(** [if context_string:] and [has_context] agree. *)
Lemma context_string_empty dumps_tree ctx :
  is_empty_string (build_context_string dumps_tree ctx)
  = negb (request_has_context ctx).
Proof.
  destruct ctx as [[files tree]|]; [|done].
  unfold build_context_string, request_has_context.
  cbn [open_files workspace_tree].
  destruct files as [[|f fs]|]; destruct tree as [t|];
    first [ apply concat_nonempty | reflexivity ].
Qed.

Lemma previous_code_ensure_session st p sid :
  previous_code (ensure_session st p sid).1 sid
  = match conversations st p !! sid with
    | Some _ => previous_code st sid
    | None => None
    end.
Proof.
  unfold ensure_session. destruct (conversations st p !! sid); [done|].
  unfold previous_code, set_generated_code. simpl.
  by rewrite lookup_insert_eq.
Qed.

Section HandlerMessage.
Context (unicode_lower : string -> string).
Context (dumps_tree : WorkspaceTree -> string).

Lemma begin_turn_message st req :
  let p := determine_provider (effective_model_name req) in
  let previous :=
    match conversations st p !! session_id req with
    | Some _ => previous_code st (session_id req)
    | None => None
    end in
  turn_message (begin_turn unicode_lower dumps_tree st req)
  = build_current_message
      (build_context_string dumps_tree (context req)) (query req) previous
      (is_modification_request unicode_lower (query req) (request_has_context (context req))
                               (bool_decide (is_Some previous)))
      (request_has_context (context req)).
Proof.
  intros p previous. unfold begin_turn. fold p.
  pose proof (previous_code_ensure_session st p (session_id req)) as Hprev.
  destruct (ensure_session st p (session_id req)) as [st1 b].
  simpl in Hprev. cbn [turn_message]. subst previous. by rewrite Hprev.
Qed.

(** X17: a request with context (an open file or a workspace tree) sends the
    context block and the request block, joined by a newline, whatever code
    is stored for the session and whatever the query says: stored code is
    never sent along with context. *)
Theorem context_takes_precedence (st : AppState) (req : ChatRequest) :
  request_has_context (context req) = true ->
  turn_message (begin_turn unicode_lower dumps_tree st req)
  = String.concat nl
      [context_block (build_context_string dumps_tree (context req));
       user_request_block (query req)].
Proof.
  intros Hctx. rewrite begin_turn_message. unfold build_current_message.
  by rewrite context_string_empty, Hctx.
Qed.

(** X18: a request without context, for a session the provider already has
    a buffer for, sends the stored code in front of the request exactly
    when code is stored and the lower-cased query contains a modification
    or a reference keyword; otherwise the message is the request block
    alone. *)
Theorem previous_code_sent_for_modification (st : AppState) (req : ChatRequest)
    (b : ConversationBuffer) :
  request_has_context (context req) = false ->
  conversations st (determine_provider (effective_model_name req))
    !! session_id req = Some b ->
  turn_message (begin_turn unicode_lower dumps_tree st req)
  = match previous_code st (session_id req) with
    | Some code =>
        if is_modification_request unicode_lower (query req) false true
        then String.concat nl [previous_code_block code;
                               user_request_block (query req)]
        else user_request_block (query req)
    | None => user_request_block (query req)
    end.
Proof.
  intros Hctx Hb. rewrite begin_turn_message, Hb. unfold build_current_message.
  rewrite context_string_empty, Hctx. cbn [negb].
  destruct (previous_code st (session_id req)) as [code|]; [|done].
  replace (bool_decide (is_Some (Some code))) with true by done.
  by destruct (is_modification_request _ _ _ _).
Qed.

(** X19: the first turn of a session with a provider forgets the code stored
    for the session, also when the other provider stored it: the stored code
    is reset, the message of a request without context is the request block
    alone, and the buffer is the priming pair of the provider followed by the
    user turn. *)
Theorem first_turn_of_provider (st : AppState) (req : ChatRequest) :
  conversations st (determine_provider (effective_model_name req))
    !! session_id req = None ->
  let t := begin_turn unicode_lower dumps_tree st req in
  generated_code (turn_state t) !! session_id req = Some None
  /\ messages (turn_buffer t)
     = EXAMPLES (turn_provider t)
       ++ [ {| role := "user"; content := Text (turn_message t) |} ]
  /\ (request_has_context (context req) = false ->
      turn_message t = user_request_block (query req)).
Proof.
  intros Hnone t. split_and!.
  - subst t. unfold begin_turn, ensure_session. rewrite Hnone.
    cbn [turn_state]. rewrite generated_code_set_conversation.
    unfold set_generated_code. cbn [generated_code].
    by rewrite lookup_insert_eq.
  - subst t. unfold begin_turn, ensure_session. rewrite Hnone.
    cbn [turn_buffer turn_provider turn_message].
    by destruct (determine_provider _).
  - intros Hctx. subst t. rewrite begin_turn_message, Hnone.
    unfold build_current_message. by rewrite context_string_empty, Hctx.
Qed.

End HandlerMessage.

(** ** Session endpoints *)

Lemma get_history_absent st sid key p :
  provider_of_key key = Some p ->
  conversations st p !! sid = None ->
  get_history st sid key
  = Some {| hist_messages := []; hist_session_id := None;
            hist_has_code := false; hist_examples_cached := None;
            hist_provider := key |}.
Proof. intros Hkey Hnone. unfold get_history. by rewrite Hkey, Hnone. Qed.

(** X20: [reset_session] forgets the session for both providers and leaves
    every other session alone: afterwards [get_history] gives the empty
    history for either provider key, [get_code] reports that no code was
    generated, the buffers and the stored code of every other session are
    those of before, a second reset changes nothing, and the reset of a
    session that is not stored changes nothing. *)
Theorem reset_session_forgets (st : AppState) (sid : string) :
  let st' := (reset_session st sid).1 in
  (forall key p,
     provider_of_key key = Some p ->
     get_history st' sid key
     = Some {| hist_messages := []; hist_session_id := None;
               hist_has_code := false; hist_examples_cached := None;
               hist_provider := key |})
  /\ get_code st' sid = NoCode "No code generated yet"
  /\ (forall sid', sid' <> sid ->
        (forall p, conversations st' p !! sid' = conversations st p !! sid')
        /\ generated_code st' !! sid' = generated_code st !! sid')
  /\ (reset_session st' sid).1 = st'
  /\ ((forall p, conversations st p !! sid = None) ->
      generated_code st !! sid = None ->
      st' = st).
Proof.
  intros st'. split_and!.
  - intros key p Hkey. apply (get_history_absent _ _ _ p Hkey).
    subst st'. destruct p; simpl; apply lookup_delete_eq.
  - subst st'. unfold get_code, previous_code, reset_session. simpl.
    by rewrite lookup_delete_eq.
  - intros sid' Hne. subst st'. split.
    + intros p. destruct p; simpl; by apply lookup_delete_ne.
    + simpl. by apply lookup_delete_ne.
  - subst st'. unfold reset_session. simpl. by rewrite !delete_delete_eq.
  - intros Hconv Hcode. subst st'. unfold reset_session. simpl.
    pose proof (Hconv Claude) as Hc. pose proof (Hconv OpenAI) as Ho.
    simpl in Hc, Ho. rewrite !delete_id by done. by destruct st.
Qed.

(** X21: [get_history] and [get_code] on one state. A provider key other
    than [claude] and [openai] ends [get_history] in a [KeyError]; a history
    says [has_code] only if [get_code] gives the code of the session; and
    for a session the provider has a buffer for, the history lists the
    messages of that buffer and says [has_code] exactly when [get_code]
    gives code. *)
Theorem history_and_code_agree (st : AppState) (sid key : string) :
  (provider_of_key key = None -> get_history st sid key = None)
  /\ (forall h,
        get_history st sid key = Some h ->
        hist_has_code h = true ->
        exists code, get_code st sid = Code code sid)
  /\ (forall p b,
        provider_of_key key = Some p ->
        conversations st p !! sid = Some b ->
        exists h,
          get_history st sid key = Some h
          /\ hist_messages h = messages b
          /\ hist_session_id h = Some sid
          /\ (hist_has_code h = false
              <-> get_code st sid = NoCode "No code generated yet")).
Proof.
  split_and!.
  - intros Hkey. unfold get_history. by rewrite Hkey.
  - intros h Hh Hcode. unfold get_history in Hh. unfold get_code.
    destruct (provider_of_key key) as [p|]; [|done].
    destruct (conversations st p !! sid) as [b|]; injection Hh as <-;
      simpl in Hcode; [|done].
    destruct (previous_code st sid) as [code|]; [by exists code | done].
  - intros p b Hkey Hb. unfold get_history, get_code. rewrite Hkey, Hb.
    eexists. split_and!; [reflexivity..|]. simpl.
    destruct (previous_code st sid) as [code|]; simpl; split; intros H;
      first [done | by apply bool_decide_eq_false in H; destruct H; eauto].
Qed.

(** ** [get_model_id] *)

(** X22: [get_model_id] of either client. The fallback
    [model_mapping[default_model]] is looked up before the name is: with a
    default model that is no key of the mapping the call ends in a
    [KeyError] for every name, a known one included. With a default model
    of the mapping, a missing name, an empty name and an unknown name give
    the id of the default model, and a known name gives its own id. *)
Theorem get_model_id_fallback {V} (model_mapping : gmap string V)
    (default_model : string) :
  (model_mapping !! default_model = None ->
   forall name, get_model_id model_mapping default_model name = None)
  /\ (forall v,
        model_mapping !! default_model = Some v ->
        get_model_id model_mapping default_model None = Some v
        /\ get_model_id model_mapping default_model (Some "") = Some v
        /\ (forall n, model_mapping !! n = None ->
                      get_model_id model_mapping default_model (Some n) = Some v)
        /\ (forall n w, n <> "" -> model_mapping !! n = Some w ->
                        get_model_id model_mapping default_model (Some n)
                        = Some w)).
Proof.
  split.
  - intros Hd name. unfold get_model_id. by rewrite Hd.
  - intros v Hd. unfold get_model_id. split_and!.
    + by rewrite Hd.
    + simpl. by rewrite Hd.
    + intros n Hn. destruct (is_empty_string n); rewrite Hd; [done|].
      by rewrite Hn.
    + intros n w Hne Hn. destruct n; [done|]. simpl. by rewrite Hd, Hn.
Qed.

(** ** The keyword classifiers *)

Lemma prefix_app sub s b :
  String.prefix sub s = true -> String.prefix sub (s +:+ b) = true.
Proof.
  revert sub. induction s as [|a s IH]; intros sub H.
  - destruct sub; [by destruct b | done].
  - rewrite string_app_cons. destruct sub as [|c sub]; [done|]. simpl in *.
    destruct (Ascii.ascii_dec c a); [by apply IH | done].
Qed.

Lemma contains_app_r sub s b :
  contains sub s = true -> contains sub (s +:+ b) = true.
Proof.
  induction s as [|a s IH]; intros H.
  - simpl in H. rewrite orb_false_r in H.
    destruct sub; [by destruct b | done].
  - rewrite string_app_cons. simpl in *.
    apply orb_true_iff in H as [H|H]; apply orb_true_iff.
    + left. exact (prefix_app sub (String a s) b H).
    + right. by apply IH.
Qed.

Lemma contains_app_l sub a s :
  contains sub s = true -> contains sub (a +:+ s) = true.
Proof.
  intros H. induction a as [|c a IH]; [done|].
  rewrite string_app_cons. simpl. apply orb_true_iff. by right.
Qed.

Lemma lower_ascii_app s t :
  lower_ascii (s +:+ t) = lower_ascii s +:+ lower_ascii t.
Proof.
  induction s as [|c s IH]; [done|].
  rewrite string_app_cons. simpl. rewrite string_app_cons. by rewrite IH.
Qed.

Lemma ascii_lower_idemp c : ascii_lower (ascii_lower c) = ascii_lower c.
Proof. by destruct c as [[] [] [] [] [] [] [] []]. Qed.

Lemma ascii_lower_below c :
  (Ascii.nat_of_ascii c <? 128)%nat = true ->
  (Ascii.nat_of_ascii (ascii_lower c) <? 128)%nat = true.
Proof. by destruct c as [[] [] [] [] [] [] [] []]. Qed.

Lemma lower_ascii_idemp s : lower_ascii (lower_ascii s) = lower_ascii s.
Proof.
  induction s as [|c s IH]; [done|]. simpl. by rewrite ascii_lower_idemp, IH.
Qed.

Lemma is_ascii_lower_ascii s : is_ascii s = true -> is_ascii (lower_ascii s) = true.
Proof.
  induction s as [|c s IH]; [done|]. simpl.
  intros [Hc Hs]%andb_true_iff. apply andb_true_iff.
  split; [by apply ascii_lower_below | by apply IH].
Qed.

Lemma is_ascii_app s t :
  is_ascii (s +:+ t) = is_ascii s && is_ascii t.
Proof.
  induction s as [|c s IH]; [done|].
  rewrite string_app_cons. simpl. by rewrite IH, andb_assoc.
Qed.

(** The lower case of an ASCII text does not ask for the Unicode tables. *)
Lemma lower_of_ascii unicode_lower s :
  is_ascii s = true -> lower unicode_lower s = lower_ascii s.
Proof. intros Hs. unfold lower. by rewrite Hs. Qed.

Lemma any_keyword_in_app keywords a s b :
  any_keyword_in keywords s = true ->
  any_keyword_in keywords (a +:+ s +:+ b) = true.
Proof.
  unfold any_keyword_in. intros (kw & Hin & Hkw)%existsb_exists.
  apply existsb_exists. exists kw. split; [done|].
  by apply contains_app_l, contains_app_r.
Qed.

(** X23: on ASCII text, where [str.lower] lower-cases the letters A to Z and
    nothing else, the classifiers look for their keywords anywhere in the
    lower-cased query, inside longer words too, so text added around a query
    never takes a match away: a query classified as a code request, or as a
    modification request, stays one inside any longer ASCII query. On an
    ASCII query both classifiers give the same answer for the query and for
    its lower-cased form. No query, ASCII or not, is a modification request
    without context and without stored code. *)
Theorem classifiers_match_substrings (unicode_lower : string -> string)
    (q : string) :
  (forall a b,
     is_ascii (a +:+ q +:+ b) = true ->
     is_likely_code_request unicode_lower q = true ->
     is_likely_code_request unicode_lower (a +:+ q +:+ b) = true)
  /\ (forall a b has_context has_previous_code,
        is_ascii (a +:+ q +:+ b) = true ->
        is_modification_request unicode_lower q has_context has_previous_code
        = true ->
        is_modification_request unicode_lower (a +:+ q +:+ b) has_context
                                has_previous_code
        = true)
  /\ (is_ascii q = true ->
      is_likely_code_request unicode_lower (lower unicode_lower q)
      = is_likely_code_request unicode_lower q)
  /\ (is_ascii q = true ->
      forall has_context has_previous_code,
        is_modification_request unicode_lower (lower unicode_lower q)
                                has_context has_previous_code
        = is_modification_request unicode_lower q has_context
                                  has_previous_code)
  /\ is_modification_request unicode_lower q false false = false.
Proof.
  assert (Hparts : forall a b,
            is_ascii (a +:+ q +:+ b) = true ->
            lower unicode_lower q = lower_ascii q
            /\ lower unicode_lower (a +:+ q +:+ b)
               = lower_ascii a +:+ lower_ascii q +:+ lower_ascii b).
  { intros a b Hall. rewrite (lower_of_ascii _ _ Hall), !lower_ascii_app.
    rewrite !is_ascii_app in Hall.
    apply andb_true_iff in Hall as [_ [Hq _]%andb_true_iff].
    by rewrite (lower_of_ascii _ _ Hq). }
  assert (Hlow : is_ascii q = true ->
                 lower unicode_lower (lower unicode_lower q)
                 = lower unicode_lower q).
  { intros Hq. rewrite (lower_of_ascii _ q Hq).
    rewrite (lower_of_ascii _ _ (is_ascii_lower_ascii q Hq)).
    apply lower_ascii_idemp. }
  split_and!.
  - intros a b Hall H. destruct (Hparts a b Hall) as [Hq Habq].
    unfold is_likely_code_request in *. rewrite Habq. rewrite Hq in H.
    by apply any_keyword_in_app.
  - intros a b c p Hall H. destruct (Hparts a b Hall) as [Hq Habq].
    unfold is_modification_request in *. rewrite Habq. rewrite Hq in H.
    apply andb_true_iff in H as [H Hflags]. apply andb_true_iff.
    split; [|done].
    apply orb_true_iff in H as [H|H]; apply orb_true_iff;
      [left | right]; by apply any_keyword_in_app.
  - intros Hq. unfold is_likely_code_request. by rewrite (Hlow Hq).
  - intros Hq c p. unfold is_modification_request. by rewrite (Hlow Hq).
  - unfold is_modification_request. cbn [orb]. by rewrite andb_false_r.
Qed.

(** ** The upload endpoint *)

Lemma omap_nil_Forall {A B} (f : A -> option B) l :
  omap f l = [] <-> Forall (fun x => f x = None) l.
Proof.
  induction l as [|x l IH]; simpl; [by split; [constructor|]|].
  destruct (f x) eqn:E; simpl.
  - split; [done | by intros [? ?]%Forall_cons; simplify_eq].
  - rewrite IH. split; [by constructor | by intros [? ?]%Forall_cons].
Qed.

Lemma endpoint_context_never_empty_aux (files : list Upload)
    (ws_tree : option WorkspaceTree) :
  (endpoint_context files ws_tree = None
   <-> Forall (fun f => upload_text f = None) files /\ ws_tree = None)
  /\ (forall c,
        endpoint_context files ws_tree = Some c ->
        request_has_context (Some c) = true
        /\ workspace_tree c = ws_tree
        /\ open_files c <> Some []
        /\ default [] (open_files c)
           = omap (fun f => (fun text => {| fc_path := upload_filename f;
                                            fc_content := text |})
                            <$> upload_text f) files).
Proof.
  unfold endpoint_context.
  set (g := fun f : Upload => _).
  assert (Hnil : omap g files = [] <-> Forall (fun f => upload_text f = None) files).
  { rewrite omap_nil_Forall. apply Forall_iff. intros f. subst g. simpl.
    by destruct (upload_text f). }
  split.
  - destruct (omap g files) as [|x l] eqn:E.
    + destruct ws_tree; split; try done.
      * by intros [_ ?].
      * intros _. split; [by apply Hnil | done].
    + split; [done|]. intros [H%Hnil _]. done.
  - intros c Hc. destruct (omap g files) as [|x l] eqn:E.
    + destruct ws_tree as [t|]; [|done]. by injection Hc as <-.
    + by injection Hc as <-.
Qed.

(** X24: the context [chat_endpoint] builds is never present but empty. It
    is absent exactly when no upload could be read and no workspace tree
    was given; otherwise it counts as context for the handler, carries the
    given tree, and lists the readable uploads, and only those, in upload
    order under their file names. *)
Theorem endpoint_context_never_empty (files : list Upload)
    (ws_tree : option WorkspaceTree) :
  (endpoint_context files ws_tree = None
   <-> Forall (fun f => upload_text f = None) files /\ ws_tree = None)
  /\ (forall c,
        endpoint_context files ws_tree = Some c ->
        request_has_context (Some c) = true
        /\ workspace_tree c = ws_tree
        /\ open_files c <> Some []
        /\ default [] (open_files c)
           = omap (fun f => (fun text => {| fc_path := upload_filename f;
                                            fc_content := text |})
                            <$> upload_text f) files).
Proof. exact (endpoint_context_never_empty_aux files ws_tree). Qed.

Section EndpointProps.
Context (unicode_lower : string -> string).
Context (call_api : Provider -> list Message -> string -> string
                    -> string + (string * gmap string Z)).
Context (json_loads : string -> string + Payload).
Context (json_dumps : Payload -> string).
Context (dumps_tree : WorkspaceTree -> string).
Context (parse_tree : string -> TreeParse).

(** X25: [chat_endpoint] before the handler. A workspace tree text that is
    not JSON ends the call in a 400 before any session is created: the
    state is the one of before, whatever was uploaded. An empty tree text
    counts as no tree. With no tree and no readable upload the call is the
    handler's on a request without context. *)
Theorem chat_endpoint_edges (st : AppState) (q sid : string)
    (model : option string) (files : list Upload) :
  (forall text,
     is_empty_string text = false ->
     parse_tree text = TreeJSONError ->
     chat_endpoint unicode_lower call_api json_loads json_dumps dumps_tree parse_tree
                   st q sid model (Some text) files
     = (st, Raised 400 "Invalid workspace_tree JSON"))
  /\ chat_endpoint unicode_lower call_api json_loads json_dumps dumps_tree parse_tree
                   st q sid model (Some "") files
     = chat_endpoint unicode_lower call_api json_loads json_dumps dumps_tree parse_tree
                     st q sid model None files
  /\ (Forall (fun f => upload_text f = None) files ->
      chat_endpoint unicode_lower call_api json_loads json_dumps dumps_tree parse_tree
                    st q sid model None files
      = process_chat_request unicode_lower call_api json_loads json_dumps dumps_tree st
          {| query := q; context := None; session_id := sid;
             model_name := model |}).
Proof.
  split_and!.
  - intros text Hne Hparse. unfold chat_endpoint. by rewrite Hne, Hparse.
  - reflexivity.
  - intros Hfiles. unfold chat_endpoint.
    by rewrite (proj2 (proj1 (endpoint_context_never_empty_aux files None))
                      (conj Hfiles eq_refl)).
Qed.

End EndpointProps.

(** ** Provider routing *)

(** X26: [determine_provider] routes a model name to OpenAI exactly when it
    is a key of the OpenAI mapping; every other name, known to Claude or
    unknown to both, goes to Claude, and so does a request that names no
    model or an empty one. *)
Theorem determine_provider_openai_iff (name : string) :
  (determine_provider name = OpenAI <-> name ∈ openai_models)
  /\ (forall req,
        model_name req = None \/ model_name req = Some "" ->
        determine_provider (effective_model_name req) = Claude).
Proof.
  split.
  - unfold determine_provider, is_claude_model, is_openai_model.
    destruct (decide (name ∈ openai_models)) as [Hin|Hnin].
    + assert (Hnc : name ∉ claude_models).
      { unfold openai_models, claude_models in *.
        rewrite !elem_of_cons, elem_of_nil in *. intros Hc.
        destruct Hin as [->| [->| [->| [->|[]]]]];
          destruct Hc as [?| [?| [?| [?|[]]]]]; discriminate. }
      rewrite (bool_decide_eq_false_2 _ Hnc), (bool_decide_eq_true_2 _ Hin).
      done.
    + rewrite (bool_decide_eq_false_2 _ Hnin).
      split; [by destruct (bool_decide _) | done].
  - intros req [H|H]; unfold effective_model_name; by rewrite H.
Qed.

(** ** Examples *)

Lemma decode_reply_candidate_witness :
  decode_reply echo_candidate "Here you go: {a} {b} done" = inl "{a} {b}".
Proof.
  exact (proj1 (decode_reply_candidate echo_candidate)
               "Here you go: " "a} {b" " done" eq_refl eq_refl).
Defined.

Lemma context_takes_precedence_witness :
  turn_message (begin_turn no_unicode no_dump state_with_code file_request)
  = String.concat nl
      [context_block (build_context_string no_dump (context file_request));
       user_request_block "rename the hook"].
Proof.
  exact (context_takes_precedence no_unicode no_dump state_with_code file_request
                                  eq_refl).
Defined.

Lemma previous_code_sent_for_modification_witness :
  turn_message (begin_turn no_unicode no_dump state_with_code fix_request)
  = String.concat nl [previous_code_block "dump";
                      user_request_block "Fix the form"].
Proof.
  assert (Hb : exists b, conversations state_with_code Claude !! "s1" = Some b)
    by (vm_compute; eauto).
  destruct Hb as [b Hb].
  exact (previous_code_sent_for_modification no_unicode no_dump state_with_code
                                             fix_request b eq_refl Hb).
Defined.

Lemma first_turn_of_provider_witness :
  previous_code state_with_code "s1" = Some "dump"
  /\ generated_code
       (turn_state (begin_turn no_unicode no_dump state_with_code openai_request))
       !! "s1" = Some None
  /\ turn_message (begin_turn no_unicode no_dump state_with_code openai_request)
     = user_request_block "hello".
Proof.
  destruct (first_turn_of_provider no_unicode no_dump state_with_code
                                   openai_request eq_refl)
    as (Hcode & _ & Hmsg).
  split_and!; [reflexivity | exact Hcode | exact (Hmsg eq_refl)].
Defined.

Lemma reset_session_forgets_witness :
  get_code state_with_code "s1" = Code "dump" "s1"
  /\ get_code (reset_session state_with_code "s1").1 "s1"
     = NoCode "No code generated yet"
  /\ (reset_session initial_state "s1").1 = initial_state.
Proof.
  destruct (reset_session_forgets state_with_code "s1") as (_ & Hcode & _).
  destruct (reset_session_forgets initial_state "s1") as (_ & _ & _ & _ & Hid).
  split_and!; [reflexivity | exact Hcode |].
  apply Hid; [intros p; by destruct p | reflexivity].
Defined.

Lemma history_and_code_agree_witness :
  get_history state_with_code "s1" "gemini" = None
  /\ exists h, get_history state_with_code "s1" "claude" = Some h
               /\ hist_session_id h = Some "s1".
Proof.
  destruct (history_and_code_agree state_with_code "s1" "gemini") as (Hkey & _).
  assert (Hb : exists b, conversations state_with_code Claude !! "s1" = Some b)
    by (vm_compute; eauto).
  destruct Hb as [b Hb].
  destruct (history_and_code_agree state_with_code "s1" "claude")
    as (_ & _ & Hhist).
  destruct (Hhist Claude b eq_refl Hb) as (h & Hh & _ & Hsid & _).
  split; [exact (Hkey eq_refl) | exists h; by split].
Defined.

Lemma get_model_id_fallback_witness :
  get_model_id openai_model_mapping "gpt-5" (Some "gpt-4o") = None
  /\ get_model_id openai_model_mapping "gpt-4o" (Some "gpt-5")
     = Some "gpt-4o-2024-11-20"
  /\ get_model_id openai_model_mapping "gpt-4o" (Some "o1")
     = Some "o1-2024-12-17".
Proof.
  destruct (get_model_id_fallback openai_model_mapping "gpt-5") as (Hkey & _).
  destruct (get_model_id_fallback openai_model_mapping "gpt-4o")
    as (_ & Hdefault).
  destruct (Hdefault "gpt-4o-2024-11-20" eq_refl) as (_ & _ & Hunknown & Hknown).
  split_and!.
  - exact (Hkey eq_refl (Some "gpt-4o")).
  - exact (Hunknown "gpt-5" eq_refl).
  - apply Hknown; [discriminate | reflexivity].
Defined.

Lemma classifiers_match_substrings_witness :
  is_likely_code_request no_unicode "What is in the INFORMATION panel?" = true.
Proof.
  exact (proj1 (classifiers_match_substrings no_unicode "FORM")
               "What is in the IN" "ATION panel?" eq_refl eq_refl).
Defined.

Lemma endpoint_context_never_empty_witness :
  endpoint_context [binary_upload] None = None
  /\ exists c, endpoint_context [binary_upload; text_upload] None = Some c
               /\ request_has_context (Some c) = true.
Proof.
  destruct (endpoint_context_never_empty [binary_upload] None) as (Hnone & _).
  destruct (endpoint_context_never_empty [binary_upload; text_upload] None)
    as (_ & Hsome).
  split.
  - apply Hnone. split; [|reflexivity]. by repeat constructor.
  - eexists. split; [reflexivity|]. by apply Hsome.
Defined.

Lemma chat_endpoint_edges_witness :
  chat_endpoint no_unicode (answering "Hello!" ∅) (decoding untyped_payload) no_dump no_dump
                rejecting_tree state_with_code "hello" "s2" None (Some "{oops")
                [text_upload]
  = (state_with_code, Raised 400 "Invalid workspace_tree JSON").
Proof.
  exact (proj1 (chat_endpoint_edges
                  no_unicode (answering "Hello!" ∅) (decoding untyped_payload) no_dump
                  no_dump rejecting_tree state_with_code "hello" "s2" None
                  [text_upload])
               "{oops" eq_refl eq_refl).
Defined.

Lemma determine_provider_openai_iff_witness :
  determine_provider "o1-mini" = OpenAI
  /\ determine_provider (effective_model_name claude_request) = Claude.
Proof.
  destruct (determine_provider_openai_iff "o1-mini") as (Hiff & Hdefault).
  split.
  - apply Hiff. unfold openai_models. rewrite !elem_of_cons. auto 10.
  - apply Hdefault. by left.
Defined.
